(** * ai_cost_guard: baseline, anomaly detection, guardrails, simulation, pricing

    A shallow embedding of the analytical core of [ai_cost_guard]
    ([core/baseline.py], [core/anomaly.py], [core/guardrails.py],
    [core/simulation.py], [core/pricing.py]) together with the part of
    [storage/repository.py] the simulation reads from.

    Conventions of the embedding.
    - Python [float] and [Decimal] values are exact rationals ([Q]); results
      are compared with [==] ([Qeq]).  Rounding of binary floating point is
      not modelled.  [float('inf')] is the constructor [Infinity] of [efloat].
    - Python [int] is [Z]; [len] is [Z.of_nat (length _)].
    - [datetime] is a number of microseconds ([Z]); [datetime.now()] is an
      explicit argument [now].
    - An attribute that the code tests against [None] is an [option].
    - A raised exception is [Raise e]; a normal return is [Ok v].
    - An f-string is the list of its literal pieces and formatted holes
      ([message]); rendering a hole to digits is not modelled. *)

From Stdlib Require Import String ZArith QArith Qround List Bool Lia Lqa.
From Stdlib Require Import Permutation Sorted.
Import ListNotations.

Local Open Scope string_scope.
Local Open Scope Z_scope.
Local Open Scope list_scope.

(* ===================================================================== *)
(** * Part I: the program                                                 *)
(* ===================================================================== *)

(** ** Python runtime pieces shared by the modules *)

Module Py.

(** One hole or literal piece of an f-string. *)
Inductive fragment : Type :=
| Lit (s : string)            (* literal text *)
| Str (s : string)            (* {s} *)
| Int (z : Z)                 (* {z} *)
| IntComma (z : Z)            (* {z:,} *)
| Fixed (digits : nat) (q : Q)       (* {q:.2f}, {q:.4f} *)
| FixedComma (digits : nat) (q : Q). (* {q:,.0f} *)

Definition message : Type := list fragment.

(** [class EnforcementAction(Enum)] of [core/guardrails.py]; it is declared
    here because [GuardrailViolation] carries one. *)
Inductive EnforcementAction : Type :=
| ALLOW | WARN | DOWNGRADE | THROTTLE | BLOCK.

Inductive db_error : Type :=
| NoSuchTableError      (* "no such table: llm_usage_event" *)
| OtherDbError.

Inductive exn : Type :=
| ValueError (msg : message)
| TypeError
| AttributeError
| IndexError
| OperationalError (e : db_error)
| GuardrailViolation (msg : message) (action : EnforcementAction).

Inductive result (A : Type) : Type :=
| Ok (a : A)
| Raise (e : exn).
Arguments Ok {A} a.
Arguments Raise {A} e.

Definition bind {A B : Type} (c : result A) (k : A -> result B) : result B :=
  match c with
  | Ok a => k a
  | Raise e => Raise e
  end.

(** [for x in l: ...] collecting one result per element, stopping at the
    first exception. *)
Fixpoint mapM {A B : Type} (f : A -> result B) (l : list A) : result (list B) :=
  match l with
  | [] => Ok []
  | x :: rest =>
      bind (f x) (fun y => bind (mapM f rest) (fun ys => Ok (y :: ys)))
  end.

(** A list of attribute values none of which may be [None] when it is used
    in arithmetic or compared: the first use of a [None] is a [TypeError]. *)
Fixpoint all_present {A : Type} (l : list (option A)) : result (list A) :=
  match l with
  | [] => Ok []
  | None :: _ => Raise TypeError
  | Some x :: rest => bind (all_present rest) (fun xs => Ok (x :: xs))
  end.

(** [l[i]]: negative indices count from the end, anything else out of range
    raises [IndexError]. *)
Definition getitem {A : Type} (l : list A) (i : Z) : result A :=
  let n := Z.of_nat (length l) in
  let j := if i <? 0 then n + i else i in
  if (j <? 0) || (n <=? j) then Raise IndexError
  else match nth_error l (Z.to_nat j) with
       | Some x => Ok x
       | None => Raise IndexError
       end.

(** [sorted(l, key=...)]: a stable sort, here by insertion. [leb x y] says
    that [x] may stand before [y]. *)
Fixpoint insert_sorted {A : Type} (leb : A -> A -> bool) (x : A) (l : list A)
  : list A :=
  match l with
  | [] => [x]
  | y :: rest =>
      if leb x y then x :: y :: rest else y :: insert_sorted leb x rest
  end.

Fixpoint sorted {A : Type} (leb : A -> A -> bool) (l : list A) : list A :=
  match l with
  | [] => []
  | x :: rest => insert_sorted leb x (sorted leb rest)
  end.

(** [int(q)] for a float [q]: truncation towards zero. *)
Definition int_of_float (q : Q) : Z :=
  if Qle_bool 0 q then Qfloor q else Qceiling q.

(** [q > r] and [q < r] on floats. *)
Definition Qgtb (q r : Q) : bool := negb (Qle_bool q r).
Definition Qltb (q r : Q) : bool := negb (Qle_bool r q).

(** A float that may be [float('inf')]. *)
Inductive efloat : Type :=
| Finite (q : Q)
| Infinity.

(** [x <= 0] *)
Definition efloat_le0 (x : efloat) : bool :=
  match x with
  | Finite q => Qle_bool q 0
  | Infinity => false
  end.

(** [sum(l)] *)
Definition Qsum (l : list Q) : Q := fold_left Qplus l 0%Q.

(** [timedelta(days=d)] in microseconds. *)
Definition timedelta_days (d : Z) : Z := d * 86400000000.

End Py.
Import Py.

Notation "x <- c ;; k" := (bind c (fun x => k))
  (at level 61, c at next level, right associativity).

(** ** storage/models.py *)

Module Models.

Record LLMUsageEvent : Type := {
  timestamp : Z;
  feature : string;
  model : string;
  prompt_tokens : Z;
  completion_tokens : Z;
  total_tokens : option Z;
  estimated_cost : option Q;
  retry_count : option Z;
  request_id : option string
}.

End Models.
Import Models.

(** ** core/baseline.py *)

Module Baseline.

Inductive BaselineState : Type := COLD | WARM.

Record BaselineMetrics : Type := {
  median_cost : Q;
  p90_cost : Q;
  median_tokens : Z;
  sample_count : Z
}.

(** [BaselineMetrics(...)] with its [__post_init__]. *)
Definition new_BaselineMetrics (median_cost p90_cost : Q)
    (median_tokens sample_count : Z) : result BaselineMetrics :=
  if Qltb median_cost 0 then
    Raise (ValueError [Lit "median_cost cannot be negative"])
  else if Qltb p90_cost 0 then
    Raise (ValueError [Lit "p90_cost cannot be negative"])
  else if median_tokens <? 0 then
    Raise (ValueError [Lit "median_tokens cannot be negative"])
  else if sample_count <? 0 then
    Raise (ValueError [Lit "sample_count cannot be negative"])
  else Ok {| median_cost := median_cost; p90_cost := p90_cost;
             median_tokens := median_tokens; sample_count := sample_count |}.

(** [metrics] is [None] in the COLD baselines the simulation builds. *)
Record BaselineResult : Type := {
  metrics : option BaselineMetrics;
  state : BaselineState;
  window_start : Z;
  window_end : Z
}.

(** [BaselineResult(...)] with its [__post_init__]. *)
Definition new_BaselineResult (metrics : option BaselineMetrics)
    (state : BaselineState) (window_start window_end : Z)
  : result BaselineResult :=
  if window_end <? window_start then
    Raise (ValueError [Lit "window_start must be before window_end"])
  else Ok {| metrics := metrics; state := state;
             window_start := window_start; window_end := window_end |}.

Definition _compute_exact_percentile (values : list Q) (percentile : Z)
  : result Q :=
  match values with
  | [] => Raise (ValueError [Lit "Values list cannot be empty"])
  | _ :: _ =>
      if (percentile <? 0) || (100 <? percentile) then
        Raise (ValueError [Lit "Percentile must be between 0 and 100"])
      else
        let sorted_values := sorted Qle_bool values in
        let n := Z.of_nat (length sorted_values) in
        let position := (inject_Z percentile / 100 * inject_Z (n - 1))%Q in
        let lower_index := int_of_float position in
        let upper_index := Z.min (lower_index + 1) (n - 1) in
        let fraction := (position - inject_Z lower_index)%Q in
        lower_value <- getitem sorted_values lower_index ;;
        upper_value <- getitem sorted_values upper_index ;;
        Ok (lower_value + fraction * (upper_value - lower_value))%Q
  end.

(** The validation loop: index of the first event without a cost. *)
Fixpoint first_missing_cost (i : Z) (events : list LLMUsageEvent)
  : option Z :=
  match events with
  | [] => None
  | event :: rest =>
      match estimated_cost event with
      | None => Some i
      | Some _ => first_missing_cost (i + 1) rest
      end
  end.

(** [sorted(events, key=lambda e: e.timestamp, reverse=True)] *)
Definition newest_first (a b : LLMUsageEvent) : bool :=
  timestamp b <=? timestamp a.

(** The window loop, with [filtered_events] as the accumulator; each
    [break] returns it. *)
Fixpoint window_loop (seven_days_ago : Z) (sorted_events : list LLMUsageEvent)
    (filtered_events : list LLMUsageEvent) : list LLMUsageEvent :=
  match sorted_events with
  | [] => filtered_events
  | event :: rest =>
      if timestamp event <? seven_days_ago then filtered_events
      else
        let filtered_events := filtered_events ++ [event] in
        if 200 <=? Z.of_nat (length filtered_events) then filtered_events
        else window_loop seven_days_ago rest filtered_events
  end.

Definition filter_window (now : Z) (events : list LLMUsageEvent)
  : list LLMUsageEvent :=
  let sorted_events := sorted newest_first events in
  let seven_days_ago := now - timedelta_days 7 in
  window_loop seven_days_ago sorted_events [].

Definition compute_baseline (now : Z) (events : list LLMUsageEvent)
  : result BaselineResult :=
  match events with
  | [] => Raise (ValueError [Lit "Events list cannot be empty"])
  | _ :: _ =>
      match first_missing_cost 0 events with
      | Some i =>
          Raise (ValueError [Lit "Event at index "; Int i;
                             Lit " missing estimated_cost"])
      | None =>
          let filtered_events := filter_window now events in
          match filtered_events with
          | [] => Raise (ValueError [Lit "No events found within 7-day window"])
          | _ :: _ =>
              let state :=
                if 20 <=? Z.of_nat (length filtered_events) then WARM
                else COLD in
              costs <- all_present (map estimated_cost filtered_events) ;;
              median_cost <- _compute_exact_percentile costs 50 ;;
              p90_cost <- _compute_exact_percentile costs 90 ;;
              tokens <- all_present (map total_tokens filtered_events) ;;
              median_tokens <-
                _compute_exact_percentile (map inject_Z tokens) 50 ;;
              window_end <- getitem (map timestamp filtered_events) 0 ;;
              window_start <- getitem (map timestamp filtered_events) (-1) ;;
              metrics <-
                new_BaselineMetrics median_cost p90_cost
                  (int_of_float median_tokens)
                  (Z.of_nat (length filtered_events)) ;;
              new_BaselineResult (Some metrics) state window_start window_end
          end
      end
  end.

End Baseline.
Import Baseline.

(** ** core/anomaly.py *)

Module Anomaly.

Inductive AnomalySeverity : Type := WARNING | CRITICAL.

Record AnomalyEvent : Type := {
  feature : string;
  model : string;
  rule : string;
  severity : AnomalySeverity;
  observed_value : Q;
  baseline_value : Q;
  threshold : Q;
  message : Py.message
}.

(** The fields of [BaselineMetrics] are never [None] ([__post_init__]
    compares each with 0), so the [is not None] tests of the three rules
    always pass; a [None] [baseline.metrics] is an [AttributeError]. *)
Definition detect_anomalies (feature model : string)
    (baseline : BaselineResult) (current_event : LLMUsageEvent)
  : result (list AnomalyEvent) :=
  match state baseline with
  | COLD => Ok []
  | WARM =>
      match estimated_cost current_event with
      | None => Raise (ValueError [Lit "Current event missing estimated_cost"])
      | Some cost =>
      match total_tokens current_event with
      | None => Raise (ValueError [Lit "Current event missing total_tokens"])
      | Some tokens =>
      match retry_count current_event with
      | None => Raise (ValueError [Lit "Current event missing retry_count"])
      | Some retries =>
      match metrics baseline with
      | None => Raise AttributeError
      | Some m =>
          let anomalies := [] in
          (* Rule A: Cost Spike (CRITICAL) *)
          let anomalies :=
            let threshold := (p90_cost m * (15 # 10))%Q in
            if Qgtb cost threshold then
              anomalies ++
              [ {| feature := feature; model := model; rule := "A";
                   severity := CRITICAL;
                   observed_value := cost;
                   baseline_value := p90_cost m;
                   threshold := threshold;
                   message :=
                     [Lit "Cost spike detected: $"; Fixed 2 cost;
                      Lit " (P90: $"; Fixed 2 (p90_cost m);
                      Lit " * 1.5 = $"; Fixed 2 threshold; Lit ")"] |} ]
            else anomalies in
          (* Rule B: Token Explosion (WARNING) *)
          let anomalies :=
            let threshold := (inject_Z (median_tokens m) * (17 # 10))%Q in
            if Qgtb (inject_Z tokens) threshold then
              anomalies ++
              [ {| feature := feature; model := model; rule := "B";
                   severity := WARNING;
                   observed_value := inject_Z tokens;
                   baseline_value := inject_Z (median_tokens m);
                   threshold := threshold;
                   message :=
                     [Lit "High token usage: "; IntComma tokens;
                      Lit " (Median: "; IntComma (median_tokens m);
                      Lit " * 1.7 = "; FixedComma 0 threshold; Lit ")"] |} ]
            else anomalies in
          (* Rule C: Retry Amplification (WARNING) *)
          let anomalies :=
            if 1 <? retries then
              let threshold := (p90_cost m * (13 # 10))%Q in
              let total_cost := (cost * inject_Z retries)%Q in
              if Qgtb total_cost threshold then
                anomalies ++
                [ {| feature := feature; model := model; rule := "C";
                     severity := WARNING;
                     observed_value := total_cost;
                     baseline_value := p90_cost m;
                     threshold := threshold;
                     message :=
                       [Lit "Retry amplification: $"; Fixed 2 total_cost;
                        Lit " ($"; Fixed 2 cost; Lit " * "; Int retries;
                        Lit " retries) > $"; Fixed 2 threshold;
                        Lit " (P90: $"; Fixed 2 (p90_cost m);
                        Lit " * 1.3)"] |} ]
              else anomalies
            else anomalies in
          Ok anomalies
      end end end end
  end.

End Anomaly.

(** ** core/guardrails.py *)

Module Guardrails.

(** [auto()] numbers the members 1, 2, ... in declaration order. *)
Definition value (a : EnforcementAction) : Z :=
  match a with
  | ALLOW => 1
  | WARN => 2
  | DOWNGRADE => 3
  | THROTTLE => 4
  | BLOCK => 5
  end.

Record BudgetState : Type := {
  amount_used : Q;
  amount_remaining : efloat;
  budget_period_days : Z
}.

Record GuardrailConfig : Type := {
  max_cost_per_request : option Q;
  budget_limit : option Q;
  on_budget_breach : EnforcementAction;
  on_critical_anomaly : EnforcementAction;
  on_warning_anomaly : EnforcementAction
}.

(** [GuardrailConfig()] *)
Definition default_GuardrailConfig : GuardrailConfig :=
  {| max_cost_per_request := None; budget_limit := None;
     on_budget_breach := BLOCK; on_critical_anomaly := BLOCK;
     on_warning_anomaly := WARN |}.

(** The closure [_update_action] over the nonlocal pair
    [(action_taken, message)]. *)
Definition _update_action (st : EnforcementAction * message)
    (new_action : EnforcementAction) (new_message : message)
  : EnforcementAction * message :=
  if value (fst st) <? value new_action then (new_action, new_message)
  else st.

(** One turn of the loop over [anomalies]. *)
Definition anomaly_step (feature model : string) (config : GuardrailConfig)
    (st : EnforcementAction * message) (anomaly : Anomaly.AnomalyEvent)
  : EnforcementAction * message :=
  match Anomaly.severity anomaly with
  | Anomaly.CRITICAL =>
      _update_action st (on_critical_anomaly config)
        ([Lit "Critical anomaly detected in "; Str feature; Lit "/";
          Str model; Lit ": "] ++ Anomaly.message anomaly)
  | Anomaly.WARNING =>
      _update_action st (on_warning_anomaly config)
        ([Lit "Warning anomaly in "; Str feature; Lit "/"; Str model;
          Lit ": "] ++ Anomaly.message anomaly)
  end.

(** Checks 1 to 3: the pair [(action_taken, message)] before the final
    test. Comparing a [None] cost with the limit is a [TypeError]. *)
Definition run_checks (feature model : string) (config : GuardrailConfig)
    (baseline : BaselineResult) (current_event : LLMUsageEvent)
    (anomalies : list Anomaly.AnomalyEvent) (budget_state : BudgetState)
  : result (EnforcementAction * message) :=
  let st := (ALLOW, []) in
  (* 1. Check per-request max cost *)
  st <- match max_cost_per_request config with
        | None => Ok st
        | Some limit =>
            match estimated_cost current_event with
            | None => Raise TypeError
            | Some cost =>
                if Qgtb cost limit then
                  Ok (_update_action st BLOCK
                        [Lit "Request cost $"; Fixed 4 cost;
                         Lit " exceeds maximum allowed $"; Fixed 4 limit;
                         Lit " for "; Str feature; Lit "/"; Str model])
                else Ok st
            end
        end ;;
  (* 2. Check budget limits *)
  let st :=
    match budget_limit config with
    | None => st
    | Some limit =>
        if efloat_le0 (amount_remaining budget_state) then
          _update_action st (on_budget_breach config)
            [Lit "Budget limit of $"; Fixed 2 limit; Lit " reached for ";
             Str feature; Lit ". Current spend: $";
             Fixed 2 (amount_used budget_state)]
        else st
    end in
  (* 3. Check for anomalies (only if baseline is WARM) *)
  let st :=
    match state baseline with
    | WARM => fold_left (anomaly_step feature model config) anomalies st
    | COLD => st
    end in
  Ok st.

Definition enforce_guardrails (feature model : string)
    (config : GuardrailConfig) (baseline : BaselineResult)
    (current_event : LLMUsageEvent) (anomalies : list Anomaly.AnomalyEvent)
    (budget_state : BudgetState) : result EnforcementAction :=
  st <- run_checks feature model config baseline current_event anomalies
          budget_state ;;
  let '(action_taken, message) := st in
  match action_taken with
  | BLOCK | THROTTLE => Raise (GuardrailViolation message action_taken)
  | _ => Ok action_taken
  end.

End Guardrails.

(** ** storage/repository.py *)

Module Repository.

(** A [UsageRepository] is the database its [db_path] names: the rows of
    [llm_usage_event] in insertion (rowid) order, or a database without that
    table, or one that cannot be read.  Timestamps are stored as ISO text
    and compared as such; here they are compared as numbers. *)
Inductive UsageRepository : Type :=
| Table (rows : list LLMUsageEvent)
| NoTable
| Unreadable.

(** [if feature:] is false for [None] and for the empty string. *)
Definition truthy (s : option string) : option string :=
  match s with
  | Some "" => None
  | other => other
  end.

Definition matches (filter : option string) (s : string) : bool :=
  match truthy filter with
  | None => true
  | Some f => String.eqb s f
  end.

(** [ORDER BY timestamp DESC] is taken to keep rows of equal timestamp in
    rowid order; a negative [LIMIT] is no limit. *)
Definition get_recent_events (self : UsageRepository) (now : Z)
    (feature model : option string) (days : option Z) (limit : Z)
  : result (list LLMUsageEvent) :=
  match self with
  | NoTable => Raise (OperationalError NoSuchTableError)
  | Unreadable => Raise (OperationalError OtherDbError)
  | Table rows =>
      let selected :=
        filter (fun row =>
                  matches feature (Models.feature row)
                  && matches model (Models.model row)
                  && match days with
                     | None => true
                     | Some d => now - timedelta_days d <=? timestamp row
                     end) rows in
      let ordered := sorted newest_first selected in
      Ok (if limit <? 0 then ordered else firstn (Z.to_nat limit) ordered)
  end.

End Repository.

(** ** core/simulation.py *)

Module Simulation.

Inductive SimulationVerdict : Type := PASS | WARN | FAIL.

Record FeatureSimulationResult : Type := {
  feature : string;
  model : string;
  estimated_monthly_cost : Q;
  anomalies : list Anomaly.AnomalyEvent;
  violations : list (EnforcementAction * message)
}.

Record SimulationResult : Type := {
  per_feature_results : list FeatureSimulationResult;
  overall_verdict : SimulationVerdict;
  estimated_monthly_impact : Q
}.

Definition empty_result : SimulationResult :=
  {| per_feature_results := []; overall_verdict := PASS;
     estimated_monthly_impact := 0 |}.

(** [action.name.lower()] *)
Definition lower_name (a : EnforcementAction) : string :=
  match a with
  | ALLOW => "allow"
  | Py.WARN => "warn"
  | DOWNGRADE => "downgrade"
  | THROTTLE => "throttle"
  | BLOCK => "block"
  end.

Definition action_eqb (a b : EnforcementAction) : bool :=
  Guardrails.value a =? Guardrails.value b.

(** [min(...)] and [max(...)] of a non-empty sequence of timestamps. *)
Definition min_of (x : Z) (l : list Z) : Z := fold_left Z.min l x.
Definition max_of (x : Z) (l : list Z) : Z := fold_left Z.max l x.

(** With no events both window bounds are [None], and the [__post_init__]
    of [BaselineResult] compares them: a [TypeError]. [sorted] compares the
    costs and the token counts, so a [None] among them is a [TypeError]. *)
Definition _create_baseline_from_events (events : list LLMUsageEvent)
  : result BaselineResult :=
  let len := Z.of_nat (length events) in
  match map timestamp events with
  | [] => Raise TypeError
  | t :: ts =>
      if len <? 3 then
        new_BaselineResult None COLD (min_of t ts) (max_of t ts)
      else
        costs <- all_present (map estimated_cost events) ;;
        let costs := sorted Qle_bool costs in
        tokens <- all_present (map total_tokens events) ;;
        let tokens := sorted Z.leb tokens in
        median_cost <- getitem costs (len / 2) ;;
        p90_cost <- getitem costs (int_of_float (inject_Z len * (9 # 10))) ;;
        median_tokens <- getitem tokens (len / 2) ;;
        metrics <- new_BaselineMetrics median_cost p90_cost median_tokens len ;;
        new_BaselineResult (Some metrics) WARM (min_of t ts) (max_of t ts)
  end.

(** The dry-run budget state. *)
Definition dry_run_budget : Guardrails.BudgetState :=
  {| Guardrails.amount_used := 0;
     Guardrails.amount_remaining := Infinity;
     Guardrails.budget_period_days := 30 |}.

(** [except Exception as e] reads [e.action]: an exception other than
    [GuardrailViolation] has no such attribute. *)
Definition _simulate_enforcement (feature model : string)
    (config : Guardrails.GuardrailConfig) (baseline : BaselineResult)
    (current_event : LLMUsageEvent) (anomalies : list Anomaly.AnomalyEvent)
  : result (list (EnforcementAction * message)) :=
  let violations := [] in
  let budget_state := dry_run_budget in
  match state baseline with
  | COLD => Ok violations
  | WARM =>
      match Guardrails.enforce_guardrails feature model config baseline
              current_event anomalies budget_state with
      | Ok action =>
          if negb (action_eqb action ALLOW) then
            Ok (violations ++
                [(action, [Lit "Simulated "; Str (lower_name action)])])
          else Ok violations
      | Raise (GuardrailViolation msg action) =>
          Ok (violations ++ [(action, msg)])
      | Raise _ => Raise AttributeError
      end
  end.

Definition _determine_overall_verdict (results : list FeatureSimulationResult)
  : SimulationVerdict :=
  let flags :=
    fold_left
      (fun flags result =>
         fold_left
           (fun (flags : bool * bool) (v : EnforcementAction * message) =>
              match fst v with
              | BLOCK | THROTTLE => (true, snd flags)
              | Py.WARN => (fst flags, true)
              | _ => flags
              end)
           (violations result) flags)
      results (false, false) in
  if fst flags then FAIL
  else if snd flags then WARN
  else PASS.

Definition key_eqb (a b : string * string) : bool :=
  String.eqb (fst a) (fst b) && String.eqb (snd a) (snd b).

(** [d.setdefault(key, []).append(event)] on an insertion-ordered dict. *)
Fixpoint setdefault_append
    (d : list ((string * string) * list LLMUsageEvent))
    (key : string * string) (event : LLMUsageEvent)
  : list ((string * string) * list LLMUsageEvent) :=
  match d with
  | [] => [(key, [event])]
  | (k, l) :: rest =>
      if key_eqb k key then (k, l ++ [event]) :: rest
      else (k, l) :: setdefault_append rest key event
  end.

Definition group_events (events : list LLMUsageEvent)
  : list ((string * string) * list LLMUsageEvent) :=
  fold_left
    (fun d event =>
       setdefault_append d (Models.feature event, Models.model event) event)
    events [].

(** The event the loop body calls [latest_event]. *)
Definition latest_event (feature_events : list LLMUsageEvent)
  : result LLMUsageEvent :=
  getitem feature_events (-1).

(** The body of the loop over [events_by_feature.items()]. *)
Definition simulate_group (config : Guardrails.GuardrailConfig)
    (item : (string * string) * list LLMUsageEvent)
  : result FeatureSimulationResult :=
  let '((feature_name, model), feature_events) := item in
  latest_event <- latest_event feature_events ;;
  baseline <- _create_baseline_from_events feature_events ;;
  anomalies <-
    match state baseline with
    | WARM => Anomaly.detect_anomalies feature_name model baseline latest_event
    | COLD => Ok []
    end ;;
  violations <-
    _simulate_enforcement feature_name model config baseline latest_event
      anomalies ;;
  costs <- all_present (map estimated_cost feature_events) ;;
  let daily_avg := (Qsum costs / 30)%Q in
  let estimated_monthly := (daily_avg * 30)%Q in
  Ok {| feature := feature_name; model := model;
        estimated_monthly_cost := estimated_monthly;
        anomalies := anomalies; violations := violations |}.

Definition simulate_cost_impact (now : Z) (feature : option string)
    (config : Guardrails.GuardrailConfig)
    (repository : Repository.UsageRepository) : result SimulationResult :=
  match Repository.get_recent_events repository now feature None (Some 30)
          1000 with
  | Raise (OperationalError NoSuchTableError) => Ok empty_result
  | Raise e => Raise e
  | Ok [] => Ok empty_result
  | Ok events =>
      let events_by_feature := group_events events in
      results <- mapM (simulate_group config) events_by_feature ;;
      let overall_verdict := _determine_overall_verdict results in
      let total_impact := Qsum (map estimated_monthly_cost results) in
      Ok {| per_feature_results := results;
            overall_verdict := overall_verdict;
            estimated_monthly_impact := total_impact |}
  end.

End Simulation.

(** ** core/token_counter.py and core/pricing.py *)

Module Pricing.

Record TokenUsage : Type := {
  prompt_tokens : Z;
  completion_tokens : Z
}.

Record ModelPricing : Type := {
  prompt_cost_per_1k : Q;
  completion_cost_per_1k : Q
}.

(** The [prices] dict. *)
Definition PricingTable : Type := list (string * ModelPricing).

Definition lookup (self : PricingTable) (model : string)
  : option ModelPricing :=
  option_map snd (find (fun entry => String.eqb (fst entry) model) self).

Definition get_pricing (self : PricingTable) (model : string)
  : result ModelPricing :=
  match lookup self model with
  | None => Raise (ValueError [Lit "Unsupported model: "; Str model])
  | Some pricing => Ok pricing
  end.

Definition PRICING_TABLE : PricingTable :=
  [ ("gpt-4",
     {| prompt_cost_per_1k := 30; completion_cost_per_1k := 60 |});
    ("gpt-3.5-turbo",
     {| prompt_cost_per_1k := 15 # 10; completion_cost_per_1k := 2 |});
    ("claude-3-opus",
     {| prompt_cost_per_1k := 15; completion_cost_per_1k := 75 |}) ].

(** [d.quantize(Decimal("0.01"), rounding=ROUND_UP)]: to a whole number of
    hundredths, away from zero. *)
Definition quantize_round_up (d : Q) : Q :=
  let hundredths := (d * 100)%Q in
  (inject_Z (if Qle_bool 0 hundredths then Qceiling hundredths
             else Qfloor hundredths) / 100)%Q.

Definition calculate_cost (model : string) (usage : TokenUsage) : result Q :=
  pricing <- get_pricing PRICING_TABLE model ;;
  let prompt_cost :=
    (inject_Z (prompt_tokens usage) / 1000 * prompt_cost_per_1k pricing)%Q in
  let completion_cost :=
    (inject_Z (completion_tokens usage) / 1000
     * completion_cost_per_1k pricing)%Q in
  let total_cost := (prompt_cost + completion_cost)%Q in
  let rounded_cost := quantize_round_up total_cost in
  Ok rounded_cost.

End Pricing.


(* ===================================================================== *)
(** * Part I, continued: the write path, the command line and the SDK     *)
(* ===================================================================== *)

(** ** storage/db.py and the module-level functions of
       storage/repository.py *)

Module Storage.
Import Repository.

(** What a write can raise: [sqlite3.OperationalError],
    [OverflowError] (a Python int that does not fit an SQLite INTEGER) and
    [sqlite3.IntegrityError] (a NOT NULL column given [None]). *)
Inductive db_exn : Type :=
| DbOperationalError (e : db_error)
| DbOverflowError
| DbIntegrityError.

(** The database files, by path.  [get_connection] opens the database at
    [db_path]; a path at which there is no database yet gives an empty one,
    without the table.  A path is taken in the form [str(Path(db_path))]
    gives it, and two paths are taken to name two files. *)
Definition files : Type := string -> UsageRepository.

Definition get_connection (fs : files) (db_path : string) : UsageRepository :=
  fs db_path.

(** The state of the files once the connection to [db_path] has committed
    [db]. *)
Definition commit (fs : files) (db_path : string) (db : UsageRepository)
  : files :=
  fun path => if String.eqb path db_path then db else fs path.

(** [initialize_schema], that is [CREATE TABLE IF NOT EXISTS
    llm_usage_event (...)]: the files afterwards, and the exception raised
    if any. *)
Definition initialize_schema (fs : files) (db_path : string)
  : files * option db_exn :=
  match get_connection fs db_path with
  | Table rows => (commit fs db_path (Table rows), None)
  | NoTable => (commit fs db_path (Table []), None)
  | Unreadable => (fs, Some (DbOperationalError OtherDbError))
  end.

(** An SQLite INTEGER holds 64 bits. *)
Definition sqlite_integer (z : Z) : bool :=
  (- 2 ^ 63 <=? z) && (z <? 2 ^ 63).

Definition optional_sqlite_integer (z : option Z) : bool :=
  match z with
  | Some z => sqlite_integer z
  | None => true
  end.

(** The integer parameters of the INSERT can be bound. *)
Definition binds (event : LLMUsageEvent) : bool :=
  sqlite_integer (prompt_tokens event)
  && sqlite_integer (completion_tokens event)
  && optional_sqlite_integer (total_tokens event)
  && optional_sqlite_integer (retry_count event).

Definition is_some {A : Type} (o : option A) : bool :=
  match o with
  | Some _ => true
  | None => false
  end.

(** The NOT NULL columns that an event can leave [None]:
    [total_tokens], [estimated_cost] and [retry_count] (whose DEFAULT does
    not apply, the column being listed in the INSERT). *)
Definition not_null (event : LLMUsageEvent) : bool :=
  is_some (total_tokens event)
  && is_some (estimated_cost event)
  && is_some (retry_count event).

(** [conn.execute("INSERT INTO llm_usage_event ... VALUES (?, ...)", ...)]:
    the statement is prepared (the table must exist), its parameters are
    bound, and the row is appended. *)
Definition execute_insert (db : UsageRepository) (event : LLMUsageEvent)
  : UsageRepository + db_exn :=
  match db with
  | NoTable => inr (DbOperationalError NoSuchTableError)
  | Unreadable => inr (DbOperationalError OtherDbError)
  | Table rows =>
      if negb (binds event) then inr DbOverflowError
      else if negb (not_null event) then inr DbIntegrityError
      else inl (Table (rows ++ [event]))
  end.

(** [insert_usage_event]: the files afterwards, and the exception raised if
    any.  Without [conn.commit()] the connection is closed with nothing
    written. *)
Definition insert_usage_event (event : LLMUsageEvent) (fs : files)
    (db_path : string) : files * option db_exn :=
  let conn := get_connection fs db_path in
  match execute_insert conn event with
  | inl conn' => (commit fs db_path conn', None)
  | inr e => (fs, Some e)
  end.

(** The [for event in events] loop inside the transaction. *)
Fixpoint insert_loop (conn : UsageRepository) (events : list LLMUsageEvent)
  : UsageRepository + db_exn :=
  match events with
  | [] => inl conn
  | event :: rest =>
      match execute_insert conn event with
      | inl conn' => insert_loop conn' rest
      | inr e => inr e
      end
  end.

(** [insert_usage_events]: [if not events: return] comes before the
    connection is opened; [except Exception: conn.rollback(); raise]. *)
Definition insert_usage_events (events : list LLMUsageEvent) (fs : files)
    (db_path : string) : files * option db_exn :=
  match events with
  | [] => (fs, None)
  | _ :: _ =>
      let conn := get_connection fs db_path in
      match insert_loop conn events with
      | inl conn' => (commit fs db_path conn', None)
      | inr e => (fs, Some e)
      end
  end.

(** [fetch_recent_usage_events] *)
Definition fetch_recent_usage_events (fs : files)
    (feature model : option string) (limit : Z) (db_path : string)
  : result (list LLMUsageEvent) :=
  match get_connection fs db_path with
  | NoTable => Raise (OperationalError NoSuchTableError)
  | Unreadable => Raise (OperationalError OtherDbError)
  | Table rows =>
      let selected :=
        match truthy feature, truthy model with
        | None, None => rows
        | _, _ =>
            filter (fun row =>
                      match truthy feature with
                      | Some f => String.eqb (Models.feature row) f
                      | None => true
                      end
                      && match truthy model with
                         | Some m => String.eqb (Models.model row) m
                         | None => true
                         end) rows
        end in
      let ordered := sorted newest_first selected in
      Ok (if limit <? 0 then ordered else firstn (Z.to_nat limit) ordered)
  end.

(** [get_repository()], called first without a path. *)
Definition default_db_path : string := "ai_cost_guard.db".

Definition get_repository (fs : files) : UsageRepository :=
  get_connection fs default_db_path.

End Storage.

(** ** cli/main.py *)

Module Cli.
Import Simulation.

Definition EXIT_CODE_PASS : Z := 0.
Definition EXIT_CODE_FAIL : Z := 1.


(** How a command ends: [sys.exit(code)], which no [except Exception]
    catches, or an exception that leaves the command. *)
Inductive ending : Type :=
| Exit (code : Z)
| Uncaught (e : exn).

Definition verdict_is_fail (verdict : SimulationVerdict) : bool :=
  match verdict with
  | FAIL => true
  | _ => false
  end.

Definition is_empty {A : Type} (l : list A) : bool :=
  match l with
  | [] => true
  | _ :: _ => false
  end.

(** The command [simulate]; what it prints is left out. *)
Definition simulate (fs : Storage.files) (now : Z) (feature : option string)
    (max_cost budget : option Q) (enforced : bool) : ending :=
  let repository := Storage.get_repository fs in
  let config :=
    {| Guardrails.max_cost_per_request := max_cost;
       Guardrails.budget_limit := budget;
       Guardrails.on_budget_breach := BLOCK;
       Guardrails.on_critical_anomaly := BLOCK;
       Guardrails.on_warning_anomaly := Py.WARN |} in
  match simulate_cost_impact now feature config repository with
  | Ok result =>
      if is_empty (per_feature_results result)
         && Qeq_bool (estimated_monthly_impact result) 0
      then Exit EXIT_CODE_PASS
      else if enforced && verdict_is_fail (overall_verdict result)
      then Exit EXIT_CODE_FAIL
      else Exit EXIT_CODE_PASS
  | Raise (OperationalError NoSuchTableError) => Exit EXIT_CODE_PASS
  | Raise (OperationalError e) => Uncaught (OperationalError e)
  | Raise _ => Exit EXIT_CODE_FAIL
  end.

(** The command [init]. *)
Definition init (fs : Storage.files) : Storage.files * ending :=
  match Storage.initialize_schema fs Storage.default_db_path with
  | (fs', None) => (fs', Exit EXIT_CODE_PASS)
  | (fs', Some _) => (fs', Exit EXIT_CODE_FAIL)
  end.

End Cli.

(** ** sdk/openai_client.py *)

Module Sdk.

(** The fields of the response that [chat] reads. *)
Record CompletionUsage : Type := {
  prompt_tokens : Z;
  completion_tokens : Z;
  total_tokens : Z
}.

Record ChatCompletion : Type := {
  id : string;
  usage : option CompletionUsage
}.

(** An exception of the OpenAI client. *)
Inductive api_error : Type :=
| APIError (description : string).

(** [client.chat.completions.create(model=, messages=, temperature=,
    max_tokens=)]: what the service answers. *)
Definition OpenAI : Type :=
  string -> list (string * string) -> option Q -> option Z ->
  ChatCompletion + api_error.

Record GuardedOpenAI : Type := {
  model : string;
  feature : string;
  db_path : string;
  client : OpenAI
}.

(** What [chat] can raise. *)
Inductive chat_exn : Type :=
| Core (e : exn)
| Api (e : api_error)
| Db (e : Storage.db_exn).

Definition is_empty_string (s : string) : bool :=
  match s with
  | EmptyString => true
  | String _ _ => false
  end.

(** [GuardedOpenAI(model, feature, db_path)].  [strip] is [str.strip] and
    [new_client] is what [OpenAI()] gives. *)
Definition new_GuardedOpenAI (strip : string -> string)
    (new_client : OpenAI + api_error) (model feature : string)
    (db_path : option string) : GuardedOpenAI + chat_exn :=
  if is_empty_string model || is_empty_string (strip model) then
    inr (Core (ValueError [Lit "model is required and cannot be empty"]))
  else if is_empty_string feature || is_empty_string (strip feature) then
    inr (Core (ValueError [Lit "feature is required and cannot be empty"]))
  else
    match new_client with
    | inr e => inr (Api e)
    | inl client =>
        inl {| model := model; feature := feature;
               db_path := match Repository.truthy db_path with
                          | Some path => path
                          | None => ".ai-cost-guard.db"
                          end;
               client := client |}
    end.

(** [chat]: the files afterwards, and the response returned or the
    exception raised. *)
Definition chat (self : GuardedOpenAI) (now : Z)
    (messages : list (string * string)) (temperature : option Q)
    (max_tokens : option Z) (fs : Storage.files)
  : Storage.files * (ChatCompletion + chat_exn) :=
  match messages with
  | [] =>
      (fs, inr (Core (ValueError
                        [Lit "messages is required and cannot be empty"])))
  | _ :: _ =>
      match client self (model self) messages temperature max_tokens with
      | inr e => (fs, inr (Api e))
      | inl response =>
          match usage response with
          | None =>
              (fs, inr (Core (ValueError
                         [Lit "OpenAI response missing usage information"])))
          | Some usage =>
              let token_usage :=
                {| Pricing.prompt_tokens := prompt_tokens usage;
                   Pricing.completion_tokens := completion_tokens usage |} in
              match Pricing.calculate_cost (model self) token_usage with
              | Raise e => (fs, inr (Core e))
              | Ok estimated_cost =>
                  let event :=
                    {| Models.timestamp := now;
                       Models.feature := feature self;
                       Models.model := model self;
                       Models.prompt_tokens := prompt_tokens usage;
                       Models.completion_tokens := completion_tokens usage;
                       Models.total_tokens := Some (total_tokens usage);
                       Models.estimated_cost := Some estimated_cost;
                       Models.retry_count := Some 0;
                       Models.request_id := Some (id response) |} in
                  match Storage.insert_usage_event event fs (db_path self)
                  with
                  | (fs', None) => (fs', inl response)
                  | (fs', Some e) => (fs', inr (Db e))
                  end
              end
          end
      end
  end.

End Sdk.

(* ===================================================================== *)
(** * Part I, continued: the functions that compute with floats            *)
(* ===================================================================== *)

(** The modules above take a float for the rational it denotes, which is
    exact wherever floats are only compared.  The modules below embed the
    functions that do arithmetic on floats, and round as the code does. *)

From Stdlib Require Import Qabs.
Local Open Scope string_scope.
Local Open Scope Z_scope.
Local Open Scope list_scope.

(** ** Python floats: IEEE 754 binary64, round to nearest, ties to even *)

Module Binary64.

(** A Python float: a finite double, an infinity or a NaN.  A finite double
    is the rational it denotes; the sign of a zero is not kept (it shows
    only when a zero is printed or divided by). *)
Inductive float : Type :=
| Fin (q : Q)
| PosInf
| NegInf
| NaN.

(** What the arithmetic adds to the exceptions of [Py.exn]. *)
Inductive raised : Type :=
| Base (e : exn)          (* an exception of [Py.exn] *)
| OverflowError           (* int too large to convert to float *)
| InvalidOperation        (* decimal.InvalidOperation *)
| DecimalOverflow.        (* decimal.Overflow *)

Inductive outcome (A : Type) : Type :=
| Returns (a : A)
| Raises (e : raised).
Arguments Returns {A} a.
Arguments Raises {A} e.

(** Every finite double is a whole multiple of 2^-1074; the largest is
    below 2^1024, that is 2^2098 units. *)
Definition units : Z := 2 ^ 1074.

(** The nearest integer, ties to even. *)
Definition round_half_even (x : Q) : Z :=
  let f := Qfloor x in
  match (x - inject_Z f ?= 1 # 2)%Q with
  | Lt => f
  | Gt => f + 1
  | Eq => if Z.even f then f else f + 1
  end.

(** [x >= 0], a number of units, to the nearest integer of at most 53
    significant bits, ties to even. *)
Definition round_units (x : Q) : Z :=
  let s := Z.max 0 (Z.log2 (Qfloor x) - 52) in
  round_half_even (x / inject_Z (2 ^ s)) * 2 ^ s.

(** The double nearest to the real [q], ties to even, as a fraction in
    lowest terms; an infinity when that is past the largest double. *)
Definition round64 (q : Q) : float :=
  let k := round_units (Qabs q * inject_Z units) in
  if (2 ^ 2098 <=? k)%Z then (if Qle_bool 0 q then PosInf else NegInf)
  else Fin (Qred ((if Qle_bool 0 q then 1 else -1)
                  * (inject_Z k / inject_Z units))).

(** A float literal of the source, given as the decimal fraction written
    there: [literal (17 # 10)] is [1.7]. *)
Definition literal (q : Q) : float := round64 q.

(** [x * y] *)
Definition fmul (x y : float) : float :=
  match x, y with
  | NaN, _ | _, NaN => NaN
  | Fin a, Fin b => round64 (a * b)
  | Fin a, PosInf | PosInf, Fin a =>
      match (a ?= 0)%Q with Eq => NaN | Gt => PosInf | Lt => NegInf end
  | Fin a, NegInf | NegInf, Fin a =>
      match (a ?= 0)%Q with Eq => NaN | Gt => NegInf | Lt => PosInf end
  | PosInf, PosInf | NegInf, NegInf => PosInf
  | PosInf, NegInf | NegInf, PosInf => NegInf
  end.

(** [x + y] *)
Definition fadd (x y : float) : float :=
  match x, y with
  | NaN, _ | _, NaN => NaN
  | Fin a, Fin b => round64 (a + b)
  | PosInf, NegInf | NegInf, PosInf => NaN
  | PosInf, _ | _, PosInf => PosInf
  | NegInf, _ | _, NegInf => NegInf
  end.

Definition fneg (x : float) : float :=
  match x with
  | Fin a => Fin (- a)
  | PosInf => NegInf
  | NegInf => PosInf
  | NaN => NaN
  end.

(** [x - y] *)
Definition fsub (x y : float) : float := fadd x (fneg y).

(** [x / y] for a finite divisor that is not zero (Python raises
    [ZeroDivisionError] on a zero one; the code divides by [100.0] only). *)
Definition fdiv (x : float) (y : Q) : float :=
  match x with
  | Fin a => round64 (a / y)
  | PosInf => if Qle_bool 0 y then PosInf else NegInf
  | NegInf => if Qle_bool 0 y then NegInf else PosInf
  | NaN => NaN
  end.

(** [x > y]: false when either is a NaN. *)
Definition fgt (x y : float) : bool :=
  match x, y with
  | NaN, _ | _, NaN => false
  | Fin a, Fin b => Qgtb a b
  | PosInf, PosInf => false
  | PosInf, _ => true
  | _, PosInf => false
  | NegInf, _ => false
  | Fin _, NegInf => true
  end.

(** [x < y] *)
Definition flt (x y : float) : bool := fgt y x.

(** [z > y] for an int [z]: Python compares the two exactly, without
    converting the int. *)
Definition int_gt_float (z : Z) (y : float) : bool :=
  match y with
  | Fin b => Qgtb (inject_Z z) b
  | NegInf => true
  | PosInf | NaN => false
  end.

(** [float(z)], also where an int meets a float in arithmetic: the nearest
    double, an [OverflowError] past the largest one. *)
Definition float_of_int (z : Z) : outcome float :=
  match round64 (inject_Z z) with
  | Fin q => Returns (Fin q)
  | _ => Raises OverflowError
  end.

(** [int(x)]: towards zero. *)
Definition int_of_finite (q : Q) : Z :=
  if Qle_bool 0 q then Qfloor q else Qceiling q.

(** The rational a finite double denotes, 0 for the others: for writing
    down the doubles of an example. *)
Definition value (x : float) : Q :=
  match x with
  | Fin q => q
  | _ => 0
  end.

(** [q] is a double: rounding leaves it as it is. *)
Definition representable (q : Q) : Prop :=
  exists r, round64 q = Fin r /\ (r == q)%Q.

(** Two floats are the same number. *)
Definition same (x y : float) : Prop :=
  match x, y with
  | Fin a, Fin b => (a == b)%Q
  | PosInf, PosInf | NegInf, NegInf | NaN, NaN => True
  | _, _ => False
  end.

(** A hole of an f-string that formats a number. *)
Inductive number : Type :=
| Whole (z : Z)
| Real (x : float).

Inductive piece : Type :=
| Text (s : string)               (* literal text *)
| Fixed2 (x : number)             (* {x:.2f} *)
| Comma (x : number)              (* {x:,} *)
| CommaFixed0 (x : number)        (* {x:,.0f} *)
| Plain (x : number).             (* {x} *)

End Binary64.

(** ** core/anomaly.py, in double precision *)

Module AnomalyFloat.
Import Binary64.

(** [observed_value] and [baseline_value] hold what the rule read: a float
    for the cost rules, an int for the token rule. *)
Record AnomalyEvent : Type := {
  feature : string;
  model : string;
  rule : string;
  severity : Anomaly.AnomalySeverity;
  observed_value : number;
  baseline_value : number;
  threshold : float;
  message : list piece
}.

(** [detect_anomalies].  The costs of the baseline and of the event are
    finite floats.  [1.5], [1.7] and [1.3] are the doubles nearest to these
    fractions; an int that meets a float in a product is converted first,
    and compared with a float as it is. *)
Definition detect_anomalies (feature model : string)
    (baseline : BaselineResult) (current_event : LLMUsageEvent)
  : outcome (list AnomalyEvent) :=
  match state baseline with
  | COLD => Returns []
  | WARM =>
      match estimated_cost current_event with
      | None =>
          Raises (Base (ValueError
                          [Lit "Current event missing estimated_cost"]))
      | Some cost =>
      match total_tokens current_event with
      | None =>
          Raises (Base (ValueError
                          [Lit "Current event missing total_tokens"]))
      | Some tokens =>
      match retry_count current_event with
      | None =>
          Raises (Base (ValueError
                          [Lit "Current event missing retry_count"]))
      | Some retries =>
      match metrics baseline with
      | None => Raises (Base AttributeError)
      | Some m =>
          let cost := Fin cost in
          let p90_cost := Fin (p90_cost m) in
          let anomalies := [] in
          (* Rule A: Cost Spike (CRITICAL) *)
          let anomalies :=
            let threshold := fmul p90_cost (literal (15 # 10)) in
            if fgt cost threshold then
              anomalies ++
              [ {| feature := feature; model := model; rule := "A";
                   severity := Anomaly.CRITICAL;
                   observed_value := Real cost;
                   baseline_value := Real p90_cost;
                   threshold := threshold;
                   message :=
                     [Text "Cost spike detected: $"; Fixed2 (Real cost);
                      Text " (P90: $"; Fixed2 (Real p90_cost);
                      Text " * 1.5 = $"; Fixed2 (Real threshold);
                      Text ")"] |} ]
            else anomalies in
          (* Rule B: Token Explosion (WARNING) *)
          match float_of_int (median_tokens m) with
          | Raises e => Raises e
          | Returns median_tokens_as_float =>
          let anomalies :=
            let threshold :=
              fmul median_tokens_as_float (literal (17 # 10)) in
            if int_gt_float tokens threshold then
              anomalies ++
              [ {| feature := feature; model := model; rule := "B";
                   severity := Anomaly.WARNING;
                   observed_value := Whole tokens;
                   baseline_value := Whole (median_tokens m);
                   threshold := threshold;
                   message :=
                     [Text "High token usage: "; Comma (Whole tokens);
                      Text " (Median: "; Comma (Whole (median_tokens m));
                      Text " * 1.7 = "; CommaFixed0 (Real threshold);
                      Text ")"] |} ]
            else anomalies in
          (* Rule C: Retry Amplification (WARNING) *)
          if 1 <? retries then
            let threshold := fmul p90_cost (literal (13 # 10)) in
            match float_of_int retries with
            | Raises e => Raises e
            | Returns retries_as_float =>
                let total_cost := fmul cost retries_as_float in
                if fgt total_cost threshold then
                  Returns
                    (anomalies ++
                     [ {| feature := feature; model := model; rule := "C";
                          severity := Anomaly.WARNING;
                          observed_value := Real total_cost;
                          baseline_value := Real p90_cost;
                          threshold := threshold;
                          message :=
                            [Text "Retry amplification: $";
                             Fixed2 (Real total_cost);
                             Text " ($"; Fixed2 (Real cost); Text " * ";
                             Plain (Whole retries);
                             Text " retries) > $"; Fixed2 (Real threshold);
                             Text " (P90: $"; Fixed2 (Real p90_cost);
                             Text " * 1.3)"] |} ])
                else Returns anomalies
            end
          else Returns anomalies
          end
      end end end end
  end.

End AnomalyFloat.

(** ** core/baseline.py: [_compute_exact_percentile], in double precision *)

Module BaselineFloat.
Import Binary64.

(** [sorted_values[i]] for an index that is not negative. *)
Definition item (l : list Q) (i : Z) : outcome Q :=
  match nth_error l (Z.to_nat i) with
  | Some v => Returns v
  | None => Raises (Base IndexError)
  end.

(** [_compute_exact_percentile] on a list of finite floats. *)
Definition _compute_exact_percentile (values : list Q) (percentile : Z)
  : outcome float :=
  match values with
  | [] => Raises (Base (ValueError [Lit "Values list cannot be empty"]))
  | _ :: _ =>
      if (percentile <? 0) || (100 <? percentile) then
        Raises (Base (ValueError
                        [Lit "Percentile must be between 0 and 100"]))
      else
        let sorted_values := sorted Qle_bool values in
        let n := Z.of_nat (length sorted_values) in
        match float_of_int percentile with
        | Raises e => Raises e
        | Returns percentile_as_float =>
        match float_of_int (n - 1) with
        | Raises e => Raises e
        | Returns n_minus_1 =>
        match fmul (fdiv percentile_as_float 100) n_minus_1 with
        | Fin position =>
            let lower_index := int_of_finite position in
            let upper_index := Z.min (lower_index + 1) (n - 1) in
            match float_of_int lower_index with
            | Raises e => Raises e
            | Returns lower_index_as_float =>
                let fraction := fsub (Fin position) lower_index_as_float in
                match item sorted_values lower_index with
                | Raises e => Raises e
                | Returns lower_value =>
                match item sorted_values upper_index with
                | Raises e => Raises e
                | Returns upper_value =>
                    Returns
                      (fadd (Fin lower_value)
                         (fmul fraction
                            (fsub (Fin upper_value) (Fin lower_value))))
                end end
            end
        | PosInf | NegInf => Raises OverflowError
        | NaN => Raises (Base (ValueError [Lit "cannot convert float NaN to integer"]))
        end end end
  end.

End BaselineFloat.
(* ===================================================================== *)
(** * Part II: what the specification says, as definitions               *)
(* ===================================================================== *)

Module GuardrailSpec.
Import Guardrails.

(** The severity order ALLOW < WARN < DOWNGRADE < THROTTLE < BLOCK. *)
Definition severity_rank (a : EnforcementAction) : nat :=
  match a with
  | ALLOW => 0
  | Py.WARN => 1
  | DOWNGRADE => 2
  | THROTTLE => 3
  | BLOCK => 4
  end%nat.

Definition less_severe (a b : EnforcementAction) : Prop :=
  (severity_rank a < severity_rank b)%nat.

Definition at_most_as_severe (a b : EnforcementAction) : Prop :=
  (severity_rank a <= severity_rank b)%nat.

(** The per-request ceiling is breached: the limit is set and the cost of
    the current event is strictly above it. *)
Definition ceiling_breached (config : GuardrailConfig)
    (current_event : LLMUsageEvent) : Prop :=
  exists limit cost,
    max_cost_per_request config = Some limit /\
    estimated_cost current_event = Some cost /\
    (limit < cost)%Q.

(** Candidate of check 1. *)
Definition ceiling_candidate (feature model : string)
    (config : GuardrailConfig) (current_event : LLMUsageEvent)
  : list (EnforcementAction * message) :=
  match max_cost_per_request config, estimated_cost current_event with
  | Some limit, Some cost =>
      if Qgtb cost limit then
        [(BLOCK,
          [Lit "Request cost $"; Fixed 4 cost;
           Lit " exceeds maximum allowed $"; Fixed 4 limit;
           Lit " for "; Str feature; Lit "/"; Str model])]
      else []
  | _, _ => []
  end.

(** Candidate of check 2. *)
Definition budget_candidate (feature : string) (config : GuardrailConfig)
    (budget_state : BudgetState) : list (EnforcementAction * message) :=
  match budget_limit config with
  | Some limit =>
      if efloat_le0 (amount_remaining budget_state) then
        [(on_budget_breach config,
          [Lit "Budget limit of $"; Fixed 2 limit; Lit " reached for ";
           Str feature; Lit ". Current spend: $";
           Fixed 2 (amount_used budget_state)])]
      else []
  | None => []
  end.

(** Candidates of check 3: one per anomaly, only for a WARM baseline. *)
Definition anomaly_candidate (feature model : string)
    (config : GuardrailConfig) (anomaly : Anomaly.AnomalyEvent)
  : EnforcementAction * message :=
  match Anomaly.severity anomaly with
  | Anomaly.CRITICAL =>
      (on_critical_anomaly config,
       [Lit "Critical anomaly detected in "; Str feature; Lit "/";
        Str model; Lit ": "] ++ Anomaly.message anomaly)
  | Anomaly.WARNING =>
      (on_warning_anomaly config,
       [Lit "Warning anomaly in "; Str feature; Lit "/"; Str model;
        Lit ": "] ++ Anomaly.message anomaly)
  end.

Definition anomaly_candidates (feature model : string)
    (config : GuardrailConfig) (baseline : BaselineResult)
    (anomalies : list Anomaly.AnomalyEvent)
  : list (EnforcementAction * message) :=
  match state baseline with
  | WARM => map (anomaly_candidate feature model config) anomalies
  | COLD => []
  end.

(** All candidates, in evaluation order. *)
Definition candidates (feature model : string) (config : GuardrailConfig)
    (baseline : BaselineResult) (current_event : LLMUsageEvent)
    (anomalies : list Anomaly.AnomalyEvent) (budget_state : BudgetState)
  : list (EnforcementAction * message) :=
  ceiling_candidate feature model config current_event
  ++ budget_candidate feature config budget_state
  ++ anomaly_candidates feature model config baseline anomalies.

(** The action a call resolves to, whether it is returned or carried by the
    violation. *)
Definition resolved_action (r : result EnforcementAction)
  : option EnforcementAction :=
  match r with
  | Ok a => Some a
  | Raise (GuardrailViolation _ a) => Some a
  | Raise _ => None
  end.

(** [a] is the maximum of the candidate actions, ALLOW when there is none. *)
Definition is_most_severe (a : EnforcementAction)
    (cands : list (EnforcementAction * message)) : Prop :=
  (forall c, In c cands -> at_most_as_severe (fst c) a) /\
  (In a (map fst cands) \/ a = ALLOW).

(** [(a, msg)] is the earliest candidate among those of maximal severity;
    with no candidate above ALLOW it is ALLOW with the empty message. *)
Definition is_first_most_severe (a : EnforcementAction) (msg : message)
    (cands : list (EnforcementAction * message)) : Prop :=
  is_most_severe a cands /\
  ((a = ALLOW /\ msg = []) \/
   (a <> ALLOW /\
    exists before after,
      cands = before ++ (a, msg) :: after /\
      forall c, In c before -> less_severe (fst c) a)).

(** The pair [(action_taken, message)] is the earliest most severe of the
    candidates [seen] so far. *)
Definition tracks (st : EnforcementAction * message)
    (seen : list (EnforcementAction * message)) : Prop :=
  is_first_most_severe (fst st) (snd st) seen.

End GuardrailSpec.

Module AnomalySpec.

(** Rule [r] fired: the result holds an anomaly tagged [r]. *)
Definition fired (r : string) (l : list Anomaly.AnomalyEvent) : Prop :=
  exists a, In a l /\ Anomaly.rule a = r.




End AnomalySpec.

Module BaselineSpec.

(** The 0-indexed position of percentile [p] among [n] values:
    (p / 100) * (n - 1). *)
Definition position (n : nat) (p : Z) : Q :=
  (inject_Z p / 100 * inject_Z (Z.of_nat n - 1))%Q.

Definition at_index (s : list Q) (k : Z) : Q := nth (Z.to_nat k) s 0%Q.

(** Linear interpolation between the values at the floor and at the
    ceiling of the position. *)
Definition interpolate (s : list Q) (pos : Q) : Q :=
  let lower := at_index s (Qfloor pos) in
  let upper := at_index s (Qceiling pos) in
  (lower + (pos - inject_Z (Qfloor pos)) * (upper - lower))%Q.

Definition ascending (s : list Q) : Prop := StronglySorted Qle s.




(** The longest prefix whose elements all satisfy [f]. *)
Fixpoint take_while {A : Type} (f : A -> bool) (l : list A) : list A :=
  match l with
  | [] => []
  | x :: rest => if f x then x :: take_while f rest else []
  end.

(** Not older than 7 days before [now]. *)
Definition in_window (now : Z) (e : LLMUsageEvent) : bool :=
  now - timedelta_days 7 <=? timestamp e.

(** [l] lists events newest first. *)
Definition newest_first_order (l : list LLMUsageEvent) : Prop :=
  StronglySorted (fun a b => timestamp b <= timestamp a) l.

(** The sample of the specification: of the events taken newest first, those
    before the first one older than 7 days, and at most 200 of them. *)
Definition sample (now : Z) (newest_first_events : list LLMUsageEvent)
  : list LLMUsageEvent :=
  firstn 200 (take_while (in_window now) newest_first_events).

Definition lacks_cost (e : LLMUsageEvent) : Prop := estimated_cost e = None.

(** An event as the ledger holds it: cost and token count present and not
    negative. *)
Definition well_formed (e : LLMUsageEvent) : Prop :=
  (exists cost, estimated_cost e = Some cost /\ (0 <= cost)%Q) /\
  (exists tokens, total_tokens e = Some tokens /\ 0 <= tokens).

Definition state_of_size (n : nat) : BaselineState :=
  if (20 <=? n)%nat then WARM else COLD.

End BaselineSpec.

Module SimulationSpec.
Import Simulation.

(** What recording the outcome of one dry run of the enforcement gives: a
    returned action other than ALLOW, or the action and message of a raised
    violation, as one pair. *)
Definition dry_run_record (outcome : result EnforcementAction)
  : result (list (EnforcementAction * message)) :=
  match outcome with
  | Ok ALLOW => Ok []
  | Ok action => Ok [(action, [Lit "Simulated "; Str (lower_name action)])]
  | Raise (GuardrailViolation msg action) => Ok [(action, msg)]
  | Raise _ => Raise AttributeError
  end.

(** Enforcement is run for the group, in dry-run mode against the unlimited
    budget, and its outcome recorded. *)
Definition enforcement_is_run (feature model : string)
    (config : Guardrails.GuardrailConfig) (baseline : BaselineResult)
    (current_event : LLMUsageEvent) (anomalies : list Anomaly.AnomalyEvent)
  : Prop :=
  _simulate_enforcement feature model config baseline current_event anomalies
  = dry_run_record
      (Guardrails.enforce_guardrails feature model config baseline
         current_event anomalies dry_run_budget).

(** The call does not end in a guardrail violation. *)
Definition no_violation {A : Type} (r : result A) : Prop :=
  forall msg action, r <> Raise (GuardrailViolation msg action).

(** An event as the ledger holds it (all columns NOT NULL), with a cost and
    a token count that are not negative. *)
Definition stored_event (e : LLMUsageEvent) : Prop :=
  (exists cost, estimated_cost e = Some cost /\ (0 <= cost)%Q) /\
  (exists tokens, total_tokens e = Some tokens /\ 0 <= tokens) /\
  (exists retries, retry_count e = Some retries).

Definition stored_events (repository : Repository.UsageRepository) : Prop :=
  match repository with
  | Repository.Table rows => Forall stored_event rows
  | _ => True
  end.

End SimulationSpec.

Module PricingSpec.
Import Pricing.

(** tokens / 1000 * rate, for prompt and completion, in exact arithmetic. *)
Definition exact_cost (pricing : ModelPricing) (usage : TokenUsage) : Q :=
  (inject_Z (prompt_tokens usage) / 1000 * prompt_cost_per_1k pricing
   + inject_Z (completion_tokens usage) / 1000
     * completion_cost_per_1k pricing)%Q.


Definition in_table (model : string) (pricing : ModelPricing) : Prop :=
  In (model, pricing) PRICING_TABLE.

Definition not_in_table (model : string) : Prop :=
  ~ In model (map fst PRICING_TABLE).

End PricingSpec.

(** ** Concrete inputs used by the examples *)

Module Examples.

Definition event (ts : Z) (feature model : string) (tokens : Z) (cost : Q)
    (retries : Z) : LLMUsageEvent :=
  {| timestamp := ts; Models.feature := feature; Models.model := model;
     prompt_tokens := tokens / 2; completion_tokens := tokens / 2;
     total_tokens := Some tokens; estimated_cost := Some cost;
     retry_count := Some retries; request_id := None |}.

(** An event none of whose optional attributes is set. *)
Definition blank_event : LLMUsageEvent :=
  {| timestamp := 0; Models.feature := "f"; Models.model := "m";
     prompt_tokens := 0; completion_tokens := 0;
     total_tokens := None; estimated_cost := None;
     retry_count := None; request_id := None |}.

Definition baseline (st : BaselineState) (p90 : Q) (median_tokens : Z)
  : BaselineResult :=
  {| metrics := Some {| median_cost := 8; p90_cost := p90;
                        median_tokens := median_tokens;
                        sample_count := 100 |};
     state := st; window_start := 0; window_end := 10 |}.

Definition warning_anomaly : Anomaly.AnomalyEvent :=
  {| Anomaly.feature := "f"; Anomaly.model := "m"; Anomaly.rule := "B";
     Anomaly.severity := Anomaly.WARNING;
     Anomaly.observed_value := 100; Anomaly.baseline_value := 50;
     Anomaly.threshold := 85;
     Anomaly.message := [Lit "Warning token anomaly"] |}.

Definition critical_anomaly : Anomaly.AnomalyEvent :=
  {| Anomaly.feature := "f"; Anomaly.model := "m"; Anomaly.rule := "A";
     Anomaly.severity := Anomaly.CRITICAL;
     Anomaly.observed_value := 100; Anomaly.baseline_value := 10;
     Anomaly.threshold := 50;
     Anomaly.message := [Lit "Critical cost anomaly"] |}.

Definition budget (used remaining : Q) : Guardrails.BudgetState :=
  {| Guardrails.amount_used := used;
     Guardrails.amount_remaining := Finite remaining;
     Guardrails.budget_period_days := 30 |}.

(** [GuardrailConfig(max_cost_per_request=limit)] *)
Definition ceiling_config (limit : Q) : Guardrails.GuardrailConfig :=
  {| Guardrails.max_cost_per_request := Some limit;
     Guardrails.budget_limit := None;
     Guardrails.on_budget_breach := BLOCK;
     Guardrails.on_critical_anomaly := BLOCK;
     Guardrails.on_warning_anomaly := Py.WARN |}.

(** One hour in microseconds. *)
Definition hour : Z := 3600000000.

(** The events of [tests/test_baseline.py]: event [i] is [i] hours old,
    costs [i + 1] and uses [(i + 1) * 10] tokens. *)
Definition hourly_events (now : Z) (n : nat) : list LLMUsageEvent :=
  map (fun i => event (now - Z.of_nat i * hour) "test_feature" "test_model"
                  ((Z.of_nat i + 1) * 10) (inject_Z (Z.of_nat i + 1)) 0)
      (seq 0 n).

(** A current time. *)
Definition noon : Z := 1700000000000000.

(** Two kinds of events recorded at the same instant. *)
Definition cheap : LLMUsageEvent := event noon "f" "m" 100 1 0.
Definition dear : LLMUsageEvent := event noon "f" "m" 100 2 0.

(** The same 201 events in two orders. *)
Definition tied_cheap_first : list LLMUsageEvent :=
  repeat cheap 100 ++ repeat dear 101.
Definition tied_dear_first : list LLMUsageEvent :=
  repeat dear 101 ++ repeat cheap 100.

(** A ledger of three calls of one feature, the last one the dearest. *)
Definition first_call : LLMUsageEvent :=
  event (noon - 3 * hour) "summary" "gpt-4" 100 1 0.
Definition second_call : LLMUsageEvent :=
  event (noon - 2 * hour) "summary" "gpt-4" 100 1 0.
Definition third_call : LLMUsageEvent :=
  event (noon - 1 * hour) "summary" "gpt-4" 100 3 0.

Definition ledger : Repository.UsageRepository :=
  Repository.Table [first_call; second_call; third_call].

(** A ledger with a single call above the ceiling of [ceiling_config 2]. *)
Definition single_call : LLMUsageEvent :=
  event (noon - 1 * hour) "summary" "gpt-4" 100 3 0.

End Examples.

(** ** Notions used by the further properties *)

Module MoreSpec.
Import Simulation.

(** A recorded violation that blocks: BLOCK or THROTTLE. *)
Definition blocking (v : EnforcementAction * message) : Prop :=
  fst v = BLOCK \/ fst v = THROTTLE.

(** A recorded violation that warns. *)
Definition warning (v : EnforcementAction * message) : Prop :=
  fst v = Py.WARN.

(** Some group of [results] recorded a violation satisfying [P]. *)
Definition some_violation (P : EnforcementAction * message -> Prop)
    (results : list FeatureSimulationResult) : Prop :=
  exists fr v, In fr results /\ In v (violations fr) /\ P v.

(** The grouping key of an event. *)
Definition key_of (e : LLMUsageEvent) : string * string :=
  (Models.feature e, Models.model e).

(** The cost an event carries, 0 when it carries none. *)
Definition cost_of (e : LLMUsageEvent) : Q :=
  match estimated_cost e with
  | Some c => c
  | None => 0%Q
  end.

(** What a call of [get_recent_events] asks of a row: the feature and the
    model given (an empty string asks nothing), and a timestamp not older
    than [days] days before [now]. *)
Definition wanted (now : Z) (feature model : option string)
    (days : option Z) (e : LLMUsageEvent) : Prop :=
  (forall f, feature = Some f -> f <> EmptyString -> Models.feature e = f) /\
  (forall m, model = Some m -> m <> EmptyString -> Models.model e = m) /\
  (forall d, days = Some d -> now - timedelta_days d <= timestamp e).

(** The (feature, model) pair a result is reported for. *)
Definition pair_of (fr : FeatureSimulationResult) : string * string :=
  (feature fr, model fr).

(** The events the harness fetches: those of the last 30 days, none when
    the ledger cannot be read. *)
Definition fetched (now : Z) (feature : option string)
    (repository : Repository.UsageRepository) : list LLMUsageEvent :=
  match Repository.get_recent_events repository now feature None (Some 30)
          1000 with
  | Ok events => events
  | Raise _ => []
  end.

(** An event the ledger accepts: its integers fit and none of the NOT NULL
    columns is left out. *)
Definition storable (e : LLMUsageEvent) : Prop :=
  Storage.binds e = true /\ Storage.not_null e = true.

(** The files after the events were inserted one call of
    [insert_usage_event] at a time, whatever each call raised. *)
Definition one_by_one (events : list LLMUsageEvent) (fs : Storage.files)
    (db_path : string) : Storage.files :=
  fold_left (fun fs e => fst (Storage.insert_usage_event e fs db_path))
    events fs.

(** The rows of the ledger at [db_path], none when it has no table. *)
Definition rows_at (fs : Storage.files) (db_path : string)
  : list LLMUsageEvent :=
  match fs db_path with
  | Repository.Table rows => rows
  | _ => []
  end.


(** The event [chat] records for a response and its usage. *)
Definition recorded_event (self : Sdk.GuardedOpenAI) (now : Z)
    (response : Sdk.ChatCompletion) (usage : Sdk.CompletionUsage)
    (cost : Q) : LLMUsageEvent :=
  {| Models.timestamp := now;
     Models.feature := Sdk.feature self;
     Models.model := Sdk.model self;
     Models.prompt_tokens := Sdk.prompt_tokens usage;
     Models.completion_tokens := Sdk.completion_tokens usage;
     Models.total_tokens := Some (Sdk.total_tokens usage);
     Models.estimated_cost := Some cost;
     Models.retry_count := Some 0;
     Models.request_id := Some (Sdk.id response) |}.

(** The token counts of a usage fit SQLite integers. *)
Definition usage_fits (usage : Sdk.CompletionUsage) : Prop :=
  Storage.sqlite_integer (Sdk.prompt_tokens usage) = true /\
  Storage.sqlite_integer (Sdk.completion_tokens usage) = true /\
  Storage.sqlite_integer (Sdk.total_tokens usage) = true.

End MoreSpec.

(** ** The claims about the computing functions, in double precision *)

Module AnomalyFloatSpec.
Import Binary64 AnomalyFloat.

(** Rule [r] fired: the result holds an anomaly tagged [r]. *)
Definition fired (r : string) (l : list AnomalyEvent) : Prop :=
  exists a, In a l /\ rule a = r.

(** The thresholds as doubles: each product rounded to the nearest
    double. *)
Definition threshold_A (m : BaselineMetrics) : float :=
  fmul (Fin (p90_cost m)) (literal (15 # 10)).

Definition threshold_B (median_tokens : float) : float :=
  fmul median_tokens (literal (17 # 10)).

Definition threshold_C (m : BaselineMetrics) : float :=
  fmul (Fin (p90_cost m)) (literal (13 # 10)).

(** The double written [q] in decimal, as the rational it denotes. *)
Definition double (q : Q) : Q := value (literal q).

(** A WARM baseline with the given p90 cost and median token count. *)
Definition warm_baseline (p90 : Q) (median_tokens : Z) : BaselineResult :=
  {| metrics := Some {| median_cost := p90; p90_cost := p90;
                        median_tokens := median_tokens;
                        sample_count := 100 |};
     state := WARM; window_start := 0; window_end := 10 |}.

(** An event with the given cost, token count and retry count. *)
Definition event_of (cost : Q) (tokens retries : Z) : LLMUsageEvent :=
  {| timestamp := 0; Models.feature := "f"; Models.model := "m";
     prompt_tokens := tokens; completion_tokens := 0;
     total_tokens := Some tokens; estimated_cost := Some cost;
     retry_count := Some retries; request_id := None |}.

End AnomalyFloatSpec.

(* ===================================================================== *)
(** * Part III: theorems                                                  *)
(* ===================================================================== *)

(** ** Facts about the runtime pieces *)

Lemma Qgtb_true_iff (q r : Q) : Qgtb q r = true <-> (r < q)%Q.
Proof.
  unfold Qgtb. rewrite negb_true_iff.
  split; intro H.
  - apply Qnot_le_lt. intro Hle.
    apply Qle_bool_iff in Hle. congruence.
  - destruct (Qle_bool q r) eqn:E; [|reflexivity].
    apply Qle_bool_iff in E. exfalso. exact (Qlt_not_le _ _ H E).
Qed.

Lemma Qgtb_false_iff (q r : Q) : Qgtb q r = false <-> (q <= r)%Q.
Proof.
  unfold Qgtb. rewrite negb_false_iff. apply Qle_bool_iff.
Qed.

Lemma Qltb_true_iff (q r : Q) : Qltb q r = true <-> (q < r)%Q.
Proof. exact (Qgtb_true_iff r q). Qed.

Lemma Qltb_false_iff (q r : Q) : Qltb q r = false <-> (r <= q)%Q.
Proof. exact (Qgtb_false_iff r q). Qed.

Lemma Qle_bool_total (x y : Q) : Qle_bool x y = true \/ Qle_bool y x = true.
Proof.
  destruct (Qlt_le_dec y x) as [H | H].
  - right. apply Qle_bool_iff. now apply Qlt_le_weak.
  - left. now apply Qle_bool_iff.
Qed.

Lemma Qle_bool_trans (x y z : Q) :
  Qle_bool x y = true -> Qle_bool y z = true -> Qle_bool x z = true.
Proof.
  rewrite !Qle_bool_iff. apply Qle_trans.
Qed.

(** *** [sorted] *)

Section SortedFacts.
Context {A : Type} (leb : A -> A -> bool).

Lemma insert_sorted_perm (x : A) (l : list A) :
  Permutation (insert_sorted leb x l) (x :: l).
Proof.
  induction l as [|y l IH]; simpl.
  - reflexivity.
  - destruct (leb x y).
    + reflexivity.
    + rewrite IH. apply perm_swap.
Qed.

Lemma sorted_perm (l : list A) : Permutation (sorted leb l) l.
Proof.
  induction l as [|x l IH]; simpl.
  - reflexivity.
  - rewrite insert_sorted_perm. now constructor.
Qed.

Lemma sorted_length (l : list A) : length (sorted leb l) = length l.
Proof. apply Permutation_length, sorted_perm. Qed.

Lemma sorted_In (x : A) (l : list A) : In x (sorted leb l) <-> In x l.
Proof.
  split; apply Permutation_in; [|symmetry]; apply sorted_perm.
Qed.

Hypothesis leb_total : forall x y, leb x y = true \/ leb y x = true.
Hypothesis leb_trans :
  forall x y z, leb x y = true -> leb y z = true -> leb x z = true.

Lemma insert_sorted_ordered (x : A) (l : list A) :
  StronglySorted (fun a b => leb a b = true) l ->
  StronglySorted (fun a b => leb a b = true) (insert_sorted leb x l).
Proof.
  induction 1 as [|y l Hl IH Hy]; simpl.
  - repeat constructor.
  - destruct (leb x y) eqn:E.
    + constructor; [now constructor|].
      constructor; [exact E|].
      eapply Forall_impl; [|exact Hy].
      intros z Hz. exact (leb_trans _ _ _ E Hz).
    + constructor; [exact IH|].
      assert (Hyx : leb y x = true)
        by (destruct (leb_total x y); congruence).
      rewrite Forall_forall in *.
      intros z Hz. apply (Permutation_in _ (insert_sorted_perm x l)) in Hz.
      destruct Hz as [<- | Hz]; auto.
Qed.

Lemma sorted_ordered (l : list A) :
  StronglySorted (fun a b => leb a b = true) (sorted leb l).
Proof.
  induction l as [|x l IH]; simpl.
  - constructor.
  - now apply insert_sorted_ordered.
Qed.

End SortedFacts.

(** In a strongly sorted list, positions are ordered like their elements. *)
Lemma StronglySorted_nth {A : Type} (R : A -> A -> Prop) (d : A)
    (l : list A) :
  StronglySorted R l ->
  forall i j, (i < j < length l)%nat -> R (nth i l d) (nth j l d).
Proof.
  induction 1 as [|x l Hl IH Hx]; intros i j Hij; simpl in Hij.
  - lia.
  - destruct j as [|j]; [lia|].
    destruct i as [|i]; simpl.
    + rewrite Forall_forall in Hx. apply Hx, nth_In. lia.
    + apply IH. lia.
Qed.

(** *** [getitem] *)

Lemma getitem_in_range {A : Type} (l : list A) (i : Z) (d : A) :
  0 <= i < Z.of_nat (length l) ->
  getitem l i = Ok (nth (Z.to_nat i) l d).
Proof.
  intros Hi. unfold getitem.
  destruct (Z.ltb_spec i 0); [lia|].
  destruct (Z.ltb_spec i 0); [lia|].
  destruct (Z.leb_spec (Z.of_nat (length l)) i); [lia|]. simpl.
  destruct (nth_error l (Z.to_nat i)) eqn:E.
  - now rewrite (nth_error_nth _ _ d E).
  - apply nth_error_None in E. lia.
Qed.

Lemma getitem_last {A : Type} (l : list A) (d : A) :
  l <> [] -> getitem l (-1) = Ok (last l d).
Proof.
  intros Hl.
  destruct (exists_last Hl) as (l' & a' & ->).
  rewrite last_last.
  unfold getitem. cbv zeta. change (-1 <? 0) with true. cbv iota.
  rewrite length_app. simpl length.
  destruct (Z.ltb_spec (Z.of_nat (length l' + 1) + -1) 0); [lia|].
  destruct (Z.leb_spec (Z.of_nat (length l' + 1))
              (Z.of_nat (length l' + 1) + -1)); [lia|].
  simpl orb. cbv iota.
  replace (Z.to_nat (Z.of_nat (length l' + 1) + -1)) with (length l')
    by lia.
  now rewrite nth_error_app2, Nat.sub_diag by lia.
Qed.

(** ** Guardrail enforcement *)

Section GuardrailFacts.
Import Guardrails GuardrailSpec.

Lemma value_rank (a : EnforcementAction) :
  value a = Z.of_nat (severity_rank a) + 1.
Proof. destruct a; reflexivity. Qed.

(** The update rule of the code, as a choice between the best candidate so
    far and the next one. *)
Lemma update_action_cases (st : EnforcementAction * message)
    (a : EnforcementAction) (m : message) :
  (less_severe (fst st) a /\ _update_action st a m = (a, m)) \/
  (at_most_as_severe a (fst st) /\ _update_action st a m = st).
Proof.
  unfold _update_action, less_severe, at_most_as_severe.
  rewrite !value_rank.
  destruct (Z.ltb_spec (Z.of_nat (severity_rank (fst st)) + 1)
                       (Z.of_nat (severity_rank a) + 1)).
  - left. split; [lia | reflexivity].
  - right. split; [lia | reflexivity].
Qed.

Lemma tracks_nil : tracks (ALLOW, []) [].
Proof.
  repeat split.
  - intros c [].
  - now right.
  - now left.
Qed.

Lemma tracks_update (st : EnforcementAction * message)
    (seen : list (EnforcementAction * message))
    (a : EnforcementAction) (m : message) :
  tracks st seen -> tracks (_update_action st a m) (seen ++ [(a, m)]).
Proof.
  intros [[Hmax Hin] Hfirst].
  destruct (update_action_cases st a m) as [[Hlt ->] | [Hle ->]].
  - (* the new candidate is strictly more severe *)
    repeat split; simpl.
    + intros c Hc. apply in_app_or in Hc as [Hc | [<- | []]].
      * specialize (Hmax c Hc).
        unfold at_most_as_severe, less_severe in *. lia.
      * unfold at_most_as_severe. simpl. lia.
    + left. rewrite map_app. apply in_or_app. right. now left.
    + right. split.
      * intros ->. unfold less_severe in Hlt. simpl in Hlt. lia.
      * exists seen, []. split; [reflexivity|].
        intros c Hc. specialize (Hmax c Hc).
        unfold at_most_as_severe, less_severe in *. lia.
  - (* the state is kept *)
    repeat split.
    + intros c Hc. apply in_app_or in Hc as [Hc | [<- | []]].
      * now apply Hmax.
      * exact Hle.
    + destruct Hin as [Hin | Hin]; [left | now right].
      rewrite map_app. apply in_or_app. now left.
    + destruct Hfirst as [Hallow | (Hne & before & after & -> & Hbefore)].
      * now left.
      * right. split; [exact Hne|].
        exists before, (after ++ [(a, m)]).
        split; [|exact Hbefore].
        now rewrite <- app_assoc.
Qed.

Lemma tracks_anomalies (feature model : string) (config : GuardrailConfig)
    (anomalies : list Anomaly.AnomalyEvent) :
  forall st seen,
    tracks st seen ->
    tracks (fold_left (anomaly_step feature model config) anomalies st)
           (seen ++ map (anomaly_candidate feature model config) anomalies).
Proof.
  induction anomalies as [|an rest IH]; intros st seen Hst; simpl.
  - now rewrite app_nil_r.
  - replace (seen ++ anomaly_candidate feature model config an
                  :: map (anomaly_candidate feature model config) rest)
      with ((seen ++ [anomaly_candidate feature model config an])
              ++ map (anomaly_candidate feature model config) rest)
      by (now rewrite <- app_assoc).
    apply IH.
    unfold anomaly_step, anomaly_candidate.
    destruct (Anomaly.severity an); now apply tracks_update.
Qed.

(** With a cost on the current event, the three checks end in the earliest
    most severe candidate. *)
Lemma run_checks_tracks (feature model : string) (config : GuardrailConfig)
    (baseline : BaselineResult) (current_event : LLMUsageEvent)
    (anomalies : list Anomaly.AnomalyEvent) (budget_state : BudgetState)
    (cost : Q) :
  estimated_cost current_event = Some cost ->
  exists st,
    run_checks feature model config baseline current_event anomalies
      budget_state = Ok st /\
    tracks st (candidates feature model config baseline current_event
                 anomalies budget_state).
Proof.
  intros Hcost.
  unfold run_checks, candidates, ceiling_candidate, budget_candidate,
    anomaly_candidates.
  rewrite Hcost.
  pose proof tracks_nil as H0.
  destruct (max_cost_per_request config) as [limit|];
    [destruct (Qgtb cost limit); [eapply tracks_update in H0|]|];
    (eexists; split; [reflexivity|]);
    (destruct (budget_limit config) as [bl|];
     [destruct (efloat_le0 (amount_remaining budget_state));
      [eapply tracks_update in H0|]|]);
    (destruct (state baseline);
     [exact H0 | eapply tracks_anomalies in H0; exact H0]).
Qed.

End GuardrailFacts.

Section GuardrailClaims.
Import Guardrails GuardrailSpec.

(** C1. For every config, baseline, current event (carrying a cost, as its
    type says), anomaly list and budget state, the action [enforce_guardrails]
    resolves to, returned or carried by the violation, is the maximum under
    ALLOW < WARN < DOWNGRADE < THROTTLE < BLOCK of the candidate actions of
    the three checks, and ALLOW when none fired.  When the cost is strictly
    above a configured [max_cost_per_request], the ceiling check contributes
    BLOCK whatever the configured actions are, and the call resolves to
    BLOCK, also next to an anomaly configured to WARN. *)
Theorem enforce_guardrails_resolves_most_severe
    (feature model : string) (config : GuardrailConfig)
    (baseline : BaselineResult) (current_event : LLMUsageEvent)
    (anomalies : list Anomaly.AnomalyEvent) (budget_state : BudgetState)
    (cost : Q) :
  estimated_cost current_event = Some cost ->
  exists a,
    resolved_action
      (enforce_guardrails feature model config baseline current_event
         anomalies budget_state) = Some a /\
    is_most_severe a
      (candidates feature model config baseline current_event anomalies
         budget_state) /\
    (candidates feature model config baseline current_event anomalies
       budget_state = [] -> a = ALLOW) /\
    (ceiling_breached config current_event ->
     In BLOCK
       (map fst (ceiling_candidate feature model config current_event)) /\
     a = BLOCK).
Proof.
  intros Hcost.
  destruct (run_checks_tracks feature model config baseline current_event
              anomalies budget_state cost Hcost)
    as ([a m] & Hrun & [[Hmax Hin] _]).
  simpl in Hmax, Hin.
  exists a. repeat split.
  - unfold enforce_guardrails. rewrite Hrun. simpl.
    destruct a; reflexivity.
  - exact Hmax.
  - exact Hin.
  - intros Hnil. rewrite Hnil in Hin. destruct Hin as [[] | ->]. reflexivity.
  - destruct H as (limit & cost' & Hlimit & Hcost' & Hlt).
    unfold ceiling_candidate. rewrite Hlimit, Hcost'.
    apply Qgtb_true_iff in Hlt. rewrite Hlt. now left.
  - destruct H as (limit & cost' & Hlimit & Hcost' & Hlt).
    assert (Hblock : at_most_as_severe BLOCK a).
    { apply (Hmax (BLOCK,
                   [Lit "Request cost $"; Fixed 4 cost';
                    Lit " exceeds maximum allowed $"; Fixed 4 limit;
                    Lit " for "; Str feature; Lit "/"; Str model])).
      unfold candidates, ceiling_candidate. rewrite Hlimit, Hcost'.
      apply Qgtb_true_iff in Hlt. rewrite Hlt. now left. }
    unfold at_most_as_severe in Hblock.
    destruct a; simpl in Hblock; solve [reflexivity | lia].
Qed.

(** The scenario of the precedence property: limit 1.0, cost 2.0, and a
    warning anomaly under [on_warning_anomaly = WARN]. *)
Lemma enforce_guardrails_resolves_most_severe_witness :
  exists a,
    resolved_action
      (enforce_guardrails "f" "m" (Examples.ceiling_config 1)
         (Examples.baseline WARM (2 # 10) 1000)
         (Examples.event 0 "f" "m" 100 2 1)
         [Examples.warning_anomaly] (Examples.budget 0 100)) = Some a /\
    is_most_severe a
      (candidates "f" "m" (Examples.ceiling_config 1)
         (Examples.baseline WARM (2 # 10) 1000)
         (Examples.event 0 "f" "m" 100 2 1)
         [Examples.warning_anomaly] (Examples.budget 0 100)) /\
    (candidates "f" "m" (Examples.ceiling_config 1)
         (Examples.baseline WARM (2 # 10) 1000)
         (Examples.event 0 "f" "m" 100 2 1)
         [Examples.warning_anomaly] (Examples.budget 0 100) = [] ->
     a = ALLOW) /\
    (ceiling_breached (Examples.ceiling_config 1)
       (Examples.event 0 "f" "m" 100 2 1) ->
     In BLOCK
       (map fst (ceiling_candidate "f" "m" (Examples.ceiling_config 1)
                   (Examples.event 0 "f" "m" 100 2 1))) /\
     a = BLOCK).
Proof.
  exact (enforce_guardrails_resolves_most_severe "f" "m"
           (Examples.ceiling_config 1) (Examples.baseline WARM (2 # 10) 1000)
           (Examples.event 0 "f" "m" 100 2 1)
           [Examples.warning_anomaly] (Examples.budget 0 100) 2 eq_refl).
Defined.

(** C7. [enforce_guardrails] raises a [GuardrailViolation] carrying the
    resolved action and the message of the check that produced it exactly
    when the resolved action is BLOCK or THROTTLE; when it is ALLOW, WARN or
    DOWNGRADE the action is returned as a value.  The resolved action and
    message are those of the earliest most severe candidate. *)
Theorem enforce_guardrails_raises_iff_blocking
    (feature model : string) (config : GuardrailConfig)
    (baseline : BaselineResult) (current_event : LLMUsageEvent)
    (anomalies : list Anomaly.AnomalyEvent) (budget_state : BudgetState)
    (cost : Q) :
  estimated_cost current_event = Some cost ->
  exists a msg,
    is_first_most_severe a msg
      (candidates feature model config baseline current_event anomalies
         budget_state) /\
    ((a = BLOCK \/ a = THROTTLE) ->
     enforce_guardrails feature model config baseline current_event
       anomalies budget_state = Raise (GuardrailViolation msg a)) /\
    ((a = ALLOW \/ a = Py.WARN \/ a = DOWNGRADE) ->
     enforce_guardrails feature model config baseline current_event
       anomalies budget_state = Ok a) /\
    ((exists e,
        enforce_guardrails feature model config baseline current_event
          anomalies budget_state = Raise e) <->
     (a = BLOCK \/ a = THROTTLE)).
Proof.
  intros Hcost.
  destruct (run_checks_tracks feature model config baseline current_event
              anomalies budget_state cost Hcost)
    as ([a m] & Hrun & Htracks).
  exists a, m. split; [exact Htracks|].
  unfold enforce_guardrails. rewrite Hrun. simpl.
  repeat split.
  - intros [-> | ->]; reflexivity.
  - intros [-> | [-> | ->]]; reflexivity.
  - intros [e He]. destruct a; try discriminate He; auto.
  - intros [-> | ->]; eexists; reflexivity.
Qed.

(** Budget breach configured to THROTTLE with nothing remaining. *)
Lemma enforce_guardrails_raises_iff_blocking_witness :
  exists a msg,
    is_first_most_severe a msg
      (candidates "f" "m"
         {| max_cost_per_request := None; budget_limit := Some 100%Q;
            on_budget_breach := THROTTLE; on_critical_anomaly := BLOCK;
            on_warning_anomaly := Py.WARN |}
         (Examples.baseline WARM (2 # 10) 1000)
         (Examples.event 0 "f" "m" 100 (1 # 10) 1) []
         (Examples.budget 100 0)) /\
    ((a = BLOCK \/ a = THROTTLE) ->
     enforce_guardrails "f" "m"
         {| max_cost_per_request := None; budget_limit := Some 100%Q;
            on_budget_breach := THROTTLE; on_critical_anomaly := BLOCK;
            on_warning_anomaly := Py.WARN |}
         (Examples.baseline WARM (2 # 10) 1000)
         (Examples.event 0 "f" "m" 100 (1 # 10) 1) []
         (Examples.budget 100 0) = Raise (GuardrailViolation msg a)) /\
    ((a = ALLOW \/ a = Py.WARN \/ a = DOWNGRADE) ->
     enforce_guardrails "f" "m"
         {| max_cost_per_request := None; budget_limit := Some 100%Q;
            on_budget_breach := THROTTLE; on_critical_anomaly := BLOCK;
            on_warning_anomaly := Py.WARN |}
         (Examples.baseline WARM (2 # 10) 1000)
         (Examples.event 0 "f" "m" 100 (1 # 10) 1) []
         (Examples.budget 100 0) = Ok a) /\
    ((exists e,
        enforce_guardrails "f" "m"
         {| max_cost_per_request := None; budget_limit := Some 100%Q;
            on_budget_breach := THROTTLE; on_critical_anomaly := BLOCK;
            on_warning_anomaly := Py.WARN |}
         (Examples.baseline WARM (2 # 10) 1000)
         (Examples.event 0 "f" "m" 100 (1 # 10) 1) []
         (Examples.budget 100 0) = Raise e) <->
     (a = BLOCK \/ a = THROTTLE)).
Proof.
  exact (enforce_guardrails_raises_iff_blocking "f" "m"
         {| max_cost_per_request := None; budget_limit := Some 100%Q;
            on_budget_breach := THROTTLE; on_critical_anomaly := BLOCK;
            on_warning_anomaly := Py.WARN |}
         (Examples.baseline WARM (2 # 10) 1000)
         (Examples.event 0 "f" "m" 100 (1 # 10) 1) []
         (Examples.budget 100 0) (1 # 10) eq_refl).
Defined.

(** The runs of [tests/test_guardrails.py]. *)
Example max_cost_per_request_block :
  enforce_guardrails "test_feature" "test_model" (Examples.ceiling_config 1)
    (Examples.baseline WARM (2 # 10) 1000)
    (Examples.event 0 "test_feature" "test_model" 100 2 1) []
    (Examples.budget 0 100)
  = Raise (GuardrailViolation
             [Lit "Request cost $"; Fixed 4 2;
              Lit " exceeds maximum allowed $"; Fixed 4 1;
              Lit " for "; Str "test_feature"; Lit "/"; Str "test_model"]
             BLOCK).
Proof. reflexivity. Qed.

Example warning_anomaly_no_enforcement :
  enforce_guardrails "test_feature" "test_model" default_GuardrailConfig
    (Examples.baseline WARM (2 # 10) 1000)
    (Examples.event 0 "test_feature" "test_model" 100 (1 # 10) 1)
    [Examples.warning_anomaly] (Examples.budget 0 100)
  = Ok Py.WARN.
Proof. reflexivity. Qed.

Example cold_baseline_suppresses_anomaly_enforcement :
  enforce_guardrails "test_feature" "test_model" default_GuardrailConfig
    (Examples.baseline COLD (2 # 10) 1000)
    (Examples.event 0 "test_feature" "test_model" 100 (1 # 10) 1)
    [Examples.critical_anomaly] (Examples.budget 0 100)
  = Ok ALLOW.
Proof. reflexivity. Qed.

End GuardrailClaims.

(** ** Anomaly detection *)

Section AnomalyClaims.
Import Anomaly AnomalySpec.






(** C6. With a COLD baseline [detect_anomalies] returns the empty list for
    every current event, whatever its cost, tokens and retries, also when
    these attributes are missing: nothing about the event is validated. *)
Theorem detect_anomalies_cold_returns_empty
    (feature model : string) (baseline : BaselineResult)
    (current_event : LLMUsageEvent) :
  state baseline = COLD ->
  detect_anomalies feature model baseline current_event = Ok [].
Proof.
  intros Hcold. unfold detect_anomalies. now rewrite Hcold.
Qed.

(** An event without cost, tokens and retry count, and a COLD baseline
    without metrics. *)
Lemma detect_anomalies_cold_returns_empty_witness :
  detect_anomalies "f" "m"
    {| metrics := None; state := COLD; window_start := 0; window_end := 0 |}
    Examples.blank_event = Ok [].
Proof.
  exact (detect_anomalies_cold_returns_empty "f" "m"
           {| metrics := None; state := COLD; window_start := 0;
              window_end := 0 |}
           Examples.blank_event eq_refl).
Defined.

(** The same event is rejected as soon as the baseline is WARM. *)
Example detect_anomalies_warm_validates :
  detect_anomalies "f" "m" (Examples.baseline WARM 10 1000)
    Examples.blank_event
  = Raise (ValueError [Lit "Current event missing estimated_cost"]).
Proof. reflexivity. Qed.

(** The extreme event of [test_cold_baseline_produces_no_anomalies]. *)
Example cold_baseline_produces_no_anomalies :
  detect_anomalies "test_feature" "test_model"
    (Examples.baseline COLD 15 1000)
    (Examples.event 0 "test_feature" "test_model" 2000 100 3) = Ok [].
Proof. reflexivity. Qed.

(** Scenario: p90_cost 10.0, cost 16.0 fires rule A with threshold 15.0;
    cost 15.0 does not. *)
Example rule_a_cost_spike :
  option_map (map (fun a => (rule a, severity a, observed_value a,
                             threshold a)))
    (match detect_anomalies "f" "m" (Examples.baseline WARM 10 1000)
             (Examples.event 0 "f" "m" 1000 16 0) with
     | Ok l => Some l
     | Raise _ => None
     end)
  = Some [("A", CRITICAL, 16%Q, (10 * (15 # 10))%Q)].
Proof. reflexivity. Qed.

Example rule_a_no_trigger_at_threshold :
  detect_anomalies "f" "m" (Examples.baseline WARM 10 1000)
    (Examples.event 0 "f" "m" 1000 15 0) = Ok [].
Proof. reflexivity. Qed.

(** Scenario: median_tokens 1000, tokens 1800 fires rule B; 1700 does not. *)
Example rule_b_token_explosion :
  option_map (map (fun a => (rule a, severity a)))
    (match detect_anomalies "f" "m" (Examples.baseline WARM 10 1000)
             (Examples.event 0 "f" "m" 1800 10 0) with
     | Ok l => Some l
     | Raise _ => None
     end)
  = Some [("B", WARNING)].
Proof. reflexivity. Qed.

Example rule_b_no_trigger_at_threshold :
  detect_anomalies "f" "m" (Examples.baseline WARM 10 1000)
    (Examples.event 0 "f" "m" 1700 10 0) = Ok [].
Proof. reflexivity. Qed.

End AnomalyClaims.

(** ** Percentiles *)

Section PercentileFacts.
Import BaselineSpec.

Lemma interpolation_lower (f a b : Q) :
  (0 <= f)%Q -> (a <= b)%Q -> (a <= a + f * (b - a))%Q.
Proof. intros. nra. Qed.

Lemma interpolation_upper (f a b : Q) :
  (f <= 1)%Q -> (a <= b)%Q -> (a + f * (b - a) <= b)%Q.
Proof. intros. nra. Qed.

Lemma interpolation_at_zero (f a b : Q) :
  (f == 0)%Q -> (a + f * (b - a) == a)%Q.
Proof. intros. nra. Qed.

Lemma Qceiling_floor_succ (x : Q) :
  ~ (x == inject_Z (Qfloor x))%Q -> Qceiling x = Qfloor x + 1.
Proof.
  intros Hx.
  pose proof (Qfloor_le x) as H1.
  pose proof (Qlt_floor x) as H2.
  pose proof (Qle_ceiling x) as H3.
  pose proof (Qceiling_lt x) as H4.
  assert (Hlt : (inject_Z (Qfloor x) < x)%Q).
  { apply Qle_lteq in H1 as [H1 | H1]; [exact H1|].
    exfalso. apply Hx. now symmetry. }
  assert (Ha : Qfloor x < Qceiling x).
  { rewrite Zlt_Qlt. eapply Qlt_le_trans; eassumption. }
  assert (Hb : Qceiling x - 1 < Qfloor x + 1).
  { rewrite Zlt_Qlt. eapply Qlt_trans; eassumption. }
  lia.
Qed.

Lemma Qceiling_floor_int (x : Q) :
  (x == inject_Z (Qfloor x))%Q -> Qceiling x = Qfloor x.
Proof.
  intros Hx. rewrite Hx at 1. apply Qceiling_Z.
Qed.

Lemma int_of_float_nonneg (x : Q) : (0 <= x)%Q -> int_of_float x = Qfloor x.
Proof.
  intros Hx. unfold int_of_float.
  apply Qle_bool_iff in Hx. now rewrite Hx.
Qed.

Lemma position_bounds (n : nat) (p : Z) :
  (0 < n)%nat -> 0 <= p <= 100 ->
  (0 <= position n p)%Q /\
  (position n p <= inject_Z (Z.of_nat n - 1))%Q.
Proof.
  intros Hn Hp. unfold position.
  assert (H0 : (0 <= inject_Z p)%Q) by (unfold Qle; simpl; lia).
  assert (H1 : (inject_Z p <= 100)%Q) by (unfold Qle; simpl; lia).
  assert (H2 : (0 <= inject_Z (Z.of_nat n - 1))%Q)
    by (unfold Qle; simpl; lia).
  set (a := inject_Z p) in *. set (b := inject_Z (Z.of_nat n - 1)) in *.
  split.
  - apply Qmult_le_0_compat; [|exact H2].
    apply Qle_shift_div_l; [reflexivity|]. now rewrite Qmult_0_l.
  - rewrite <- (Qmult_1_l b) at 2.
    apply Qmult_le_compat_r; [|exact H2].
    apply Qle_shift_div_r; [reflexivity|]. now rewrite Qmult_1_l.
Qed.

Lemma Qle_bool_sorted_ascending (l : list Q) :
  ascending (sorted Qle_bool l).
Proof.
  pose proof (sorted_ordered Qle_bool Qle_bool_total Qle_bool_trans l) as H.
  unfold ascending.
  induction H as [|x s Hs IH Hx]; constructor.
  - exact IH.
  - eapply Forall_impl; [|exact Hx].
    intros y. apply Qle_bool_iff.
Qed.

Lemma ascending_at_index (s : list Q) (i j : Z) :
  ascending s -> 0 <= i <= j -> j < Z.of_nat (length s) ->
  (at_index s i <= at_index s j)%Q.
Proof.
  intros Hs Hij Hj. unfold at_index.
  destruct (Z.eq_dec i j) as [-> | Hne].
  - apply Qle_refl.
  - apply (StronglySorted_nth Qle 0%Q s Hs). lia.
Qed.

(** What the code computes, with the indices it reads. *)
Lemma percentile_value (values : list Q) (p : Z) :
  values <> [] -> 0 <= p <= 100 ->
  let s := sorted Qle_bool values in
  let n := Z.of_nat (length values) in
  let pos := position (length values) p in
  let k := Qfloor pos in
  0 <= k <= n - 1 /\
  _compute_exact_percentile values p =
    Ok (at_index s k +
        (pos - inject_Z k) * (at_index s (Z.min (k + 1) (n - 1))
                              - at_index s k))%Q.
Proof.
  intros Hne Hp s n pos k.
  assert (Hlen : (0 < length values)%nat)
    by (destruct values; simpl; [congruence | lia]).
  destruct (position_bounds (length values) p Hlen Hp) as [Hpos0 Hposn].
  assert (Hk : 0 <= k <= n - 1).
  { subst k n. split.
    - rewrite <- (Qfloor_Z 0). now apply Qfloor_resp_le.
    - rewrite <- (Qfloor_Z (Z.of_nat (length values) - 1)).
      now apply Qfloor_resp_le. }
  split; [exact Hk|].
  unfold _compute_exact_percentile.
  destruct values as [|v values']; [congruence|].
  set (values := v :: values') in *.
  destruct (Z.ltb_spec p 0); [lia|].
  destruct (Z.ltb_spec 100 p); [lia|].
  cbv zeta. simpl orb. cbv iota.
  rewrite (sorted_length Qle_bool values).
  fold n. change (inject_Z p / 100 * inject_Z (n - 1))%Q with pos.
  rewrite (int_of_float_nonneg pos Hpos0). fold k. fold s.
  rewrite (getitem_in_range s k 0%Q)
    by (unfold s; rewrite sorted_length; fold n; lia).
  rewrite (getitem_in_range s (Z.min (k + 1) (n - 1)) 0%Q)
    by (unfold s; rewrite sorted_length; fold n; lia).
  reflexivity.
Qed.

(** The value is the interpolation at the position, lies between the
    values at the floor and at the ceiling of the position, and is the
    element itself at a whole position. *)
Lemma percentile_interpolates (values : list Q) (p : Z) :
  values <> [] -> 0 <= p <= 100 ->
  let s := sorted Qle_bool values in
  let pos := position (length values) p in
  exists r,
    _compute_exact_percentile values p = Ok r /\
    (r == interpolate s pos)%Q /\
    (at_index s (Qfloor pos) <= r)%Q /\
    (r <= at_index s (Qceiling pos))%Q /\
    (forall j, (pos == inject_Z j)%Q -> (r == at_index s j)%Q).
Proof.
  intros Hne Hp s pos.
  destruct (percentile_value values p Hne Hp) as [Hk Hval].
  fold s pos in Hk, Hval.
  set (n := Z.of_nat (length values)) in *.
  set (k := Qfloor pos) in *.
  assert (Hlen : (0 < length values)%nat)
    by (destruct values; simpl; [congruence | lia]).
  destruct (position_bounds (length values) p Hlen Hp) as [Hpos0 Hposn].
  fold pos n in Hpos0, Hposn.
  assert (Hasc : ascending s) by apply Qle_bool_sorted_ascending.
  assert (Hslen : Z.of_nat (length s) = n)
    by (unfold s; now rewrite sorted_length).
  pose proof (Qfloor_le pos) as Hfl. fold k in Hfl.
  pose proof (Qlt_floor pos) as Hfu. fold k in Hfu.
  eexists. split; [exact Hval|].
  destruct (Qeq_dec pos (inject_Z k)) as [Hint | Hfrac].
  - (* a whole position *)
    assert (Hf : (pos - inject_Z k == 0)%Q) by lra.
    pose proof (interpolation_at_zero _ (at_index s k)
                  (at_index s (Z.min (k + 1) (n - 1))) Hf) as Hr.
    repeat split.
    + rewrite Hr. unfold interpolate. fold k.
      symmetry. now apply interpolation_at_zero.
    + rewrite Hr. apply Qle_refl.
    + rewrite Hr. rewrite (Qceiling_floor_int pos Hint). apply Qle_refl.
    + intros j Hj. rewrite Hr.
      assert (Hjk : j = k).
      { unfold k. rewrite Hj. now rewrite Qfloor_Z. }
      subst j. apply Qeq_refl.
  - (* strictly between two indices *)
    assert (Hceil : Qceiling pos = k + 1)
      by (apply Qceiling_floor_succ; exact Hfrac).
    assert (Hlt : (inject_Z k < pos)%Q).
    { apply Qle_lteq in Hfl as [Hfl | Hfl]; [exact Hfl|].
      exfalso. apply Hfrac. now symmetry. }
    assert (Hk1 : k + 1 <= n - 1).
    { assert (k < n - 1); [|lia].
      rewrite Zlt_Qlt. eapply Qlt_le_trans; eassumption. }
    rewrite Z.min_l by exact Hk1.
    assert (Hord : (at_index s k <= at_index s (k + 1))%Q)
      by (apply ascending_at_index; [exact Hasc | lia | lia]).
    assert (Hfu' : (pos < inject_Z k + 1)%Q).
    { rewrite inject_Z_plus in Hfu. exact Hfu. }
    repeat split.
    + unfold interpolate. fold k. rewrite Hceil. apply Qeq_refl.
    + apply interpolation_lower; [lra | exact Hord].
    + rewrite Hceil. apply interpolation_upper; [lra | exact Hord].
    + intros j Hj. exfalso. apply Hfrac.
      assert (Hjk : j = k).
      { unfold k. rewrite Hj. now rewrite Qfloor_Z. }
      subst j. exact Hj.
Qed.

End PercentileFacts.

Section PercentileClaims.
Import BaselineSpec.





(** The runs of [TestExactPercentile]. *)
Example median_even_count :
  exists r, _compute_exact_percentile [1; 2; 3; 4]%Q 50 = Ok r /\
            (r == 25 # 10)%Q.
Proof. eexists. split; [vm_compute; reflexivity | reflexivity]. Qed.

Example p90_interpolation :
  exists r, _compute_exact_percentile [10; 20; 30; 40]%Q 90 = Ok r /\
            (r == 37)%Q.
Proof. eexists. split; [vm_compute; reflexivity | reflexivity]. Qed.

Example percentile_unsorted_input :
  exists r, _compute_exact_percentile [15; 5; 10]%Q 100 = Ok r /\
            (r == 15)%Q.
Proof. eexists. split; [vm_compute; reflexivity | reflexivity]. Qed.

Example invalid_percentile_raises :
  _compute_exact_percentile [1; 2; 3]%Q 101
  = Raise (ValueError [Lit "Percentile must be between 0 and 100"]).
Proof. reflexivity. Qed.

End PercentileClaims.

(** ** Baseline computation *)

Section BaselineFacts.
Import BaselineSpec.

Lemma newest_first_total (a b : LLMUsageEvent) :
  newest_first a b = true \/ newest_first b a = true.
Proof. unfold newest_first. rewrite !Z.leb_le. lia. Qed.

Lemma newest_first_trans (a b c : LLMUsageEvent) :
  newest_first a b = true -> newest_first b c = true ->
  newest_first a c = true.
Proof. unfold newest_first. rewrite !Z.leb_le. lia. Qed.

Lemma sorted_newest_first_order (events : list LLMUsageEvent) :
  newest_first_order (sorted newest_first events).
Proof.
  pose proof (sorted_ordered newest_first newest_first_total
                newest_first_trans events) as H.
  unfold newest_first_order.
  induction H as [|x s Hs IH Hx]; constructor.
  - exact IH.
  - eapply Forall_impl; [|exact Hx].
    intros y. unfold newest_first. apply Z.leb_le.
Qed.

(** The loop, started with fewer than 200 events collected, adds the
    events of the window up to the cap. *)
Lemma window_loop_spec (cutoff : Z) (l acc : list LLMUsageEvent) :
  (length acc < 200)%nat ->
  window_loop cutoff l acc =
  acc ++ firstn (200 - length acc)
           (take_while (fun e => cutoff <=? timestamp e) l).
Proof.
  revert acc.
  induction l as [|e l IH]; intros acc Hacc; cbn [window_loop take_while].
  - now rewrite firstn_nil, app_nil_r.
  - destruct (Z.ltb_spec (timestamp e) cutoff) as [Hold | Hin].
    + destruct (Z.leb_spec cutoff (timestamp e)); [lia|].
      now rewrite firstn_nil, app_nil_r.
    + destruct (Z.leb_spec cutoff (timestamp e)); [|lia].
      rewrite length_app. cbn [length].
      destruct (Z.leb_spec 200 (Z.of_nat (length acc + 1))) as [Hcap | Hcap].
      * replace (200 - length acc)%nat with 1%nat by lia.
        reflexivity.
      * rewrite IH by (rewrite length_app; cbn [length]; lia).
        rewrite length_app. cbn [length].
        replace (200 - length acc)%nat
          with (S (200 - (length acc + 1)))%nat by lia.
        cbn [firstn]. now rewrite <- app_assoc.
Qed.

Lemma filter_window_sample (now : Z) (events : list LLMUsageEvent) :
  filter_window now events = sample now (sorted newest_first events).
Proof.
  unfold filter_window, sample, in_window. cbv zeta.
  rewrite window_loop_spec by (cbn [length]; lia).
  reflexivity.
Qed.

Lemma firstn_incl {A : Type} (n : nat) (l : list A) (x : A) :
  In x (firstn n l) -> In x l.
Proof.
  intros H. rewrite <- (firstn_skipn n l). apply in_or_app. now left.
Qed.

Lemma take_while_incl {A : Type} (f : A -> bool) (l : list A) (x : A) :
  In x (take_while f l) -> In x l.
Proof.
  induction l as [|y l IH]; simpl; [tauto|].
  destruct (f y); simpl; [|tauto]. intros [-> | H]; auto.
Qed.

Lemma take_while_Forall {A : Type} (f : A -> bool) (l : list A) :
  Forall (fun x => f x = true) (take_while f l).
Proof.
  induction l as [|y l IH]; simpl; [constructor|].
  destruct (f y) eqn:E; constructor; assumption.
Qed.

Lemma sample_incl (now : Z) (events : list LLMUsageEvent)
    (e : LLMUsageEvent) :
  In e (filter_window now events) -> In e events.
Proof.
  rewrite filter_window_sample. unfold sample. intros H.
  apply sorted_In with (leb := newest_first).
  eapply take_while_incl. eapply firstn_incl. exact H.
Qed.

Lemma StronglySorted_take_while {A : Type} (R : A -> A -> Prop)
    (f : A -> bool) (l : list A) :
  StronglySorted R l -> StronglySorted R (take_while f l).
Proof.
  induction 1 as [|x l Hl IH Hx]; simpl; [constructor|].
  destruct (f x); constructor; [exact IH|].
  rewrite Forall_forall in *. intros y Hy.
  apply Hx. eapply take_while_incl. exact Hy.
Qed.

Lemma StronglySorted_firstn {A : Type} (R : A -> A -> Prop) (n : nat)
    (l : list A) :
  StronglySorted R l -> StronglySorted R (firstn n l).
Proof.
  intros H. revert n. induction H as [|x l Hl IH Hx]; intros [|n]; simpl;
    try constructor.
  - apply IH.
  - rewrite Forall_forall in *. intros y Hy.
    apply Hx. eapply firstn_incl. exact Hy.
Qed.

Lemma sample_newest_first_order (now : Z) (events : list LLMUsageEvent) :
  newest_first_order (filter_window now events).
Proof.
  rewrite filter_window_sample. unfold sample, newest_first_order.
  apply StronglySorted_firstn, StronglySorted_take_while.
  apply sorted_newest_first_order.
Qed.


Lemma first_missing_cost_none (i : Z) (events : list LLMUsageEvent) :
  (forall e, In e events -> ~ lacks_cost e) ->
  first_missing_cost i events = None.
Proof.
  revert i. induction events as [|e events IH]; intros i Hall; simpl.
  - reflexivity.
  - destruct (estimated_cost e) eqn:E.
    + apply IH. intros e' He'. apply Hall. now right.
    + exfalso. apply (Hall e); [now left | exact E].
Qed.

Lemma first_missing_cost_some (i : Z) (events : list LLMUsageEvent) :
  (exists e, In e events /\ lacks_cost e) ->
  exists j, first_missing_cost i events = Some j /\ i <= j /\
            exists e, nth_error events (Z.to_nat (j - i)) = Some e /\
                      lacks_cost e.
Proof.
  revert i. induction events as [|e events IH]; intros i (e0 & Hin & Hlack).
  - destruct Hin.
  - simpl. destruct (estimated_cost e) eqn:E.
    + destruct Hin as [-> | Hin]; [unfold lacks_cost in Hlack; congruence|].
      destruct (IH (i + 1) (ex_intro _ e0 (conj Hin Hlack)))
        as (j & Hj & Hle & e1 & Hnth & Hl1).
      exists j. split; [exact Hj|]. split; [lia|].
      exists e1. split; [|exact Hl1].
      replace (Z.to_nat (j - i)) with (S (Z.to_nat (j - (i + 1)))) by lia.
      exact Hnth.
    + exists i. split; [reflexivity|]. split; [lia|].
      exists e. rewrite Z.sub_diag. now split.
Qed.

Lemma all_present_map {A B : Type} (f : A -> option B) (l : list A) :
  (forall e, In e l -> exists x, f e = Some x) ->
  exists xs, all_present (map f l) = Ok xs /\
             length xs = length l /\
             forall x, In x xs -> exists e, In e l /\ f e = Some x.
Proof.
  induction l as [|e l IH]; intros Hall; simpl.
  - exists []. repeat split. intros x [].
  - destruct (Hall e (or_introl eq_refl)) as (x & Hx). rewrite Hx.
    destruct IH as (xs & Hxs & Hlen & Hin).
    { intros e' He'. apply Hall. now right. }
    rewrite Hxs. simpl. exists (x :: xs). repeat split.
    + simpl. now rewrite Hlen.
    + intros y [<- | Hy].
      * exists e. split; [now left | exact Hx].
      * destruct (Hin y Hy) as (e' & He' & Hf). exists e'. split; auto.
Qed.

(** The percentile of values none of which is negative is not negative. *)
Lemma percentile_nonneg (values : list Q) (p : Z) :
  values <> [] -> 0 <= p <= 100 ->
  (forall v, In v values -> (0 <= v)%Q) ->
  exists r, _compute_exact_percentile values p = Ok r /\ (0 <= r)%Q.
Proof.
  intros Hne Hp Hpos.
  destruct (percentile_value values p Hne Hp) as [Hk _].
  destruct (percentile_interpolates values p Hne Hp)
    as (r & Hr & _ & Hlow & _).
  exists r. split; [exact Hr|].
  eapply Qle_trans; [|exact Hlow].
  apply Hpos. apply (sorted_In Qle_bool).
  unfold at_index. apply nth_In. rewrite sorted_length. lia.
Qed.

(** What a returned baseline says about the sample. *)
Lemma compute_baseline_ok_inv (now : Z) (events : list LLMUsageEvent)
    (r : BaselineResult) :
  compute_baseline now events = Ok r ->
  state r = state_of_size (length (filter_window now events)) /\
  exists m, metrics r = Some m /\
            sample_count m = Z.of_nat (length (filter_window now events)).
Proof.
  unfold compute_baseline.
  destruct events as [|e0 events']; [discriminate|].
  destruct (first_missing_cost 0 (e0 :: events')); [discriminate|].
  set (smp := filter_window now (e0 :: events')).
  destruct smp as [|s0 smp'] eqn:Esmp; [discriminate|].
  repeat match goal with
         | |- context [bind ?c _] =>
             destruct c eqn:?; cbn [bind]; [|discriminate]
         end.
  unfold new_BaselineResult.
  destruct (_ <? _); [discriminate|].
  intros [= <-]. cbn [state metrics].
  split.
  - unfold state_of_size.
    change (Z.pos (Pos.of_succ_nat (length smp')))
      with (Z.of_nat (length (s0 :: smp'))).
    destruct (Z.leb_spec 20 (Z.of_nat (length (s0 :: smp'))));
      destruct (Nat.leb_spec 20 (length (s0 :: smp')));
      solve [reflexivity | lia].
  - match goal with
    | H : new_BaselineMetrics _ _ _ _ = Ok ?m |- _ =>
        exists m; split; [reflexivity|];
        unfold new_BaselineMetrics in H;
        repeat match type of H with
               | (if ?b then _ else _) = _ =>
                   destruct b; [discriminate H|]
               end;
        injection H as <-; reflexivity
    end.
Qed.

Lemma newest_first_order_last (s0 : LLMUsageEvent)
    (l : list LLMUsageEvent) :
  newest_first_order (s0 :: l) ->
  last (map timestamp (s0 :: l)) 0 <= timestamp s0.
Proof.
  intros H. inversion H as [|x l' Hl Hx]; subst.
  destruct l as [|e l]; [simpl; lia|].
  assert (Hin : In (last (map timestamp (s0 :: e :: l)) 0)
                   (map timestamp (e :: l))).
  { change (map timestamp (s0 :: e :: l))
      with (timestamp s0 :: map timestamp (e :: l)).
    change (last (timestamp s0 :: map timestamp (e :: l)) 0)
      with (last (map timestamp (e :: l)) 0).
    destruct (exists_last (l := map timestamp (e :: l))) as (l1 & t & Heq);
      [discriminate|].
    rewrite Heq, last_last. apply in_or_app. right. now left. }
  apply in_map_iff in Hin as (e' & <- & He').
  rewrite Forall_forall in Hx. now apply Hx.
Qed.

(** On well-formed events with a non-empty sample a baseline is returned. *)
Lemma compute_baseline_returns (now : Z) (events : list LLMUsageEvent) :
  Forall well_formed events ->
  filter_window now events <> [] ->
  exists r, compute_baseline now events = Ok r.
Proof.
  intros Hwf Hsmp. rewrite Forall_forall in Hwf.
  unfold compute_baseline.
  destruct events as [|e0 events']; [exfalso; now apply Hsmp|].
  rewrite first_missing_cost_none.
  2:{ intros e He Hlack. destruct (Hwf e He) as [(c & Hc & _) _].
      unfold lacks_cost in Hlack. congruence. }
  pose proof (sample_newest_first_order now (e0 :: events')) as Hord.
  assert (Hincl : forall e, In e (filter_window now (e0 :: events')) ->
                            well_formed e).
  { intros e He. apply Hwf. eapply sample_incl. exact He. }
  destruct (filter_window now (e0 :: events')) as [|s0 smp'];
    [congruence|].
  set (smp := s0 :: smp') in *.
  (* costs *)
  destruct (all_present_map estimated_cost smp) as (costs & Hcosts & Hclen & Hcin).
  { intros e He. destruct (Hincl e He) as [(c & Hc & _) _]. eauto. }
  rewrite Hcosts. cbn [bind].
  assert (Hcne : costs <> []) by (destruct costs; [discriminate|congruence]).
  assert (Hcpos : forall v, In v costs -> (0 <= v)%Q).
  { intros v Hv. destruct (Hcin v Hv) as (e & He & Hev).
    destruct (Hincl e He) as [(c & Hc & Hc0) _]. congruence. }
  destruct (percentile_nonneg costs 50 Hcne ltac:(lia) Hcpos)
    as (mc & Hmc & Hmc0).
  destruct (percentile_nonneg costs 90 Hcne ltac:(lia) Hcpos)
    as (pc & Hpc & Hpc0).
  rewrite Hmc. cbn [bind]. rewrite Hpc. cbn [bind].
  (* tokens *)
  destruct (all_present_map total_tokens smp) as (tokens & Htok & Htlen & Htin).
  { intros e He. destruct (Hincl e He) as [_ (t & Ht & _)]. eauto. }
  rewrite Htok. cbn [bind].
  assert (Htne : map inject_Z tokens <> [])
    by (destruct tokens; [discriminate|discriminate]).
  assert (Htpos : forall v, In v (map inject_Z tokens) -> (0 <= v)%Q).
  { intros v Hv. apply in_map_iff in Hv as (t & <- & Ht).
    destruct (Htin t Ht) as (e & He & Het).
    destruct (Hincl e He) as [_ (t' & Ht' & Ht0)].
    assert (t' = t) by congruence. subst t'.
    unfold Qle. simpl. lia. }
  destruct (percentile_nonneg (map inject_Z tokens) 50 Htne ltac:(lia) Htpos)
    as (mt & Hmt & Hmt0).
  rewrite Hmt. cbn [bind].
  (* window *)
  rewrite (getitem_in_range (map timestamp smp) 0 0)
    by (rewrite length_map; unfold smp; cbn [length]; lia).
  cbn [bind].
  rewrite (getitem_last (map timestamp smp) 0) by discriminate.
  cbn [bind].
  (* metrics *)
  unfold new_BaselineMetrics.
  apply Qltb_false_iff in Hmc0, Hpc0. rewrite Hmc0, Hpc0.
  assert (Hmti : 0 <= int_of_float mt).
  { rewrite int_of_float_nonneg by exact Hmt0.
    rewrite <- (Qfloor_Z 0). now apply Qfloor_resp_le. }
  destruct (Z.ltb_spec (int_of_float mt) 0); [lia|].
  destruct (Z.ltb_spec (Z.of_nat (length smp)) 0); [lia|].
  cbn [bind].
  unfold new_BaselineResult.
  pose proof (newest_first_order_last s0 smp' Hord) as Hlast.
  fold smp in Hlast.
  change (nth (Z.to_nat 0) (map timestamp smp) 0) with (timestamp s0).
  destruct (Z.ltb_spec (timestamp s0) (last (map timestamp smp) 0)); [lia|].
  eexists. reflexivity.
Qed.

End BaselineFacts.

Section BaselineClaims.
Import BaselineSpec.

(** C4. [compute_baseline] raises an input error for an empty list and when
    some event lacks a cost.  Otherwise its filtered sample is: the events
    sorted newest first, taken until one is older than 7 days before the
    current time or 200 have been taken; an empty sample is an input error;
    a returned baseline is WARM exactly when the sample has at least 20
    events and COLD otherwise, and one is returned whenever the sample is
    not empty and the events carry non-negative costs and token counts. *)
Theorem compute_baseline_sample_and_state (now : Z)
    (events : list LLMUsageEvent) :
  (events = [] ->
   compute_baseline now events =
     Raise (ValueError [Lit "Events list cannot be empty"])) /\
  ((exists e, In e events /\ lacks_cost e) ->
   exists i e,
     nth_error events (Z.to_nat i) = Some e /\ lacks_cost e /\ 0 <= i /\
     compute_baseline now events =
       Raise (ValueError [Lit "Event at index "; Int i;
                          Lit " missing estimated_cost"])) /\
  (events <> [] -> (forall e, In e events -> ~ lacks_cost e) ->
   (exists newest,
      Permutation newest events /\ newest_first_order newest /\
      filter_window now events = sample now newest) /\
   (filter_window now events = [] ->
    compute_baseline now events =
      Raise (ValueError [Lit "No events found within 7-day window"])) /\
   (forall r,
      compute_baseline now events = Ok r ->
      state r = state_of_size (length (filter_window now events)) /\
      (state r = WARM <-> (20 <= length (filter_window now events))%nat) /\
      (state r = COLD <-> (length (filter_window now events) < 20)%nat) /\
      exists m, metrics r = Some m /\
                sample_count m =
                  Z.of_nat (length (filter_window now events))) /\
   (filter_window now events <> [] -> Forall well_formed events ->
    exists r, compute_baseline now events = Ok r)).
Proof.
  split; [|split].
  - intros ->. reflexivity.
  - intros Hlack.
    destruct (first_missing_cost_some 0 events Hlack)
      as (i & Hi & Hle & e & Hnth & He).
    rewrite Z.sub_0_r in Hnth.
    exists i, e. repeat split; try assumption.
    unfold compute_baseline.
    destruct events as [|e0 events']; [destruct Hlack as (? & [] & _)|].
    now rewrite Hi.
  - intros Hne Hcost. split; [|split; [|split]].
    + exists (sorted newest_first events). split; [|split].
      * apply sorted_perm.
      * apply sorted_newest_first_order.
      * apply filter_window_sample.
    + intros Hempty. unfold compute_baseline.
      destruct events as [|e0 events']; [congruence|].
      rewrite (first_missing_cost_none 0 _ Hcost).
      now rewrite Hempty.
    + intros r Hr.
      destruct (compute_baseline_ok_inv now events r Hr) as (Hst & Hm).
      split; [exact Hst|]. split; [|split; [|exact Hm]].
      * rewrite Hst. unfold state_of_size.
        destruct (Nat.leb_spec 20 (length (filter_window now events)));
          split; intros; solve [assumption | reflexivity | discriminate | lia].
      * rewrite Hst. unfold state_of_size.
        destruct (Nat.leb_spec 20 (length (filter_window now events)));
          split; intros; solve [assumption | reflexivity | discriminate | lia].
    + intros Hsmp Hwf. now apply compute_baseline_returns.
Qed.

(** Two events of the last two hours: a COLD baseline is returned. *)
Lemma compute_baseline_sample_and_state_witness :
  exists r,
    compute_baseline Examples.noon (Examples.hourly_events Examples.noon 2)
      = Ok r /\
    state r = COLD.
Proof.
  destruct (compute_baseline_sample_and_state Examples.noon
              (Examples.hourly_events Examples.noon 2))
    as (_ & _ & H).
  destruct H as (_ & _ & Hstate & Hret).
  - discriminate.
  - intros e [<- | [<- | []]]; discriminate.
  - destruct Hret as (r & Hr).
    + vm_compute. discriminate.
    + apply Forall_forall.
      intros e [<- | [<- | []]];
        (split; eexists; (split; [reflexivity|]));
        first [lia | unfold Qle; simpl; lia].
    + exists r. split; [exact Hr|].
      destruct (Hstate r Hr) as (_ & _ & Hcold & _).
      apply Hcold. vm_compute. lia.
Defined.

(** Scenario: 25 events with costs 1.0 .. 25.0 give a WARM baseline with
    median cost 13.0, p90 cost 22.6 and median tokens 130. *)
Example warm_baseline_25_events :
  exists r m,
    compute_baseline Examples.noon (Examples.hourly_events Examples.noon 25)
      = Ok r /\
    state r = WARM /\ metrics r = Some m /\
    (median_cost m == 13)%Q /\ (p90_cost m == 226 # 10)%Q /\
    median_tokens m = 130 /\ sample_count m = 25 /\
    window_end r = Examples.noon /\
    window_start r = Examples.noon - 24 * Examples.hour.
Proof.
  eexists. eexists. split; [vm_compute; reflexivity|].
  repeat split.
Qed.

(** Events older than 7 days are left out; only older ones is an error. *)
Example only_old_events :
  compute_baseline Examples.noon
    [Examples.event (Examples.noon - timedelta_days 8) "f" "m" 100 1 0]
  = Raise (ValueError [Lit "No events found within 7-day window"]).
Proof. reflexivity. Qed.

Example event_limit_200 :
  length (filter_window Examples.noon
            (Examples.hourly_events (Examples.noon + 100 * Examples.hour)
               150 ++
             Examples.hourly_events Examples.noon 100)) = 200%nat.
Proof. vm_compute. reflexivity. Qed.

(** C9 fails on the code: the sort key is the timestamp alone and [sorted]
    is stable, so events of equal timestamp stay in input order, and the
    cap of 200 cuts between them.  The same 201 events, all of one instant,
    100 costing 1.0 and 101 costing 2.0, give median cost 1.5 in one order
    and 2.0 in the other. *)
Theorem compute_baseline_depends_on_order_of_ties :
  Permutation Examples.tied_cheap_first Examples.tied_dear_first /\
  exists r1 r2 m1 m2,
    compute_baseline Examples.noon Examples.tied_cheap_first = Ok r1 /\
    compute_baseline Examples.noon Examples.tied_dear_first = Ok r2 /\
    metrics r1 = Some m1 /\ metrics r2 = Some m2 /\
    (median_cost m1 == 15 # 10)%Q /\ (median_cost m2 == 2)%Q /\
    ~ (median_cost m1 == median_cost m2)%Q.
Proof.
  split.
  - apply Permutation_app_comm.
  - do 4 eexists.
    split; [vm_compute; reflexivity|].
    split; [vm_compute; reflexivity|].
    split; [reflexivity|]. split; [reflexivity|].
    split; [reflexivity|]. split; [reflexivity|].
    discriminate.
Qed.

(** Where the order cannot matter: two lists that are strictly sorted and
    permutations of each other are the same list. *)
Lemma strictly_sorted_perm_eq {A : Type} (key : A -> Z) (l1 l2 : list A) :
  StronglySorted (fun a b => key b < key a) l1 ->
  StronglySorted (fun a b => key b < key a) l2 ->
  Permutation l1 l2 -> l1 = l2.
Proof.
  intros H1. revert l2.
  induction H1 as [|a l1 Hs1 IH Ha]; intros l2 H2 Hperm.
  - apply Permutation_nil in Hperm. now subst.
  - destruct H2 as [|b l2 Hs2 Hb].
    + apply Permutation_sym, Permutation_nil in Hperm. discriminate.
    + rewrite Forall_forall in Ha, Hb.
      assert (Hab : a = b).
      { assert (Hin1 : In a (b :: l2))
          by (apply (Permutation_in _ Hperm); now left).
        assert (Hin2 : In b (a :: l1))
          by (apply (Permutation_in _ (Permutation_sym Hperm)); now left).
        destruct Hin1 as [-> | Hin1]; [reflexivity|].
        destruct Hin2 as [-> | Hin2]; [reflexivity|].
        specialize (Ha b Hin2). specialize (Hb a Hin1). lia. }
      subst b. f_equal.
      apply IH; [exact Hs2|]. eapply Permutation_cons_inv. exact Hperm.
Qed.

Lemma newest_first_order_strict (l : list LLMUsageEvent) :
  newest_first_order l -> NoDup (map timestamp l) ->
  StronglySorted (fun a b => timestamp b < timestamp a) l.
Proof.
  induction 1 as [|x l Hs IH Hx]; intros Hnd; [constructor|].
  simpl in Hnd. apply NoDup_cons_iff in Hnd as [Hnotin Hnd].
  constructor; [now apply IH|].
  rewrite Forall_forall in *. intros y Hy.
  specialize (Hx y Hy).
  assert (timestamp y <> timestamp x); [|lia].
  intros Heq. apply Hnotin. rewrite <- Heq. now apply in_map.
Qed.

(** Outside the failing case the claim of C9 holds: when no two events
    share a timestamp and every event has a cost, permuting the input
    changes nothing, neither the baseline returned nor the error raised. *)
Lemma compute_baseline_order_independent_without_ties (now : Z)
    (events1 events2 : list LLMUsageEvent) :
  Permutation events1 events2 ->
  NoDup (map timestamp events1) ->
  (forall e, In e events1 -> ~ lacks_cost e) ->
  compute_baseline now events1 = compute_baseline now events2.
Proof.
  intros Hperm Hnd Hcost.
  assert (Hcost2 : forall e, In e events2 -> ~ lacks_cost e).
  { intros e He. apply Hcost.
    now apply (Permutation_in _ (Permutation_sym Hperm)). }
  assert (Hsorted : sorted newest_first events1 = sorted newest_first events2).
  { apply (strictly_sorted_perm_eq timestamp).
    - apply newest_first_order_strict; [apply sorted_newest_first_order|].
      eapply Permutation_NoDup; [|exact Hnd].
      apply Permutation_map, Permutation_sym, sorted_perm.
    - apply newest_first_order_strict; [apply sorted_newest_first_order|].
      eapply Permutation_NoDup; [|exact Hnd].
      apply Permutation_map.
      rewrite <- (sorted_perm newest_first events2) in Hperm. exact Hperm.
    - rewrite (sorted_perm newest_first events1).
      now rewrite (sorted_perm newest_first events2). }
  unfold compute_baseline.
  destruct events1 as [|a1 l1], events2 as [|a2 l2].
  - reflexivity.
  - apply Permutation_nil in Hperm. discriminate.
  - apply Permutation_sym, Permutation_nil in Hperm. discriminate.
  - rewrite (first_missing_cost_none 0 _ Hcost).
    rewrite (first_missing_cost_none 0 _ Hcost2).
    unfold filter_window. rewrite Hsorted. reflexivity.
Qed.

End BaselineClaims.

(** ** Simulation harness *)

Section SimulationFacts.
Import Simulation SimulationSpec.

Lemma no_violation_bind {A B : Type} (c : result A) (k : A -> result B) :
  no_violation c -> (forall a, no_violation (k a)) -> no_violation (bind c k).
Proof.
  intros Hc Hk msg action. destruct c as [a|e]; simpl.
  - apply Hk.
  - intros [= ->]. now apply (Hc msg action).
Qed.

Lemma no_violation_Ok {A : Type} (a : A) : no_violation (Ok a).
Proof. intros msg action. discriminate. Qed.

Lemma no_violation_getitem {A : Type} (l : list A) (i : Z) :
  no_violation (getitem l i).
Proof.
  intros msg action. unfold getitem.
  destruct (_ || _); [discriminate|].
  destruct (nth_error _ _); discriminate.
Qed.

Lemma no_violation_all_present {A : Type} (l : list (option A)) :
  no_violation (all_present l).
Proof.
  induction l as [|[x|] l IH]; simpl.
  - apply no_violation_Ok.
  - apply no_violation_bind; [exact IH | intros; apply no_violation_Ok].
  - intros msg action. discriminate.
Qed.

Lemma no_violation_new_BaselineMetrics (mc pc : Q) (mt sc : Z) :
  no_violation (new_BaselineMetrics mc pc mt sc).
Proof.
  intros msg action. unfold new_BaselineMetrics.
  repeat match goal with
         | |- (if ?b then _ else _) <> _ => destruct b; [discriminate|]
         end.
  discriminate.
Qed.

Lemma no_violation_new_BaselineResult (m : option BaselineMetrics)
    (st : BaselineState) (ws we : Z) :
  no_violation (new_BaselineResult m st ws we).
Proof.
  intros msg action. unfold new_BaselineResult.
  destruct (_ <? _); discriminate.
Qed.

Lemma no_violation_create_baseline (events : list LLMUsageEvent) :
  no_violation (_create_baseline_from_events events).
Proof.
  unfold _create_baseline_from_events.
  destruct (map timestamp events); [intros msg action; discriminate|].
  cbv zeta.
  destruct (_ <? 3); [apply no_violation_new_BaselineResult|].
  repeat (apply no_violation_bind;
          [first [apply no_violation_all_present
                 | apply no_violation_getitem
                 | apply no_violation_new_BaselineMetrics]
          | intros ?]).
  apply no_violation_new_BaselineResult.
Qed.

Lemma no_violation_detect_anomalies (feature model : string)
    (baseline : BaselineResult) (current_event : LLMUsageEvent) :
  no_violation (Anomaly.detect_anomalies feature model baseline current_event).
Proof.
  intros msg action. unfold Anomaly.detect_anomalies.
  destruct (state baseline); [discriminate|].
  destruct (estimated_cost current_event); [|discriminate].
  destruct (total_tokens current_event); [|discriminate].
  destruct (retry_count current_event); [|discriminate].
  destruct (metrics baseline); discriminate.
Qed.

(** The handler of the dry run lets no violation through. *)
Lemma no_violation_simulate_enforcement (feature model : string)
    (config : Guardrails.GuardrailConfig) (baseline : BaselineResult)
    (current_event : LLMUsageEvent) (anomalies : list Anomaly.AnomalyEvent) :
  no_violation
    (_simulate_enforcement feature model config baseline current_event
       anomalies).
Proof.
  intros msg action. unfold _simulate_enforcement.
  destruct (state baseline); [discriminate|].
  destruct (Guardrails.enforce_guardrails _ _ _ _ _ _ _) as [a|[]].
  - destruct (negb _); discriminate.
  - discriminate.
  - discriminate.
  - discriminate.
  - discriminate.
  - discriminate.
  - discriminate.
Qed.

Lemma no_violation_simulate_group (config : Guardrails.GuardrailConfig)
    (item : (string * string) * list LLMUsageEvent) :
  no_violation (simulate_group config item).
Proof.
  destruct item as [[feature_name model] feature_events].
  unfold simulate_group, latest_event.
  apply no_violation_bind; [apply no_violation_getitem | intros latest].
  apply no_violation_bind; [apply no_violation_create_baseline | intros bl].
  apply no_violation_bind.
  { destruct (state bl);
      [apply no_violation_Ok | apply no_violation_detect_anomalies]. }
  intros an.
  apply no_violation_bind;
    [apply no_violation_simulate_enforcement | intros vs].
  apply no_violation_bind; [apply no_violation_all_present | intros costs].
  apply no_violation_Ok.
Qed.

Lemma no_violation_mapM {A B : Type} (f : A -> result B) (l : list A) :
  (forall x, no_violation (f x)) -> no_violation (mapM f l).
Proof.
  intros Hf. induction l as [|x l IH]; simpl.
  - apply no_violation_Ok.
  - apply no_violation_bind; [apply Hf | intros y].
    apply no_violation_bind; [exact IH | intros ys].
    apply no_violation_Ok.
Qed.

Lemma no_violation_simulate_cost_impact (now : Z) (feature : option string)
    (config : Guardrails.GuardrailConfig)
    (repository : Repository.UsageRepository) :
  no_violation (simulate_cost_impact now feature config repository).
Proof.
  unfold simulate_cost_impact.
  destruct repository as [rows| |]; simpl Repository.get_recent_events.
  - match goal with
    | |- no_violation (match Ok ?l with _ => _ end) => destruct l as [|e l']
    end.
    + apply no_violation_Ok.
    + apply no_violation_bind.
      * apply no_violation_mapM. intros x. apply no_violation_simulate_group.
      * intros results. apply no_violation_Ok.
  - apply no_violation_Ok.
  - intros msg action. discriminate.
Qed.

(** With the unlimited budget the budget check contributes no candidate. *)
Lemma dry_run_budget_never_breached (feature : string)
    (config : Guardrails.GuardrailConfig) :
  GuardrailSpec.budget_candidate feature config dry_run_budget = [].
Proof.
  unfold GuardrailSpec.budget_candidate.
  destruct (Guardrails.budget_limit config); reflexivity.
Qed.

Lemma simulate_enforcement_warm (feature model : string)
    (config : Guardrails.GuardrailConfig) (baseline : BaselineResult)
    (current_event : LLMUsageEvent) (anomalies : list Anomaly.AnomalyEvent) :
  state baseline = WARM ->
  enforcement_is_run feature model config baseline current_event anomalies.
Proof.
  intros Hwarm. unfold enforcement_is_run, _simulate_enforcement.
  rewrite Hwarm.
  destruct (Guardrails.enforce_guardrails _ _ _ _ _ _ _) as [a|[]];
    try reflexivity.
  destruct a; reflexivity.
Qed.

(** *** The harness returns on a ledger of stored events *)

Lemma min_of_le (l : list Z) (x : Z) : min_of x l <= x.
Proof.
  unfold min_of. revert x. induction l as [|a l IH]; intros x; simpl.
  - lia.
  - specialize (IH (Z.min x a)). lia.
Qed.

Lemma max_of_ge (l : list Z) (x : Z) : x <= max_of x l.
Proof.
  unfold max_of. revert x. induction l as [|a l IH]; intros x; simpl.
  - lia.
  - specialize (IH (Z.max x a)). lia.
Qed.

Lemma new_BaselineResult_returns (m : option BaselineMetrics)
    (st : BaselineState) (ws we : Z) :
  ws <= we ->
  new_BaselineResult m st ws we =
    Ok {| metrics := m; state := st; window_start := ws; window_end := we |}.
Proof.
  intros H. unfold new_BaselineResult.
  destruct (Z.ltb_spec we ws); [lia | reflexivity].
Qed.

Lemma new_BaselineMetrics_returns (mc pc : Q) (mt sc : Z) :
  (0 <= mc)%Q -> (0 <= pc)%Q -> 0 <= mt -> 0 <= sc ->
  new_BaselineMetrics mc pc mt sc =
    Ok {| median_cost := mc; p90_cost := pc; median_tokens := mt;
          sample_count := sc |}.
Proof.
  intros Hmc Hpc Hmt Hsc. unfold new_BaselineMetrics.
  apply Qltb_false_iff in Hmc, Hpc. rewrite Hmc, Hpc.
  destruct (Z.ltb_spec mt 0); [lia|].
  destruct (Z.ltb_spec sc 0); [lia|].
  reflexivity.
Qed.

Lemma p90_index_in_range (len : Z) :
  0 < len -> 0 <= int_of_float (inject_Z len * (9 # 10)) < len.
Proof.
  intros Hlen.
  assert (Hq : (0 <= inject_Z len * (9 # 10))%Q)
    by (unfold Qle; simpl; lia).
  unfold int_of_float. apply Qle_bool_iff in Hq. rewrite Hq.
  unfold Qfloor, Qmult, inject_Z. cbn [Qnum Qden].
  change (Z.pos (1 * 10)) with 10.
  split.
  - apply Z.div_pos; lia.
  - apply Z.div_lt_upper_bound; lia.
Qed.

Lemma create_baseline_returns (events : list LLMUsageEvent) :
  events <> [] -> Forall stored_event events ->
  exists bl,
    _create_baseline_from_events events = Ok bl /\
    (state bl = WARM -> exists m, metrics bl = Some m).
Proof.
  intros Hne Hst. rewrite Forall_forall in Hst.
  unfold _create_baseline_from_events.
  destruct events as [|e0 events']; [congruence|].
  set (events := e0 :: events') in *.
  change (map timestamp events)
    with (timestamp e0 :: map timestamp events').
  cbv zeta.
  assert (Hwin : min_of (timestamp e0) (map timestamp events')
                 <= max_of (timestamp e0) (map timestamp events')).
  { pose proof (min_of_le (map timestamp events') (timestamp e0)).
    pose proof (max_of_ge (map timestamp events') (timestamp e0)). lia. }
  destruct (Z.ltb_spec (Z.of_nat (length events)) 3) as [Hfew | Hmany].
  - rewrite new_BaselineResult_returns by exact Hwin.
    eexists. split; [reflexivity|]. discriminate.
  - destruct (all_present_map estimated_cost events)
      as (costs & Hcosts & Hclen & Hcin).
    { intros e He. destruct (Hst e He) as [(c & Hc & _) _]. eauto. }
    destruct (all_present_map total_tokens events)
      as (tokens & Htok & Htlen & Htin).
    { intros e He. destruct (Hst e He) as [_ [(t & Ht & _) _]]. eauto. }
    rewrite Hcosts. cbn [bind]. rewrite Htok. cbn [bind].
    set (len := Z.of_nat (length events)) in *.
    assert (Hcs : Z.of_nat (length (sorted Qle_bool costs)) = len)
      by (rewrite sorted_length, Hclen; reflexivity).
    assert (Hts : Z.of_nat (length (sorted Z.leb tokens)) = len)
      by (rewrite sorted_length, Htlen; reflexivity).
    assert (Hhalf : 0 <= len / 2 < len).
    { split; [apply Z.div_pos; lia | apply Z.div_lt_upper_bound; lia]. }
    pose proof (p90_index_in_range len ltac:(lia)) as Hp90.
    rewrite (getitem_in_range (sorted Qle_bool costs) (len / 2) 0%Q)
      by (rewrite Hcs; exact Hhalf).
    cbn [bind].
    rewrite (getitem_in_range (sorted Qle_bool costs) _ 0%Q)
      by (rewrite Hcs; exact Hp90).
    cbn [bind].
    rewrite (getitem_in_range (sorted Z.leb tokens) (len / 2) 0)
      by (rewrite Hts; exact Hhalf).
    cbn [bind].
    assert (Hcpos : forall i, 0 <= i < len ->
                      (0 <= nth (Z.to_nat i) (sorted Qle_bool costs) 0)%Q).
    { intros i Hi.
      assert (Hin : In (nth (Z.to_nat i) (sorted Qle_bool costs) 0%Q) costs).
      { apply (sorted_In Qle_bool). apply nth_In. lia. }
      destruct (Hcin _ Hin) as (e & He & Hev).
      destruct (Hst e He) as [(c & Hc & Hc0) _]. congruence. }
    assert (Htpos : 0 <= nth (Z.to_nat (len / 2)) (sorted Z.leb tokens) 0).
    { assert (Hin : In (nth (Z.to_nat (len / 2)) (sorted Z.leb tokens) 0)
                       tokens).
      { apply (sorted_In Z.leb). apply nth_In. lia. }
      destruct (Htin _ Hin) as (e & He & Hev).
      destruct (Hst e He) as [_ [(t & Ht & Ht0) _]]. congruence. }
    rewrite new_BaselineMetrics_returns;
      [|apply Hcpos; exact Hhalf | apply Hcpos; exact Hp90
       | exact Htpos | lia].
    cbn [bind].
    rewrite new_BaselineResult_returns by exact Hwin.
    eexists. split; [reflexivity|]. intros _. eexists. reflexivity.
Qed.

Lemma detect_anomalies_returns (feature model : string)
    (baseline : BaselineResult) (current_event : LLMUsageEvent) :
  stored_event current_event ->
  (state baseline = WARM -> exists m, metrics baseline = Some m) ->
  exists l,
    Anomaly.detect_anomalies feature model baseline current_event = Ok l.
Proof.
  intros [(c & Hc & _) [(t & Ht & _) (r & Hr)]] Hm.
  unfold Anomaly.detect_anomalies.
  destruct (state baseline); [eexists; reflexivity|].
  destruct (Hm eq_refl) as (m & Hmm).
  rewrite Hc, Ht, Hr, Hmm. eexists. reflexivity.
Qed.

Lemma simulate_enforcement_returns (feature model : string)
    (config : Guardrails.GuardrailConfig) (baseline : BaselineResult)
    (current_event : LLMUsageEvent) (anomalies : list Anomaly.AnomalyEvent) :
  stored_event current_event ->
  exists vs,
    _simulate_enforcement feature model config baseline current_event
      anomalies = Ok vs.
Proof.
  intros [(c & Hc & _) _].
  unfold _simulate_enforcement.
  destruct (state baseline); [eexists; reflexivity|].
  destruct (run_checks_tracks feature model config baseline current_event
              anomalies dry_run_budget c Hc) as ([a m] & Hrun & _).
  unfold Guardrails.enforce_guardrails. rewrite Hrun. cbn [bind].
  destruct a; eexists; reflexivity.
Qed.

Lemma simulate_group_returns (config : Guardrails.GuardrailConfig)
    (key : string * string) (feature_events : list LLMUsageEvent) :
  feature_events <> [] -> Forall stored_event feature_events ->
  exists fr, simulate_group config (key, feature_events) = Ok fr.
Proof.
  intros Hne Hst. destruct key as [feature_name model].
  unfold simulate_group, latest_event.
  destruct feature_events as [|e0 rest]; [congruence|].
  set (feature_events := e0 :: rest) in *.
  rewrite (getitem_last feature_events e0 Hne). cbn [bind].
  assert (Hlast : stored_event (last feature_events e0)).
  { rewrite Forall_forall in Hst. apply Hst.
    destruct (exists_last Hne) as (l' & a & Heq).
    rewrite Heq, last_last. apply in_or_app. right. now left. }
  destruct (create_baseline_returns feature_events Hne Hst)
    as (bl & Hbl & Hm).
  rewrite Hbl. cbn [bind].
  assert (Han : exists an,
             match state bl with
             | WARM => Anomaly.detect_anomalies feature_name model bl
                         (last feature_events e0)
             | COLD => Ok []
             end = Ok an).
  { destruct (state bl) eqn:Est; [eexists; reflexivity|].
    apply detect_anomalies_returns; [exact Hlast|].
    intros _. now apply Hm. }
  destruct Han as (an & Han). rewrite Han. cbn [bind].
  destruct (simulate_enforcement_returns feature_name model config bl
              (last feature_events e0) an Hlast) as (vs & Hvs).
  rewrite Hvs. cbn [bind].
  destruct (all_present_map estimated_cost feature_events)
    as (costs & Hcosts & _).
  { intros e He. rewrite Forall_forall in Hst.
    destruct (Hst e He) as [(c & Hc & _) _]. eauto. }
  rewrite Hcosts. cbn [bind]. eexists. reflexivity.
Qed.

(** *** Grouping *)

Lemma setdefault_append_In (d : list ((string * string) * list LLMUsageEvent))
    (key : string * string) (e : LLMUsageEvent)
    (k : string * string) (l : list LLMUsageEvent) :
  In (k, l) (setdefault_append d key e) ->
  In (k, l) d \/ l = [e] \/ exists l0, In (k, l0) d /\ l = l0 ++ [e].
Proof.
  induction d as [|[k0 l0] d IH]; simpl.
  - intros [[= <- <-] | []]. right. now left.
  - destruct (key_eqb k0 key).
    + intros [[= <- <-] | Hin].
      * right. right. exists l0. split; [now left | reflexivity].
      * left. now right.
    + intros [[= <- <-] | Hin].
      * left. now left.
      * destruct (IH Hin) as [H | [H | (l1 & H1 & H2)]].
        -- left. now right.
        -- right. now left.
        -- right. right. exists l1. split; [now right | exact H2].
Qed.

(** A property of a group that holds when the group is opened and is kept
    by every later event, appended to the group or not, holds of every
    group. *)
Lemma group_events_invariant
    (Q : list LLMUsageEvent -> list LLMUsageEvent -> Prop) :
  (forall seen e, Q (seen ++ [e]) [e]) ->
  (forall seen e l, Q seen l -> Q (seen ++ [e]) (l ++ [e])) ->
  (forall seen e l, Q seen l -> Q (seen ++ [e]) l) ->
  forall events k l, In (k, l) (group_events events) -> Q events l.
Proof.
  intros Hopen Happend Hkeep events.
  induction events as [|e events IH] using rev_ind; intros k l Hin.
  - destruct Hin.
  - unfold group_events in Hin. rewrite fold_left_app in Hin.
    simpl in Hin.
    apply setdefault_append_In in Hin as [H | [-> | (l0 & H0 & ->)]].
    + apply Hkeep. eapply IH. exact H.
    + apply Hopen.
    + apply Happend. eapply IH. exact H0.
Qed.

Lemma StronglySorted_app_inv {A : Type} (R : A -> A -> Prop)
    (l1 l2 : list A) :
  StronglySorted R (l1 ++ l2) ->
  StronglySorted R l1 /\ forall x y, In x l1 -> In y l2 -> R x y.
Proof.
  induction l1 as [|a l1 IH]; simpl; intros H.
  - split; [constructor | intros x y []].
  - inversion H as [|? ? Hs Hall]; subst.
    destruct (IH Hs) as [IH1 IH2].
    rewrite Forall_forall in Hall.
    split.
    + constructor; [exact IH1|].
      rewrite Forall_forall. intros x Hx. apply Hall.
      apply in_or_app. now left.
    + intros x y [<- | Hx] Hy.
      * apply Hall. apply in_or_app. now right.
      * now apply IH2.
Qed.

Lemma StronglySorted_snoc {A : Type} (R : A -> A -> Prop) (l : list A)
    (e : A) :
  StronglySorted R l -> (forall x, In x l -> R x e) ->
  StronglySorted R (l ++ [e]).
Proof.
  induction 1 as [|a l Hs IH Ha]; simpl; intros He.
  - repeat constructor.
  - constructor.
    + apply IH. intros x Hx. apply He. now right.
    + rewrite Forall_forall in *. intros x Hx.
      apply in_app_or in Hx as [Hx | [<- | []]].
      * now apply Ha.
      * apply He. now left.
Qed.

(** Every group is non-empty, made of fetched events, and lists them in
    the order in which they were fetched. *)
Lemma group_events_groups (events : list LLMUsageEvent)
    (k : string * string) (l : list LLMUsageEvent) :
  In (k, l) (group_events events) ->
  l <> [] /\ (forall e, In e l -> In e events) /\
  (BaselineSpec.newest_first_order events ->
   BaselineSpec.newest_first_order l).
Proof.
  apply (group_events_invariant
           (fun seen l =>
              l <> [] /\ (forall e, In e l -> In e seen) /\
              (BaselineSpec.newest_first_order seen ->
               BaselineSpec.newest_first_order l))).
  - intros seen e. split; [discriminate|]. split.
    + intros x [<- | []]. apply in_or_app. right. now left.
    + intros _. repeat constructor.
  - intros seen e l0 (Hne & Hincl & Hord). split; [|split].
    + destruct l0; discriminate.
    + intros x Hx. apply in_app_or in Hx as [Hx | Hx];
        apply in_or_app; [left; now apply Hincl | now right].
    + intros Hs. apply StronglySorted_app_inv in Hs as [Hs1 Hs2].
      apply StronglySorted_snoc; [now apply Hord|].
      intros x Hx. apply Hs2; [now apply Hincl | now left].
  - intros seen e l0 (Hne & Hincl & Hord). split; [exact Hne|]. split.
    + intros x Hx. apply in_or_app. left. now apply Hincl.
    + intros Hs. apply StronglySorted_app_inv in Hs as [Hs1 _].
      now apply Hord.
Qed.

Lemma get_recent_events_fetched (rows : list LLMUsageEvent) (now : Z)
    (feature model : option string) (days : option Z) (limit : Z) :
  exists events,
    Repository.get_recent_events (Repository.Table rows) now feature model
      days limit = Ok events /\
    (forall e, In e events -> In e rows) /\
    BaselineSpec.newest_first_order events.
Proof.
  unfold Repository.get_recent_events. cbv zeta.
  set (selected := filter _ rows).
  assert (Hsel : forall e, In e (sorted newest_first selected) -> In e rows).
  { intros e He. apply (proj1 (sorted_In newest_first e selected)) in He.
    unfold selected in He. now apply filter_In in He as [He _]. }
  eexists. split; [reflexivity|].
  destruct (limit <? 0).
  - split; [exact Hsel | apply sorted_newest_first_order].
  - split.
    + intros e He. apply Hsel. eapply firstn_incl. exact He.
    + apply StronglySorted_firstn. apply sorted_newest_first_order.
Qed.

Lemma mapM_returns {A B : Type} (f : A -> result B) (l : list A) :
  (forall x, In x l -> exists y, f x = Ok y) ->
  exists ys, mapM f l = Ok ys.
Proof.
  induction l as [|x l IH]; intros Hf; simpl.
  - eexists. reflexivity.
  - destruct (Hf x (or_introl eq_refl)) as (y & Hy). rewrite Hy.
    destruct IH as (ys & Hys).
    { intros x' Hx'. apply Hf. now right. }
    rewrite Hys. eexists. reflexivity.
Qed.

(** On a readable ledger of stored events the harness returns a result. *)
Lemma simulate_cost_impact_returns (now : Z) (feature : option string)
    (config : Guardrails.GuardrailConfig)
    (repository : Repository.UsageRepository) :
  stored_events repository -> repository <> Repository.Unreadable ->
  exists result, simulate_cost_impact now feature config repository
                 = Ok result.
Proof.
  intros Hst Hread. unfold simulate_cost_impact.
  destruct repository as [rows| |]; [| |congruence].
  - destruct (get_recent_events_fetched rows now feature None (Some 30) 1000)
      as (events & Hev & Hincl & _).
    rewrite Hev.
    destruct events as [|e0 events']; [eexists; reflexivity|].
    destruct (mapM_returns (simulate_group config)
                (group_events (e0 :: events'))) as (results & Hres).
    { intros [k l] Hin.
      destruct (group_events_groups _ k l Hin) as (Hne & Hsub & _).
      apply simulate_group_returns; [exact Hne|].
      simpl in Hst. rewrite Forall_forall in *.
      intros e He. apply Hst, Hincl, Hsub, He. }
    rewrite Hres. cbn [bind]. eexists. reflexivity.
  - eexists. reflexivity.
Qed.

End SimulationFacts.

Section SimulationClaims.
Import Simulation SimulationSpec.

(** What the result of a group holds: the violations are what
    [_simulate_enforcement] gave for the group's baseline, representative
    event and anomalies. *)
Lemma simulate_group_inv (config : Guardrails.GuardrailConfig)
    (feature_name model : string) (feature_events : list LLMUsageEvent)
    (fr : FeatureSimulationResult) :
  simulate_group config ((feature_name, model), feature_events) = Ok fr ->
  exists representative baseline,
    latest_event feature_events = Ok representative /\
    _create_baseline_from_events feature_events = Ok baseline /\
    match state baseline with
    | WARM => Anomaly.detect_anomalies feature_name model baseline
                representative
    | COLD => Ok []
    end = Ok (anomalies fr) /\
    _simulate_enforcement feature_name model config baseline representative
      (anomalies fr) = Ok (violations fr).
Proof.
  unfold simulate_group.
  destruct (latest_event feature_events) as [rep|]; [|discriminate].
  cbn [bind].
  destruct (_create_baseline_from_events feature_events) as [bl|];
    [|discriminate].
  cbn [bind].
  destruct (match state bl with
            | COLD => Ok []
            | WARM => Anomaly.detect_anomalies feature_name model bl rep
            end) as [an|] eqn:Han; [|discriminate].
  cbn [bind].
  destruct (_simulate_enforcement feature_name model config bl rep an)
    as [vs|] eqn:Hvs; [|discriminate].
  cbn [bind].
  destruct (all_present _); [|discriminate].
  cbn [bind]. intros [= <-]. cbn [anomalies violations].
  exists rep, bl. repeat split; assumption.
Qed.

(** C8 as stated fails on the code: a group of fewer than 3 events has a
    COLD baseline, and for a COLD baseline enforcement is not run at all.
    A single stored call of cost 3.0 under a ceiling of 2.0 would raise a
    BLOCK violation in the dry run; the group records no violation. *)
Lemma simulation_skips_enforcement_of_cold_group :
  exists baseline fr msg,
    _create_baseline_from_events [Examples.single_call] = Ok baseline /\
    state baseline = COLD /\
    Guardrails.enforce_guardrails "summary" "gpt-4"
      (Examples.ceiling_config 2) baseline Examples.single_call []
      dry_run_budget = Raise (GuardrailViolation msg BLOCK) /\
    simulate_group (Examples.ceiling_config 2)
      (("summary", "gpt-4"), [Examples.single_call]) = Ok fr /\
    violations fr = [] /\
    ~ enforcement_is_run "summary" "gpt-4" (Examples.ceiling_config 2)
        baseline Examples.single_call [].
Proof.
  do 3 eexists.
  split; [vm_compute; reflexivity|].
  split; [reflexivity|].
  split; [vm_compute; reflexivity|].
  split; [vm_compute; reflexivity|].
  split; [reflexivity|].
  unfold enforcement_is_run. vm_compute. discriminate.
Qed.

(** C8, amended.  For a group whose baseline is WARM the enforcement is run
    in dry-run mode against a budget state with unlimited remaining amount,
    so that the budget check contributes no candidate; its outcome is
    recorded: a raised violation as the pair of its action and message, a
    returned action other than ALLOW as a pair too.  For a group whose
    baseline is COLD the enforcement is not run and nothing is recorded.
    The violations of a group's result are the ones so recorded.  No call of
    [simulate_cost_impact] ends in a guardrail violation, and on a readable
    ledger of stored events it returns a result. *)
Theorem simulation_records_violations_of_warm_groups :
  (forall (feature model : string) (config : Guardrails.GuardrailConfig)
          (baseline : BaselineResult) (current_event : LLMUsageEvent)
          (anomalies : list Anomaly.AnomalyEvent),
     (state baseline = WARM ->
      enforcement_is_run feature model config baseline current_event
        anomalies /\
      forall msg action,
        Guardrails.enforce_guardrails feature model config baseline
          current_event anomalies dry_run_budget
        = Raise (GuardrailViolation msg action) ->
        _simulate_enforcement feature model config baseline current_event
          anomalies = Ok [(action, msg)]) /\
     (state baseline = COLD ->
      _simulate_enforcement feature model config baseline current_event
        anomalies = Ok []) /\
     Guardrails.amount_remaining dry_run_budget = Infinity /\
     GuardrailSpec.budget_candidate feature config dry_run_budget = [] /\
     no_violation
       (_simulate_enforcement feature model config baseline current_event
          anomalies)) /\
  (forall (config : Guardrails.GuardrailConfig) (feature_name model : string)
          (feature_events : list LLMUsageEvent)
          (fr : FeatureSimulationResult),
     simulate_group config ((feature_name, model), feature_events) = Ok fr ->
     exists representative baseline,
       latest_event feature_events = Ok representative /\
       _create_baseline_from_events feature_events = Ok baseline /\
       _simulate_enforcement feature_name model config baseline
         representative (Simulation.anomalies fr) = Ok (violations fr)) /\
  (forall (now : Z) (feature : option string)
          (config : Guardrails.GuardrailConfig)
          (repository : Repository.UsageRepository),
     no_violation (simulate_cost_impact now feature config repository) /\
     (stored_events repository -> repository <> Repository.Unreadable ->
      exists result,
        simulate_cost_impact now feature config repository = Ok result)).
Proof.
  split; [|split].
  - intros feature model config baseline current_event anomalies.
    split; [|split; [|split; [|split]]].
    + intros Hwarm.
      pose proof (simulate_enforcement_warm feature model config baseline
                    current_event anomalies Hwarm) as Hrun.
      split; [exact Hrun|].
      intros msg action Hraise. rewrite Hrun, Hraise. reflexivity.
    + intros Hcold. unfold _simulate_enforcement. now rewrite Hcold.
    + reflexivity.
    + apply dry_run_budget_never_breached.
    + apply no_violation_simulate_enforcement.
  - intros config feature_name model feature_events fr Hfr.
    destruct (simulate_group_inv config feature_name model feature_events fr
                Hfr) as (rep & bl & Hrep & Hbl & _ & Hvs).
    exists rep, bl. repeat split; assumption.
  - intros now feature config repository. split.
    + apply no_violation_simulate_cost_impact.
    + apply simulate_cost_impact_returns.
Qed.

(** A WARM baseline and a cost of 2.0 under a ceiling of 1.0: the BLOCK
    violation is recorded. *)
Lemma simulation_records_violations_of_warm_groups_witness :
  exists msg,
    _simulate_enforcement "f" "m" (Examples.ceiling_config 1)
      (Examples.baseline WARM (2 # 10) 1000)
      (Examples.event 0 "f" "m" 100 2 1) [] = Ok [(BLOCK, msg)].
Proof.
  destruct simulation_records_violations_of_warm_groups as [H _].
  destruct (H "f" "m" (Examples.ceiling_config 1)
              (Examples.baseline WARM (2 # 10) 1000)
              (Examples.event 0 "f" "m" 100 2 1) []) as (Hwarm & _).
  destruct (Hwarm eq_refl) as (_ & Hrec).
  eexists. apply Hrec. reflexivity.
Defined.

(** Three stored calls at 3.0 under a ceiling of 2.0, as in
    [test_simulate_cost_impact_fail_verdict]: the BLOCK violation is
    recorded and the verdict is FAIL. *)
Example simulate_cost_impact_fail_verdict :
  exists result,
    simulate_cost_impact Examples.noon None (Examples.ceiling_config 2)
      (Repository.Table
         [Examples.event (Examples.noon - 3) "f" "m" 100 3 0;
          Examples.event (Examples.noon - 2) "f" "m" 100 3 0;
          Examples.event (Examples.noon - 1) "f" "m" 100 3 0]) = Ok result /\
    overall_verdict result = FAIL /\
    map (fun fr => map fst (violations fr)) (per_feature_results result)
      = [[BLOCK]].
Proof.
  eexists. split; [vm_compute; reflexivity|]. split; reflexivity.
Qed.

Example simulate_cost_impact_no_table :
  simulate_cost_impact Examples.noon None Guardrails.default_GuardrailConfig
    Repository.NoTable = Ok empty_result.
Proof. reflexivity. Qed.

(** C2 fails on the code.  [get_recent_events] returns the rows newest
    first, grouping keeps that order, and the harness takes the last event
    of the group: with the real repository the representative is the oldest
    event of the group.  For the ledger of three calls the representative is
    the first call (cost 1.0) and the verdict under a ceiling of 2.0 is
    PASS, although the most recently inserted call costs 3.0 and would be
    blocked. *)
Theorem simulation_representative_is_oldest_event :
  (forall (rows : list LLMUsageEvent) (now : Z) (feature : option string)
          (events : list LLMUsageEvent) (key : string * string)
          (group : list LLMUsageEvent),
     Repository.get_recent_events (Repository.Table rows) now feature None
       (Some 30) 1000 = Ok events ->
     In (key, group) (group_events events) ->
     exists representative,
       latest_event group = Ok representative /\
       In representative group /\
       forall e, In e group -> timestamp representative <= timestamp e) /\
  (exists events group result baseline msg,
     Repository.get_recent_events Examples.ledger Examples.noon None None
       (Some 30) 1000 = Ok events /\
     events = [Examples.third_call; Examples.second_call;
               Examples.first_call] /\
     group_events events = [(("summary", "gpt-4"), group)] /\
     latest_event group = Ok Examples.first_call /\
     simulate_cost_impact Examples.noon None (Examples.ceiling_config 2)
       Examples.ledger = Ok result /\
     overall_verdict result = PASS /\
     _create_baseline_from_events group = Ok baseline /\
     _simulate_enforcement "summary" "gpt-4" (Examples.ceiling_config 2)
       baseline Examples.third_call [] = Ok [(BLOCK, msg)]).
Proof.
  split.
  - intros rows now feature events key group Hfetch Hin.
    destruct (get_recent_events_fetched rows now feature None (Some 30) 1000)
      as (events' & Hev & _ & Hord).
    rewrite Hfetch in Hev. injection Hev as <-.
    destruct (group_events_groups events key group Hin)
      as (Hne & _ & Hgord).
    specialize (Hgord Hord).
    destruct (exists_last Hne) as (l' & rep & ->).
    exists rep. split; [|split].
    + unfold latest_event.
      rewrite (getitem_last (l' ++ [rep]) rep Hne). now rewrite last_last.
    + apply in_or_app. right. now left.
    + intros e He.
      apply StronglySorted_app_inv in Hgord as [_ Hle].
      apply in_app_or in He as [He | [<- | []]]; [|lia].
      apply (Hle e rep He). now left.
  - do 5 eexists.
    split; [vm_compute; reflexivity|].
    split; [reflexivity|].
    split; [vm_compute; reflexivity|].
    split; [reflexivity|].
    split; [vm_compute; reflexivity|].
    split; [reflexivity|].
    split; [vm_compute; reflexivity|].
    vm_compute. reflexivity.
Qed.

End SimulationClaims.

(** ** Pricing *)

Section PricingClaims.
Import Pricing PricingSpec.

Lemma lookup_in_table (model : string) (pricing : ModelPricing) :
  in_table model pricing -> lookup PRICING_TABLE model = Some pricing.
Proof.
  unfold in_table, PRICING_TABLE.
  intros [[= <- <-] | [[= <- <-] | [[= <- <-] | []]]]; reflexivity.
Qed.

Lemma lookup_not_in_table (model : string) :
  not_in_table model -> lookup PRICING_TABLE model = None.
Proof.
  unfold not_in_table, lookup, PRICING_TABLE.
  cbn [map fst In find]. intros Hnot.
  destruct (String.eqb_spec "gpt-4" model); [tauto|].
  destruct (String.eqb_spec "gpt-3.5-turbo" model); [tauto|].
  destruct (String.eqb_spec "claude-3-opus" model); [tauto|].
  reflexivity.
Qed.






(** The runs of [TestCostCalculation]. *)
Example rounding_up_edge_case :
  exists cost,
    calculate_cost "gpt-3.5-turbo"
      {| prompt_tokens := 667; completion_tokens := 0 |} = Ok cost /\
    (cost == 101 # 100)%Q.
Proof. eexists. split; [vm_compute; reflexivity | reflexivity]. Qed.

Example fractional_token_calculation :
  exists cost,
    calculate_cost "gpt-3.5-turbo"
      {| prompt_tokens := 333; completion_tokens := 667 |} = Ok cost /\
    (cost == 184 # 100)%Q.
Proof. eexists. split; [vm_compute; reflexivity | reflexivity]. Qed.

Example exact_cost_gpt4 :
  exists cost,
    calculate_cost "gpt-4"
      {| prompt_tokens := 1000; completion_tokens := 500 |} = Ok cost /\
    (cost == 60)%Q.
Proof. eexists. split; [vm_compute; reflexivity | reflexivity]. Qed.

Example unknown_model_error :
  calculate_cost "unknown-model"
    {| prompt_tokens := 100; completion_tokens := 50 |}
  = Raise (ValueError [Lit "Unsupported model: "; Str "unknown-model"]).
Proof. reflexivity. Qed.

End PricingClaims.

(* ===================================================================== *)
(** * Part IV: further properties of the code                             *)
(* ===================================================================== *)

(** ** Guardrails: what decides the message and the action *)

Section GuardrailMore.
Import Guardrails GuardrailSpec.

Lemma severity_rank_inj (a b : EnforcementAction) :
  severity_rank a = severity_rank b -> a = b.
Proof. destruct a, b; simpl; intros H; solve [reflexivity | discriminate]. Qed.

Lemma anomaly_candidates_incl (feature model : string)
    (config : GuardrailConfig) (baseline : BaselineResult)
    (l l' : list Anomaly.AnomalyEvent) :
  incl l l' ->
  incl (anomaly_candidates feature model config baseline l)
       (anomaly_candidates feature model config baseline l').
Proof.
  intros Hincl c Hc. unfold anomaly_candidates in *.
  destruct (state baseline); [exact Hc|].
  apply in_map_iff in Hc as (a & <- & Ha).
  apply in_map. now apply Hincl.
Qed.

Lemma most_severe_incl (a a' : EnforcementAction)
    (cands cands' : list (EnforcementAction * message)) :
  is_most_severe a cands -> is_most_severe a' cands' ->
  incl cands cands' -> at_most_as_severe a a'.
Proof.
  intros [_ Hin] [Hmax' _] Hincl.
  destruct Hin as [Hin | ->].
  - apply in_map_iff in Hin as (c & <- & Hc).
    apply Hmax'. now apply Hincl.
  - unfold at_most_as_severe. simpl. lia.
Qed.

(** When the cost is above the per-request ceiling, the call raises the
    BLOCK violation with the message of the ceiling check, whatever the
    budget state, the anomalies and the configured actions are: a later
    check of equal severity does not replace the message. *)
Theorem ceiling_breach_raises_with_ceiling_message
    (feature model : string) (config : GuardrailConfig)
    (baseline : BaselineResult) (current_event : LLMUsageEvent)
    (anomalies : list Anomaly.AnomalyEvent) (budget_state : BudgetState)
    (limit cost : Q) :
  max_cost_per_request config = Some limit ->
  estimated_cost current_event = Some cost ->
  (limit < cost)%Q ->
  enforce_guardrails feature model config baseline current_event anomalies
    budget_state
  = Raise (GuardrailViolation
             [Lit "Request cost $"; Fixed 4 cost;
              Lit " exceeds maximum allowed $"; Fixed 4 limit;
              Lit " for "; Str feature; Lit "/"; Str model]
             BLOCK).
Proof.
  intros Hlimit Hcost Hlt.
  destruct (run_checks_tracks feature model config baseline current_event
              anomalies budget_state cost Hcost)
    as ([a m] & Hrun & [[Hmax _] Hfirst]).
  simpl in Hmax, Hfirst.
  unfold enforce_guardrails. rewrite Hrun. cbn [bind].
  unfold candidates, ceiling_candidate in Hmax, Hfirst.
  rewrite Hlimit, Hcost in Hmax, Hfirst.
  apply Qgtb_true_iff in Hlt. rewrite Hlt in Hmax, Hfirst.
  simpl app in Hmax, Hfirst.
  assert (Ha : a = BLOCK).
  { specialize (Hmax _ (or_introl eq_refl)).
    unfold at_most_as_severe in Hmax. simpl in Hmax.
    destruct a; simpl in Hmax; solve [reflexivity | lia]. }
  subst a.
  destruct Hfirst as [[Hallow _] | (_ & before & after & Heq & Hbefore)];
    [discriminate|].
  destruct before as [|b before].
  - simpl in Heq. injection Heq as <- _. reflexivity.
  - simpl in Heq. injection Heq as <- _.
    specialize (Hbefore _ (or_introl eq_refl)).
    unfold less_severe in Hbefore. simpl in Hbefore. lia.
Qed.

(** The ceiling, the budget and a critical anomaly all ask for BLOCK, as in
    [test_enforcement_order_max_cost_first]. *)
Lemma ceiling_breach_raises_with_ceiling_message_witness :
  enforce_guardrails "f" "m"
    {| max_cost_per_request := Some 1%Q; budget_limit := Some 100%Q;
       on_budget_breach := BLOCK; on_critical_anomaly := BLOCK;
       on_warning_anomaly := Py.WARN |}
    (Examples.baseline WARM (2 # 10) 1000)
    (Examples.event 0 "f" "m" 100 2 1)
    [Examples.critical_anomaly] (Examples.budget 100 0)
  = Raise (GuardrailViolation
             [Lit "Request cost $"; Fixed 4 2;
              Lit " exceeds maximum allowed $"; Fixed 4 1;
              Lit " for "; Str "f"; Lit "/"; Str "m"]
             BLOCK).
Proof.
  exact (ceiling_breach_raises_with_ceiling_message "f" "m"
           {| max_cost_per_request := Some 1%Q; budget_limit := Some 100%Q;
              on_budget_breach := BLOCK; on_critical_anomaly := BLOCK;
              on_warning_anomaly := Py.WARN |}
           (Examples.baseline WARM (2 # 10) 1000)
           (Examples.event 0 "f" "m" 100 2 1)
           [Examples.critical_anomaly] (Examples.budget 100 0) 1 2
           eq_refl eq_refl eq_refl).
Defined.

(** The resolved action grows with the anomalies: if every anomaly of one
    list is in the other, the second call resolves to an action at least as
    severe; two lists with the same anomalies, in any order and with any
    repetition, resolve to the same action. *)
Theorem resolved_action_grows_with_anomalies
    (feature model : string) (config : GuardrailConfig)
    (baseline : BaselineResult) (current_event : LLMUsageEvent)
    (anomalies anomalies' : list Anomaly.AnomalyEvent)
    (budget_state : BudgetState) (cost : Q) :
  estimated_cost current_event = Some cost ->
  incl anomalies anomalies' ->
  exists a a',
    resolved_action
      (enforce_guardrails feature model config baseline current_event
         anomalies budget_state) = Some a /\
    resolved_action
      (enforce_guardrails feature model config baseline current_event
         anomalies' budget_state) = Some a' /\
    at_most_as_severe a a' /\
    (incl anomalies' anomalies -> a = a').
Proof.
  intros Hcost Hincl.
  destruct (run_checks_tracks feature model config baseline current_event
              anomalies budget_state cost Hcost)
    as ([a m] & Hrun & [Hms _]).
  destruct (run_checks_tracks feature model config baseline current_event
              anomalies' budget_state cost Hcost)
    as ([a' m'] & Hrun' & [Hms' _]).
  simpl in Hms, Hms'.
  exists a, a'.
  assert (Hc : forall l l', incl l l' ->
             incl (candidates feature model config baseline current_event l
                     budget_state)
                  (candidates feature model config baseline current_event l'
                     budget_state)).
  { intros l l' Hl c Hin. unfold candidates in *.
    apply in_app_or in Hin as [Hin | Hin];
      [apply in_or_app; now left|].
    apply in_app_or in Hin as [Hin | Hin];
      apply in_or_app; right; apply in_or_app; [now left | right].
    eapply anomaly_candidates_incl; eassumption. }
  split; [|split; [|split]].
  - unfold enforce_guardrails. rewrite Hrun. cbn [bind].
    destruct a; reflexivity.
  - unfold enforce_guardrails. rewrite Hrun'. cbn [bind].
    destruct a'; reflexivity.
  - exact (most_severe_incl a a' _ _ Hms Hms' (Hc _ _ Hincl)).
  - intros Hincl'.
    pose proof (most_severe_incl a a' _ _ Hms Hms' (Hc _ _ Hincl)) as H1.
    pose proof (most_severe_incl a' a _ _ Hms' Hms (Hc _ _ Hincl')) as H2.
    apply severity_rank_inj. unfold at_most_as_severe in *. lia.
Qed.

(** A warning anomaly before or after a critical one. *)
Lemma resolved_action_grows_with_anomalies_witness :
  exists a,
    resolved_action
      (enforce_guardrails "f" "m" default_GuardrailConfig
         (Examples.baseline WARM (2 # 10) 1000)
         (Examples.event 0 "f" "m" 100 (1 # 10) 1)
         [Examples.warning_anomaly; Examples.critical_anomaly]
         (Examples.budget 0 100)) = Some a /\
    resolved_action
      (enforce_guardrails "f" "m" default_GuardrailConfig
         (Examples.baseline WARM (2 # 10) 1000)
         (Examples.event 0 "f" "m" 100 (1 # 10) 1)
         [Examples.critical_anomaly; Examples.warning_anomaly]
         (Examples.budget 0 100)) = Some a.
Proof.
  destruct (resolved_action_grows_with_anomalies "f" "m"
              default_GuardrailConfig
              (Examples.baseline WARM (2 # 10) 1000)
              (Examples.event 0 "f" "m" 100 (1 # 10) 1)
              [Examples.warning_anomaly; Examples.critical_anomaly]
              [Examples.critical_anomaly; Examples.warning_anomaly]
              (Examples.budget 0 100) (1 # 10) eq_refl)
    as (a & a' & Ha & Ha' & _ & Heq).
  - intros x [<- | [<- | []]]; simpl; auto.
  - exists a. split; [exact Ha|]. rewrite Heq; [exact Ha'|].
    intros x [<- | [<- | []]]; simpl; auto.
Defined.

End GuardrailMore.

(** ** Anomaly detection: the shape of the result, and its errors *)

Section AnomalyMore.
Import Anomaly AnomalySpec.

(** Every anomaly of a returned list names the feature and model of the
    call and has an observed value strictly above its threshold; the rules
    are reported in the order A, B, C, each at most once. *)
Theorem detect_anomalies_reports_in_rule_order
    (feature model : string) (baseline : BaselineResult)
    (current_event : LLMUsageEvent) (l : list AnomalyEvent) :
  detect_anomalies feature model baseline current_event = Ok l ->
  (exists a b c : bool,
     map rule l = (if a then ["A"] else []) ++ (if b then ["B"] else [])
                  ++ (if c then ["C"] else [])) /\
  (forall x, In x l ->
     Anomaly.feature x = feature /\ Anomaly.model x = model /\
     (threshold x < observed_value x)%Q /\
     (severity x = CRITICAL <-> rule x = "A")).
Proof.
  unfold detect_anomalies.
  destruct (state baseline).
  { intros [= <-]. split; [exists false, false, false; reflexivity|].
    intros x []. }
  destruct (estimated_cost current_event) as [cost|]; [|discriminate].
  destruct (total_tokens current_event) as [tokens|]; [|discriminate].
  destruct (retry_count current_event) as [retries|]; [|discriminate].
  destruct (metrics baseline) as [m|]; [|discriminate].
  destruct (Qgtb cost (p90_cost m * (15 # 10))) eqn:EA;
    destruct (Qgtb (inject_Z tokens)
                (inject_Z (median_tokens m) * (17 # 10))) eqn:EB;
    destruct (1 <? retries);
    try destruct (Qgtb (cost * inject_Z retries)
                    (p90_cost m * (13 # 10))) eqn:EC;
    try apply Qgtb_true_iff in EA; try apply Qgtb_true_iff in EB;
    try apply Qgtb_true_iff in EC;
    intros [= <-];
    (split;
     [ first [ exists true, true, true; reflexivity
             | exists true, true, false; reflexivity
             | exists true, false, true; reflexivity
             | exists true, false, false; reflexivity
             | exists false, true, true; reflexivity
             | exists false, true, false; reflexivity
             | exists false, false, true; reflexivity
             | exists false, false, false; reflexivity ]
     | intros x Hx; simpl in Hx;
       repeat (destruct Hx as [<- | Hx];
               [ simpl; repeat split; try assumption; try reflexivity;
                 intros; discriminate |]);
       destruct Hx ]).
Qed.

(** The three rules fire together. *)
Lemma detect_anomalies_reports_in_rule_order_witness :
  exists l,
    detect_anomalies "f" "m" (Examples.baseline WARM 10 1000)
      (Examples.event 0 "f" "m" 2000 20 2) = Ok l /\
    map rule l = ["A"; "B"; "C"] /\
    forall x, In x l -> (threshold x < observed_value x)%Q.
Proof.
  eexists. split; [reflexivity|].
  destruct (detect_anomalies_reports_in_rule_order "f" "m"
              (Examples.baseline WARM 10 1000)
              (Examples.event 0 "f" "m" 2000 20 2) _ eq_refl)
    as [_ Hall].
  split; [reflexivity|].
  intros x Hx. now destruct (Hall x Hx) as (_ & _ & H & _).
Defined.





End AnomalyMore.

(** ** Baseline: percentiles grow, old events do not count *)

Section SortedFilterFacts.
Context {A : Type} (leb : A -> A -> bool) (f : A -> bool).
Hypothesis leb_total : forall x y, leb x y = true \/ leb y x = true.
Hypothesis leb_trans :
  forall x y z, leb x y = true -> leb y z = true -> leb x z = true.

Lemma insert_sorted_front (x : A) (l : list A) :
  (forall z, In z l -> leb x z = true) -> insert_sorted leb x l = x :: l.
Proof.
  destruct l as [|y l]; simpl; [reflexivity|].
  intros H. now rewrite (H y (or_introl eq_refl)).
Qed.

Lemma filter_insert_sorted (x : A) (l : list A) :
  StronglySorted (fun a b => leb a b = true) l ->
  filter f (insert_sorted leb x l) =
  if f x then insert_sorted leb x (filter f l) else filter f l.
Proof.
  induction 1 as [|y l Hs IH Hy]; simpl.
  - destruct (f x); reflexivity.
  - rewrite Forall_forall in Hy.
    destruct (leb x y) eqn:Exy; simpl.
    + destruct (f x) eqn:Efx; destruct (f y) eqn:Efy; simpl;
        rewrite ?Exy; try reflexivity.
      rewrite insert_sorted_front; [reflexivity|].
      intros z Hz. apply filter_In in Hz as [Hz _].
      exact (leb_trans _ _ _ Exy (Hy z Hz)).
    + rewrite IH.
      destruct (f x) eqn:Efx; destruct (f y) eqn:Efy; simpl;
        rewrite ?Exy; reflexivity.
Qed.

(** A stable sort commutes with a filter. *)
Lemma filter_sorted (l : list A) :
  filter f (sorted leb l) = sorted leb (filter f l).
Proof.
  induction l as [|x l IH]; simpl; [reflexivity|].
  rewrite filter_insert_sorted
    by (apply sorted_ordered; assumption).
  rewrite IH. destruct (f x); reflexivity.
Qed.

End SortedFilterFacts.

Section BaselineMore.
Import BaselineSpec.

Lemma take_while_filter {A : Type} (R : A -> A -> Prop) (f : A -> bool)
    (l : list A) :
  (forall a b, R a b -> f b = true -> f a = true) ->
  StronglySorted R l -> take_while f l = filter f l.
Proof.
  intros Hmono. induction 1 as [|x l Hs IH Hx]; simpl; [reflexivity|].
  destruct (f x) eqn:Efx; [now rewrite IH|].
  symmetry. rewrite Forall_forall in Hx.
  destruct (filter f l) as [|z rest] eqn:E; [reflexivity|].
  assert (Hz : In z (filter f l)) by (rewrite E; now left).
  apply filter_In in Hz as [Hz Hfz].
  rewrite (Hmono x z (Hx z Hz) Hfz) in Efx. discriminate.
Qed.

Lemma filter_window_newest_in_window (now : Z)
    (events : list LLMUsageEvent) :
  filter_window now events =
    firstn 200 (sorted newest_first (filter (in_window now) events)).
Proof.
  rewrite filter_window_sample. unfold sample. f_equal.
  rewrite (take_while_filter
             (fun a b => timestamp b <= timestamp a) (in_window now)).
  - apply filter_sorted; [apply newest_first_total
                         | apply newest_first_trans].
  - intros a b Hab. unfold in_window. rewrite !Z.leb_le. lia.
  - apply sorted_newest_first_order.
Qed.

Lemma filter_window_within_window (now : Z) (events : list LLMUsageEvent) :
  Forall (fun e => now - timedelta_days 7 <= timestamp e)
         (filter_window now events).
Proof.
  rewrite filter_window_newest_in_window. apply Forall_forall. intros e He.
  apply firstn_incl in He.
  apply (proj1 (sorted_In newest_first e _)) in He.
  apply filter_In in He as [_ He]. unfold in_window in He.
  now apply Z.leb_le in He.
Qed.

(** The sample is made of the events of the last 7 days alone: it is the
    200 newest of them, whatever older events the input holds and wherever
    they stand in it. *)
Theorem sample_ignores_events_outside_window (now : Z)
    (events : list LLMUsageEvent) :
  filter_window now events =
    firstn 200 (sorted newest_first (filter (in_window now) events)) /\
  filter_window now events =
    filter_window now (filter (in_window now) events) /\
  Forall (fun e => now - timedelta_days 7 <= timestamp e)
         (filter_window now events).
Proof.
  split; [apply filter_window_newest_in_window|]. split.
  - rewrite (filter_window_newest_in_window now events),
      (filter_window_newest_in_window now (filter (in_window now) events)).
    f_equal. f_equal.
    induction events as [|e events IH]; simpl; [reflexivity|].
    destruct (in_window now e) eqn:E; simpl; rewrite ?E; congruence.
  - apply filter_window_within_window.
Qed.









End BaselineMore.

(** ** Simulation: verdict, harness baseline, grouping, totals *)

Section SimulationMore.
Import Simulation SimulationSpec MoreSpec.

Lemma verdict_flags_inner (vs : list (EnforcementAction * message))
    (flags : bool * bool) :
  let flags' :=
    fold_left
      (fun (flags : bool * bool) (v : EnforcementAction * message) =>
         match fst v with
         | BLOCK | THROTTLE => (true, snd flags)
         | Py.WARN => (fst flags, true)
         | _ => flags
         end) vs flags in
  (fst flags' = true <-> fst flags = true \/ exists v, In v vs /\ blocking v)
  /\
  (snd flags' = true <-> snd flags = true \/ exists v, In v vs /\ warning v).
Proof.
  revert flags. induction vs as [|v vs IH]; intros flags; cbn [fold_left].
  - split; (split; [intros H; now left | intros [H | (v & [] & _)]; exact H]).
  - specialize (IH (match fst v with
                    | BLOCK | THROTTLE => (true, snd flags)
                    | Py.WARN => (fst flags, true)
                    | _ => flags
                    end)).
    cbv zeta in IH. destruct IH as [IH1 IH2].
    split.
    + rewrite IH1. split.
      * intros [H | (w & Hw & Hb)].
        -- destruct v as [a msg]. unfold blocking.
           destruct a; simpl in H;
             first [ now left
                   | right; exists (BLOCK, msg); split;
                     [now left | now left]
                   | right; exists (THROTTLE, msg); split;
                     [now left | now right] ].
        -- right. exists w. split; [now right | exact Hb].
      * intros [H | (w & [<- | Hw] & Hb)].
        -- left. destruct (fst v); simpl; auto.
        -- left. destruct Hb as [-> | ->]; reflexivity.
        -- right. exists w. split; assumption.
    + rewrite IH2. split.
      * intros [H | (w & Hw & Hb)].
        -- destruct v as [a msg]. unfold warning.
           destruct a; simpl in H;
             first [ now left
                   | right; exists (Py.WARN, msg); split;
                     [now left | reflexivity] ].
        -- right. exists w. split; [now right | exact Hb].
      * intros [H | (w & [<- | Hw] & Hb)].
        -- left. destruct (fst v); simpl; auto.
        -- left. unfold warning in Hb. rewrite Hb. reflexivity.
        -- right. exists w. split; assumption.
Qed.

Lemma verdict_flags_outer (results : list FeatureSimulationResult)
    (flags : bool * bool) :
  let flags' :=
    fold_left
      (fun flags result =>
         fold_left
           (fun (flags : bool * bool) (v : EnforcementAction * message) =>
              match fst v with
              | BLOCK | THROTTLE => (true, snd flags)
              | Py.WARN => (fst flags, true)
              | _ => flags
              end)
           (violations result) flags)
      results flags in
  (fst flags' = true <-> fst flags = true \/ some_violation blocking results)
  /\
  (snd flags' = true <-> snd flags = true \/ some_violation warning results).
Proof.
  revert flags. induction results as [|fr results IH]; intros flags;
    cbn [fold_left].
  - split; (split; [intros H; now left
                   | intros [H | (fr & v & [] & _)]; exact H]).
  - match goal with
    | |- context [fold_left _ results ?f0] => specialize (IH f0)
    end.
    cbv zeta in IH. destruct IH as [IH1 IH2].
    destruct (verdict_flags_inner (violations fr) flags) as [In1 In2].
    cbv zeta in In1, In2.
    split.
    + rewrite IH1, In1. unfold some_violation. split.
      * intros [[H | (v & Hv & Hb)] | (fr' & v & Hfr & Hv & Hb)].
        -- now left.
        -- right. exists fr, v. repeat split; [now left | | ]; assumption.
        -- right. exists fr', v. repeat split; [now right | | ]; assumption.
      * intros [H | (fr' & v & [<- | Hfr] & Hv & Hb)].
        -- left. now left.
        -- left. right. exists v. split; assumption.
        -- right. exists fr', v. repeat split; assumption.
    + rewrite IH2, In2. unfold some_violation. split.
      * intros [[H | (v & Hv & Hb)] | (fr' & v & Hfr & Hv & Hb)].
        -- now left.
        -- right. exists fr, v. repeat split; [now left | | ]; assumption.
        -- right. exists fr', v. repeat split; [now right | | ]; assumption.
      * intros [H | (fr' & v & [<- | Hfr] & Hv & Hb)].
        -- left. now left.
        -- left. right. exists v. split; assumption.
        -- right. exists fr', v. repeat split; assumption.
Qed.

(** The overall verdict is FAIL exactly when some group recorded a BLOCK or
    THROTTLE violation, WARN exactly when none did and some group recorded
    a WARN violation, and PASS otherwise: a recorded DOWNGRADE alone leaves
    the verdict at PASS. *)
Theorem overall_verdict_reads_violations
    (results : list FeatureSimulationResult) :
  (_determine_overall_verdict results = FAIL <->
   some_violation blocking results) /\
  (_determine_overall_verdict results = WARN <->
   ~ some_violation blocking results /\ some_violation warning results) /\
  (_determine_overall_verdict results = PASS <->
   ~ some_violation blocking results /\ ~ some_violation warning results).
Proof.
  unfold _determine_overall_verdict.
  destruct (verdict_flags_outer results (false, false)) as [H1 H2].
  cbv zeta in H1, H2 |- *.
  match goal with
  | |- context [fold_left ?f results (false, false)] =>
      set (flags := fold_left f results (false, false)) in *
  end.
  assert (Hb : fst flags = true <-> some_violation blocking results).
  { rewrite H1. simpl. intuition discriminate. }
  assert (Hw : snd flags = true <-> some_violation warning results).
  { rewrite H2. simpl. intuition discriminate. }
  destruct (fst flags); destruct (snd flags);
    repeat split; intros; try discriminate; intuition discriminate.
Qed.

Lemma min_of_lower (l : list Z) (x t : Z) :
  t = x \/ In t l -> min_of x l <= t.
Proof.
  unfold min_of. revert x.
  induction l as [|a l IH]; intros x [-> | Hin]; simpl.
  - lia.
  - destruct Hin.
  - pose proof (min_of_le l (Z.min x a)) as H. unfold min_of in H. lia.
  - destruct Hin as [-> | Hin].
    + pose proof (min_of_le l (Z.min x t)) as H. unfold min_of in H. lia.
    + apply IH. now right.
Qed.

Lemma max_of_upper (l : list Z) (x t : Z) :
  t = x \/ In t l -> t <= max_of x l.
Proof.
  unfold max_of. revert x.
  induction l as [|a l IH]; intros x [-> | Hin]; simpl.
  - lia.
  - destruct Hin.
  - pose proof (max_of_ge l (Z.max x a)) as H. unfold max_of in H. lia.
  - destruct Hin as [-> | Hin].
    + pose proof (max_of_ge l (Z.max x t)) as H. unfold max_of in H. lia.
    + apply IH. now right.
Qed.

Lemma all_present_inv {A B : Type} (f : A -> option B) (l : list A)
    (xs : list B) :
  all_present (map f l) = Ok xs -> map Some xs = map f l.
Proof.
  revert xs. induction l as [|e l IH]; intros xs; simpl.
  - now intros [= <-].
  - destruct (f e) as [x|]; [|discriminate].
    destruct (all_present (map f l)) as [ys|]; [|discriminate].
    simpl. intros [= <-]. simpl. f_equal. now apply IH.
Qed.

Lemma all_present_In {A B : Type} (f : A -> option B) (l : list A)
    (xs : list B) (x : B) :
  all_present (map f l) = Ok xs -> In x xs ->
  exists e, In e l /\ f e = Some x.
Proof.
  intros H Hx. apply all_present_inv in H.
  assert (Hin : In (Some x) (map f l))
    by (rewrite <- H; now apply in_map).
  apply in_map_iff in Hin as (e & He & Hin). now exists e.
Qed.

Lemma all_present_length {A B : Type} (f : A -> option B) (l : list A)
    (xs : list B) :
  all_present (map f l) = Ok xs -> length xs = length l.
Proof.
  intros H. apply all_present_inv in H.
  rewrite <- (length_map Some xs), H. apply length_map.
Qed.

(** The baseline the harness builds for a group: COLD and without metrics
    exactly when the group has fewer than 3 events; when WARM, the median
    and p90 costs are costs of events of the group, the median is not above
    the p90, and the sample count is the size of the group; the window
    covers the timestamps of all the events of the group. *)
Theorem harness_baseline_of_group (events : list LLMUsageEvent)
    (bl : BaselineResult) :
  _create_baseline_from_events events = Ok bl ->
  (state bl = COLD <-> (length events < 3)%nat) /\
  (state bl = COLD -> metrics bl = None) /\
  (state bl = WARM ->
   exists m e50 e90,
     metrics bl = Some m /\
     In e50 events /\ estimated_cost e50 = Some (median_cost m) /\
     In e90 events /\ estimated_cost e90 = Some (p90_cost m) /\
     (median_cost m <= p90_cost m)%Q /\
     sample_count m = Z.of_nat (length events)) /\
  (forall e, In e events ->
     window_start bl <= timestamp e <= window_end bl).
Proof.
  unfold _create_baseline_from_events.
  destruct events as [|e0 events']; [discriminate|].
  set (events := e0 :: events') in *.
  change (map timestamp events)
    with (timestamp e0 :: map timestamp events').
  cbv zeta.
  assert (Hwin : forall e, In e events ->
            min_of (timestamp e0) (map timestamp events') <= timestamp e
            <= max_of (timestamp e0) (map timestamp events')).
  { intros e [<- | He]; split;
      first [ apply min_of_lower | apply max_of_upper ];
      first [ now left | right; now apply in_map ]. }
  pose proof (Hwin e0 (or_introl eq_refl)) as Hw0.
  destruct (Z.ltb_spec (Z.of_nat (length events)) 3) as [Hfew | Hmany].
  - rewrite new_BaselineResult_returns by lia.
    intros [= <-]. cbn [state metrics window_start window_end].
    repeat split; intros; try discriminate; try lia; try reflexivity;
      apply Hwin; assumption.
  - destruct (all_present (map estimated_cost events)) as [costs|] eqn:Hc;
      [|discriminate].
    cbn [bind].
    destruct (all_present (map total_tokens events)) as [tokens|] eqn:Ht;
      [|discriminate].
    cbn [bind].
    set (len := Z.of_nat (length events)) in *.
    pose proof (all_present_length _ _ _ Hc) as Hclen.
    assert (Hcs : Z.of_nat (length (sorted Qle_bool costs)) = len)
      by (rewrite sorted_length, Hclen; reflexivity).
    assert (Hhalf : 0 <= len / 2 < len).
    { split; [apply Z.div_pos; lia | apply Z.div_lt_upper_bound; lia]. }
    pose proof (p90_index_in_range len ltac:(lia)) as Hp90.
    rewrite (getitem_in_range (sorted Qle_bool costs) (len / 2) 0%Q)
      by (rewrite Hcs; exact Hhalf).
    cbn [bind].
    rewrite (getitem_in_range (sorted Qle_bool costs) _ 0%Q)
      by (rewrite Hcs; exact Hp90).
    cbn [bind].
    destruct (getitem (sorted Z.leb tokens) (len / 2)) as [mt|];
      [|discriminate].
    cbn [bind].
    set (mc := nth (Z.to_nat (len / 2)) (sorted Qle_bool costs) 0%Q).
    set (pc := nth (Z.to_nat (int_of_float (inject_Z len * (9 # 10))))
                 (sorted Qle_bool costs) 0%Q).
    destruct (new_BaselineMetrics mc pc mt len) as [m|] eqn:Hm;
      [|discriminate].
    cbn [bind].
    rewrite new_BaselineResult_returns by lia.
    intros [= <-]. cbn [state metrics window_start window_end].
    assert (Hmeq : median_cost m = mc /\ p90_cost m = pc /\
                   sample_count m = len).
    { unfold new_BaselineMetrics in Hm.
      repeat match type of Hm with
             | (if ?b then _ else _) = _ => destruct b; [discriminate Hm|]
             end.
      injection Hm as <-. repeat split. }
    destruct Hmeq as (Hmc & Hpc & Hsc).
    assert (Hobs : forall i, 0 <= i < len ->
              exists e, In e events /\
                estimated_cost e =
                  Some (nth (Z.to_nat i) (sorted Qle_bool costs) 0%Q)).
    { intros i Hi.
      apply (all_present_In estimated_cost events costs _ Hc).
      apply (sorted_In Qle_bool). apply nth_In. lia. }
    split; [split; [discriminate | intros; lia]|].
    split; [discriminate|].
    split; [|exact Hwin].
    intros _.
    destruct (Hobs (len / 2) Hhalf) as (e50 & He50 & Hc50).
    destruct (Hobs _ Hp90) as (e90 & He90 & Hc90).
    exists m, e50, e90. rewrite Hmc, Hpc, Hsc.
    repeat split; try assumption.
    (* the median index is not above the p90 index *)
    apply (ascending_at_index (sorted Qle_bool costs));
      [apply Qle_bool_sorted_ascending | | lia].
    split; [lia|].
    assert (Hq : (0 <= inject_Z len * (9 # 10))%Q)
      by (unfold Qle; simpl; lia).
    unfold int_of_float. apply Qle_bool_iff in Hq. rewrite Hq.
    unfold Qfloor, Qmult, inject_Z. cbn [Qnum Qden].
    change (Z.pos (1 * 10)) with 10.
    apply Z.div_le_lower_bound; [lia|].
    assert (2 * (len / 2) <= len) by (apply Z.mul_div_le; lia).
    lia.
Qed.

(** Three calls costing 1.0, 1.0 and 3.0. *)
Lemma harness_baseline_of_group_witness :
  exists bl m,
    _create_baseline_from_events
      [Examples.third_call; Examples.second_call; Examples.first_call]
      = Ok bl /\
    metrics bl = Some m /\ (median_cost m <= p90_cost m)%Q.
Proof.
  assert (Hbl : exists bl,
             _create_baseline_from_events
               [Examples.third_call; Examples.second_call;
                Examples.first_call] = Ok bl)
    by (eexists; vm_compute; reflexivity).
  destruct Hbl as (bl & Hbl).
  destruct (harness_baseline_of_group _ bl Hbl) as (_ & _ & Hwarm & _).
  destruct Hwarm as (m & e50 & e90 & Hm & _ & _ & _ & _ & Hle & _).
  - vm_compute in Hbl. injection Hbl as <-. reflexivity.
  - exists bl, m. repeat split; assumption.
Defined.

(** *** Grouping by (feature, model) *)

Lemma key_eqb_eq (a b : string * string) : key_eqb a b = true <-> a = b.
Proof.
  destruct a as [a1 a2], b as [b1 b2]. unfold key_eqb. simpl.
  rewrite andb_true_iff, !String.eqb_eq.
  split; [intros [-> ->]; reflexivity | intros [= -> ->]; now split].
Qed.

Lemma key_eqb_neq (a b : string * string) : key_eqb a b = false <-> a <> b.
Proof.
  rewrite <- key_eqb_eq. destruct (key_eqb a b); split; congruence.
Qed.

Lemma setdefault_append_keys
    (d : list ((string * string) * list LLMUsageEvent))
    (key : string * string) (e : LLMUsageEvent) :
  (In key (map fst d) -> map fst (setdefault_append d key e) = map fst d) /\
  (~ In key (map fst d) ->
   map fst (setdefault_append d key e) = map fst d ++ [key]).
Proof.
  induction d as [|[k0 l0] d [IH1 IH2]]; simpl.
  - split; [intros [] | reflexivity].
  - destruct (key_eqb k0 key) eqn:Hk.
    + apply key_eqb_eq in Hk. subst k0. simpl.
      split; [reflexivity | intros H; exfalso; apply H; now left].
    + apply key_eqb_neq in Hk. simpl. split.
      * intros [H | H]; [congruence | now rewrite IH1].
      * intros H. rewrite IH2; [reflexivity | intros H'; apply H; now right].
Qed.

Lemma setdefault_append_groups
    (d : list ((string * string) * list LLMUsageEvent))
    (key : string * string) (e : LLMUsageEvent)
    (k : string * string) (l : list LLMUsageEvent) :
  NoDup (map fst d) ->
  In (k, l) (setdefault_append d key e) ->
  (k <> key /\ In (k, l) d) \/
  (k = key /\ exists l0, In (k, l0) d /\ l = l0 ++ [e]) \/
  (k = key /\ ~ In key (map fst d) /\ l = [e]).
Proof.
  induction d as [|[k0 l0] d IH]; simpl; intros Hnd.
  - intros [[= <- <-] | []]. right. right. repeat split. intros [].
  - inversion Hnd as [|? ? Hnot Hnd']; subst.
    destruct (key_eqb k0 key) eqn:Hk.
    + apply key_eqb_eq in Hk. subst k0.
      intros [[= <- <-] | Hin].
      * right. left. split; [reflexivity|].
        exists l0. split; [now left | reflexivity].
      * left. split; [|now right].
        intros ->. apply Hnot. apply in_map_iff. exists (key, l).
        now split.
    + apply key_eqb_neq in Hk.
      intros [[= <- <-] | Hin].
      * left. split; [exact Hk | now left].
      * destruct (IH Hnd' Hin)
          as [[H1 H2] | [(H1 & l1 & H2 & H3) | (H1 & H2 & H3)]].
        -- left. split; [exact H1 | now right].
        -- right. left. split; [exact H1|].
           exists l1. split; [now right | exact H3].
        -- right. right. split; [exact H1|].
           split; [|exact H3].
           intros [H | H]; [congruence | now apply H2].
Qed.

Lemma filter_snoc {A : Type} (f : A -> bool) (l : list A) (x : A) :
  filter f (l ++ [x]) = filter f l ++ (if f x then [x] else []).
Proof. rewrite filter_app. reflexivity. Qed.

Lemma group_events_spec (events : list LLMUsageEvent) :
  NoDup (map fst (group_events events)) /\
  (forall k, In k (map fst (group_events events)) <->
             exists e, In e events /\ key_of e = k) /\
  (forall k l, In (k, l) (group_events events) ->
     l = filter (fun e => key_eqb k (key_of e)) events).
Proof.
  induction events as [|e events (IHnd & IHkeys & IHgrp)] using rev_ind.
  - repeat split.
    + constructor.
    + intros [].
    + intros (e & [] & _).
    + intros k l [].
  - unfold group_events in *. rewrite fold_left_app. simpl.
    set (d := fold_left _ events []) in *.
    change (Models.feature e, Models.model e) with (key_of e).
    destruct (setdefault_append_keys d (key_of e) e) as [Hold Hnew].
    destruct (in_dec (fun a b : string * string =>
                match bool_dec (key_eqb a b) true with
                | left H => left (proj1 (key_eqb_eq a b) H)
                | right H =>
                    right (fun E => H (proj2 (key_eqb_eq a b) E))
                end) (key_of e) (map fst d)) as [Hin | Hout].
    + rewrite (Hold Hin). split; [exact IHnd|]. split.
      * intros k. rewrite IHkeys. split.
        -- intros (x & Hx & Hk). exists x. split; [|exact Hk].
           apply in_or_app. now left.
        -- intros (x & Hx & Hk). apply in_app_or in Hx as [Hx | [<- | []]].
           ++ now exists x.
           ++ subst k. now apply IHkeys.
      * intros k l Hl. rewrite filter_snoc.
        apply (setdefault_append_groups d _ _ _ _ IHnd) in Hl
          as [[H1 H2] | [(H1 & l1 & H2 & H3) | (H1 & H2 & H3)]].
        -- apply (proj2 (key_eqb_neq k (key_of e))) in H1. rewrite H1.
           rewrite app_nil_r. now apply IHgrp.
        -- subst k l. rewrite (proj2 (key_eqb_eq _ _) eq_refl).
           f_equal. now apply IHgrp.
        -- contradiction.
    + rewrite (Hnew Hout). split; [|split].
      * apply NoDup_rev in IHnd. rewrite <- (rev_involutive (_ ++ _)).
        apply NoDup_rev. rewrite rev_app_distr. simpl.
        constructor; [|exact IHnd].
        intros H. apply Hout. now apply in_rev.
      * intros k. rewrite in_app_iff, IHkeys. split.
        -- intros [(x & Hx & Hk) | [<- | []]].
           ++ exists x. split; [apply in_or_app; now left | exact Hk].
           ++ exists e. split; [apply in_or_app; right; now left|].
              reflexivity.
        -- intros (x & Hx & Hk). apply in_app_or in Hx as [Hx | [<- | []]].
           ++ left. now exists x.
           ++ right. now left.
      * intros k l Hl. rewrite filter_snoc.
        apply (setdefault_append_groups d _ _ _ _ IHnd) in Hl
          as [[H1 H2] | [(H1 & l1 & H2 & H3) | (H1 & H2 & H3)]].
        -- apply (proj2 (key_eqb_neq k (key_of e))) in H1. rewrite H1.
           rewrite app_nil_r. now apply IHgrp.
        -- exfalso. apply Hout. subst k. apply in_map_iff.
           exists (key_of e, l1). now split.
        -- subst k l. rewrite (proj2 (key_eqb_eq _ _) eq_refl).
           assert (Hnone : filter (fun x => key_eqb (key_of e) (key_of x))
                             events = []).
           { destruct (filter _ events) as [|x xs] eqn:Hf; [reflexivity|].
             exfalso. apply Hout.
             assert (Hx : In x (filter
                        (fun x => key_eqb (key_of e) (key_of x)) events))
               by (rewrite Hf; now left).
             apply filter_In in Hx as [Hx Hk].
             apply key_eqb_eq in Hk. apply IHkeys. exists x. now split. }
           rewrite Hnone. reflexivity.
Qed.

(** The groups partition the fetched events: no pair opens two groups,
    the pairs that have a group are the (feature, model) pairs of the
    events, the group of a pair is exactly the events carrying that pair,
    in the order in which they were fetched, and so every event is in the
    group of its pair and in no other. *)
Theorem group_events_partitions (events : list LLMUsageEvent) :
  NoDup (map fst (group_events events)) /\
  (forall k, In k (map fst (group_events events)) <->
             exists e, In e events /\ key_of e = k) /\
  (forall k l, In (k, l) (group_events events) ->
     l = filter (fun e => key_eqb k (key_of e)) events) /\
  (forall e, In e events ->
     exists l, In (key_of e, l) (group_events events) /\ In e l /\
       forall k l', In (k, l') (group_events events) -> In e l' ->
                    k = key_of e /\ l' = l).
Proof.
  destruct (group_events_spec events) as (Hnd & Hkeys & Hgrp).
  repeat split; try assumption; try (now apply Hkeys).
  intros e He.
  assert (Hk : In (key_of e) (map fst (group_events events)))
    by (apply Hkeys; now exists e).
  apply in_map_iff in Hk as ([k l] & Hfst & Hin). simpl in Hfst. subst k.
  exists l. split; [exact Hin|].
  pose proof (Hgrp _ _ Hin) as Hl. split.
  - rewrite Hl. apply filter_In. split; [exact He|].
    now apply key_eqb_eq.
  - intros k l' Hin' He'.
    pose proof (Hgrp _ _ Hin') as Hl'. rewrite Hl' in He'.
    apply filter_In in He' as [_ Hk]. apply key_eqb_eq in Hk. subst k.
    split; [reflexivity|]. now rewrite Hl, Hl'.
Qed.

End SimulationMore.

(** ** storage/repository.py: [get_recent_events] *)

Section RepositoryMore.
Import Repository BaselineSpec MoreSpec.

Lemma matches_wanted (filter : option string) (s : string) :
  matches filter s = true <->
  (forall f, filter = Some f -> f <> EmptyString -> s = f).
Proof.
  unfold matches, truthy.
  destruct filter as [[|c f]|].
  - split; [intros _ f [= <-] H; now destruct H | reflexivity].
  - rewrite String.eqb_eq. split.
    + intros -> f' [= <-] _. reflexivity.
    + intros H. apply H; [reflexivity | discriminate].
  - split; [intros _ f [=] | reflexivity].
Qed.

Lemma selected_wanted (now : Z) (feature model : option string)
    (days : option Z) (row : LLMUsageEvent) :
  matches feature (Models.feature row)
  && matches model (Models.model row)
  && match days with
     | None => true
     | Some d => now - timedelta_days d <=? timestamp row
     end = true <->
  wanted now feature model days row.
Proof.
  unfold wanted. rewrite !andb_true_iff, !matches_wanted.
  destruct days as [d|].
  - rewrite Z.leb_le. split.
    + intros [[Hf Hm] Hd]. repeat split; try assumption.
      now intros d' [= <-].
    + intros (Hf & Hm & Hd). repeat split; try assumption. now apply Hd.
  - split.
    + intros [[Hf Hm] _]. repeat split; try assumption. intros d [=].
    + intros (Hf & Hm & _). now repeat split.
Qed.


Lemma get_recent_events_wanted (repository : UsageRepository) (now : Z)
    (feature model : option string) (days : option Z) (limit : Z)
    (events : list LLMUsageEvent) :
  get_recent_events repository now feature model days limit = Ok events ->
  Forall (wanted now feature model days) events.
Proof.
  destruct repository as [rows| |]; [|discriminate|discriminate].
  unfold get_recent_events. cbv zeta. intros [= <-].
  apply Forall_forall. intros e He.
  assert (He' : In e (sorted newest_first
                        (filter (fun row =>
                           matches feature (Models.feature row)
                           && matches model (Models.model row)
                           && match days with
                              | None => true
                              | Some d =>
                                  now - timedelta_days d <=? timestamp row
                              end) rows))).
  { destruct (limit <? 0); [exact He | eapply firstn_incl; exact He]. }
  apply (proj1 (sorted_In newest_first e _)) in He'.
  apply filter_In in He' as [_ He']. now apply selected_wanted.
Qed.


End RepositoryMore.

(** ** core/simulation.py: the results of a run *)

Section HarnessMore.
Import Simulation SimulationSpec MoreSpec.

Lemma simulate_group_pair (config : Guardrails.GuardrailConfig)
    (item : (string * string) * list LLMUsageEvent)
    (fr : FeatureSimulationResult) :
  simulate_group config item = Ok fr -> pair_of fr = fst item.
Proof.
  destruct item as [[feature_name model_name] feature_events].
  unfold simulate_group.
  repeat match goal with
         | |- bind ?c _ = _ -> _ =>
             destruct c; [cbn [bind] | discriminate]
         end.
  intros [= <-]. reflexivity.
Qed.

Lemma mapM_simulate_group_pairs (config : Guardrails.GuardrailConfig)
    (d : list ((string * string) * list LLMUsageEvent))
    (results : list FeatureSimulationResult) :
  mapM (simulate_group config) d = Ok results ->
  map pair_of results = map fst d.
Proof.
  revert results. induction d as [|item d IH]; intros results; simpl.
  - now intros [= <-].
  - destruct (simulate_group config item) as [fr|] eqn:Hfr; [|discriminate].
    cbn [bind].
    destruct (mapM (simulate_group config) d) as [frs|]; [|discriminate].
    cbn [bind]. intros [= <-]. simpl.
    f_equal; [now apply (simulate_group_pair config) | now apply IH].
Qed.


(** A run that returns reports each (feature, model) pair of the fetched
    events once and reports no other pair; when a non-empty feature is
    asked for, every result is for that feature; with nothing fetched the
    result is the empty PASS result; and the verdict is the one of the
    reported results. *)
Theorem simulation_reports_each_pair_once (now : Z)
    (feature : option string) (config : Guardrails.GuardrailConfig)
    (repository : Repository.UsageRepository) (r : SimulationResult) :
  simulate_cost_impact now feature config repository = Ok r ->
  NoDup (map pair_of (per_feature_results r)) /\
  (forall k, In k (map pair_of (per_feature_results r)) <->
             exists e, In e (fetched now feature repository) /\
                       key_of e = k) /\
  (forall f fr, feature = Some f -> f <> EmptyString ->
                In fr (per_feature_results r) ->
                Simulation.feature fr = f) /\
  (fetched now feature repository = [] -> r = empty_result) /\
  overall_verdict r = _determine_overall_verdict (per_feature_results r).
Proof.
  intros Hrun.
  assert (Hmain :
    NoDup (map pair_of (per_feature_results r)) /\
    (forall k, In k (map pair_of (per_feature_results r)) <->
               exists e, In e (fetched now feature repository) /\
                         key_of e = k) /\
    (fetched now feature repository = [] -> r = empty_result) /\
    overall_verdict r = _determine_overall_verdict (per_feature_results r)).
  { unfold simulate_cost_impact, fetched in *.
    destruct (Repository.get_recent_events repository now feature None
                (Some 30) 1000) as [events|e].
    - destruct events as [|e0 events'].
      + injection Hrun as <-. simpl. repeat split; try constructor.
        * intros [].
        * intros (e & [] & _).
      + set (events := e0 :: events') in *.
        destruct (mapM (simulate_group config) (group_events events))
          as [results|] eqn:Hres; [|discriminate].
        cbn [bind] in Hrun. injection Hrun as <-.
        cbn [per_feature_results overall_verdict].
        rewrite (mapM_simulate_group_pairs _ _ _ Hres).
        destruct (group_events_spec events) as (Hnd & Hkeys & _).
        repeat split; try assumption; try (now apply Hkeys).
        discriminate.
    - destruct e as [| | | |[|]|]; try discriminate.
      injection Hrun as <-. simpl. repeat split; try constructor.
      + intros [].
      + intros (e & [] & _). }
  destruct Hmain as (Hnd & Hpairs & Hempty & Hverdict).
  repeat split; try assumption; try (now apply Hpairs).
  intros f fr Hf Hne Hfr.
  assert (Hk : In (pair_of fr) (map pair_of (per_feature_results r)))
    by now apply in_map.
  apply Hpairs in Hk as (e & He & Hk).
  unfold fetched in He.
  destruct (Repository.get_recent_events repository now feature None
              (Some 30) 1000) as [events|] eqn:Hev; [|destruct He].
  pose proof (get_recent_events_wanted _ _ _ _ _ _ _ Hev) as Hw.
  rewrite Forall_forall in Hw. destruct (Hw e He) as (Hfeat & _).
  unfold key_of, pair_of in Hk. injection Hk as Hk _.
  rewrite <- Hk. now apply Hfeat.
Qed.

(** The ledger of three calls of one feature: one result. *)
Lemma simulation_reports_each_pair_once_witness :
  exists r,
    simulate_cost_impact Examples.noon (Some "summary")
      (Examples.ceiling_config 2) Examples.ledger = Ok r /\
    NoDup (map pair_of (per_feature_results r)) /\
    (forall fr, In fr (per_feature_results r) ->
                Simulation.feature fr = "summary").
Proof.
  assert (Hr : exists r,
             simulate_cost_impact Examples.noon (Some "summary")
               (Examples.ceiling_config 2) Examples.ledger = Ok r)
    by (eexists; vm_compute; reflexivity).
  destruct Hr as (r & Hr). exists r.
  destruct (simulation_reports_each_pair_once _ _ _ _ r Hr)
    as (Hnd & _ & Hfeat & _).
  split; [exact Hr|]. split; [exact Hnd|].
  intros fr Hfr. apply (Hfeat "summary" fr); [reflexivity | discriminate |].
  exact Hfr.
Defined.

End HarnessMore.

(** ** core/pricing.py: [calculate_cost] *)

Section PricingMore.
Import Pricing PricingSpec.





Lemma calculate_cost_in_table (model : string) (pricing : ModelPricing)
    (usage : TokenUsage) :
  in_table model pricing ->
  calculate_cost model usage
  = Ok (quantize_round_up (exact_cost pricing usage)).
Proof.
  intros Hin. unfold calculate_cost, get_pricing.
  rewrite (lookup_in_table _ _ Hin). reflexivity.
Qed.



End PricingMore.

(** ** storage/repository.py: the write path *)

Section StorageMore.
Import Repository Storage BaselineSpec MoreSpec.

Lemma commit_same (fs : files) (db_path : string) (db : UsageRepository) :
  commit fs db_path db db_path = db.
Proof. unfold commit. now rewrite String.eqb_refl. Qed.

Lemma commit_other (fs : files) (db_path path : string)
    (db : UsageRepository) :
  path <> db_path -> commit fs db_path db path = fs path.
Proof.
  intros Hne. unfold commit.
  destruct (String.eqb_spec path db_path); [contradiction | reflexivity].
Qed.

Lemma storable_iff (e : LLMUsageEvent) :
  storable e <-> binds e && not_null e = true.
Proof. unfold storable. now rewrite andb_true_iff. Qed.

Lemma execute_insert_storable (rows : list LLMUsageEvent)
    (e : LLMUsageEvent) :
  storable e -> execute_insert (Table rows) e = inl (Table (rows ++ [e])).
Proof. intros [Hb Hn]. unfold execute_insert. now rewrite Hb, Hn. Qed.

Lemma execute_insert_not_storable (rows : list LLMUsageEvent)
    (e : LLMUsageEvent) :
  ~ storable e -> exists x, execute_insert (Table rows) e = inr x.
Proof.
  intros Hnot. unfold execute_insert.
  destruct (binds e) eqn:Hb; simpl; [|eexists; reflexivity].
  destruct (not_null e) eqn:Hn; simpl; [|eexists; reflexivity].
  exfalso. apply Hnot. now split.
Qed.

Lemma execute_insert_raises_without_table (db : UsageRepository)
    (e : LLMUsageEvent) :
  (forall rows, db <> Table rows) -> exists x, execute_insert db e = inr x.
Proof.
  intros Hno. destruct db as [rows| |].
  - now destruct (Hno rows).
  - eexists; reflexivity.
  - eexists; reflexivity.
Qed.

Lemma insert_loop_storable (events rows : list LLMUsageEvent) :
  Forall storable events ->
  insert_loop (Table rows) events = inl (Table (rows ++ events)).
Proof.
  revert rows. induction events as [|e events IH]; intros rows Hall;
    cbn [insert_loop].
  - now rewrite app_nil_r.
  - inversion Hall as [|? ? He Hrest]; subst.
    rewrite (execute_insert_storable _ _ He), (IH _ Hrest).
    now rewrite <- app_assoc.
Qed.

Lemma insert_loop_not_storable (events rows : list LLMUsageEvent) :
  ~ Forall storable events ->
  exists x, insert_loop (Table rows) events = inr x.
Proof.
  revert rows. induction events as [|e events IH]; intros rows Hnot;
    cbn [insert_loop].
  - exfalso. apply Hnot. constructor.
  - destruct (binds e && not_null e) eqn:Hs.
    + apply storable_iff in Hs.
      rewrite (execute_insert_storable _ _ Hs). apply IH.
      intros Hall. apply Hnot. now constructor.
    + destruct (execute_insert_not_storable rows e) as (x & Hx).
      { intros H. apply storable_iff in H. congruence. }
      rewrite Hx. now exists x.
Qed.

Lemma filter_all {A : Type} (f : A -> bool) (l : list A) :
  Forall (fun x => f x = true) l -> filter f l = l.
Proof.
  induction 1 as [|x l Hx _ IH]; simpl; [reflexivity|].
  now rewrite Hx, IH.
Qed.

Lemma one_by_one_spec (events : list LLMUsageEvent) (fs : files)
    (db_path : string) (rows : list LLMUsageEvent) :
  fs db_path = Table rows ->
  one_by_one events fs db_path db_path
  = Table (rows ++ filter (fun e => binds e && not_null e) events) /\
  forall path, path <> db_path -> one_by_one events fs db_path path = fs path.
Proof.
  revert fs rows.
  induction events as [|e events IH]; intros fs rows Hrows.
  - simpl. rewrite app_nil_r. now split.
  - unfold one_by_one in *. cbn [fold_left filter].
    unfold insert_usage_event at 2 4. unfold get_connection. cbv zeta.
    rewrite Hrows.
    destruct (binds e && not_null e) eqn:Hs.
    + apply storable_iff in Hs.
      rewrite (execute_insert_storable _ _ Hs). cbn [fst].
      destruct (IH (commit fs db_path (Table (rows ++ [e]))) (rows ++ [e])
                  (commit_same _ _ _)) as [IH1 IH2].
      split.
      * rewrite IH1. now rewrite <- app_assoc.
      * intros path Hne. rewrite (IH2 path Hne). now apply commit_other.
    + destruct (execute_insert_not_storable rows e) as (x & Hx).
      { intros H. apply storable_iff in H. congruence. }
      rewrite Hx. cbn [fst]. now apply IH.
Qed.

(** A batch is written whole or not at all.  An empty batch does nothing,
    not even open the database.  A batch of storable events is appended in
    order, just as inserting them one by one; a batch with an event that
    cannot be stored raises and writes nothing, where one by one the events
    that can be stored would have been written; and without the table a
    batch raises and writes nothing. *)
Theorem insert_usage_events_all_or_nothing (events : list LLMUsageEvent)
    (fs : files) (db_path : string) :
  (events = [] -> insert_usage_events events fs db_path = (fs, None)) /\
  (forall rows, events <> [] -> fs db_path = Table rows ->
     Forall storable events ->
     insert_usage_events events fs db_path
     = (commit fs db_path (Table (rows ++ events)), None) /\
     forall path,
       one_by_one events fs db_path path
       = commit fs db_path (Table (rows ++ events)) path) /\
  (forall rows, fs db_path = Table rows -> ~ Forall storable events ->
     (exists x, insert_usage_events events fs db_path = (fs, Some x)) /\
     one_by_one events fs db_path db_path
     = Table (rows ++ filter (fun e => binds e && not_null e) events)) /\
  (events <> [] -> (forall rows, fs db_path <> Table rows) ->
   exists x, insert_usage_events events fs db_path = (fs, Some x)).
Proof.
  split; [intros ->; reflexivity|].
  split; [|split].
  - intros rows Hne Hrows Hall.
    destruct events as [|e0 events']; [congruence|].
    unfold insert_usage_events, get_connection. cbv zeta. rewrite Hrows.
    rewrite (insert_loop_storable _ _ Hall). split; [reflexivity|].
    destruct (one_by_one_spec (e0 :: events') fs db_path rows Hrows)
      as [H1 H2].
    intros path. destruct (String.eqb_spec path db_path) as [-> | Hp].
    + rewrite H1, commit_same. f_equal. f_equal. apply filter_all.
      eapply Forall_impl; [|exact Hall].
      intros e He. now apply storable_iff.
    + rewrite (H2 path Hp). symmetry. now apply commit_other.
  - intros rows Hrows Hnot. split.
    + destruct events as [|e0 events'].
      { exfalso. apply Hnot. constructor. }
      unfold insert_usage_events, get_connection. cbv zeta. rewrite Hrows.
      destruct (insert_loop_not_storable _ rows Hnot) as (x & Hx).
      rewrite Hx. now exists x.
    + now apply one_by_one_spec.
  - intros Hne Hno.
    destruct events as [|e0 events']; [congruence|].
    unfold insert_usage_events, get_connection. cbv zeta.
    cbn [insert_loop].
    destruct (execute_insert_raises_without_table (fs db_path) e0 Hno)
      as (x & Hx).
    rewrite Hx. now exists x.
Qed.






(** A ledger must be initialised before it is written, and initialising
    never clears it.  On a database without the table an insert raises
    "no such table" and writes nothing; [initialize_schema] creates the
    empty table there and keeps the rows of a table that exists, so that
    running it again changes nothing; after it a storable event is
    inserted and then fetched alone. *)
Theorem initialize_schema_then_insert (event : LLMUsageEvent) (fs : files)
    (db_path : string) :
  fs db_path = NoTable -> storable event ->
  insert_usage_event event fs db_path
    = (fs, Some (DbOperationalError NoSuchTableError)) /\
  exists fs1 fs2,
    initialize_schema fs db_path = (fs1, None) /\
    fs1 db_path = Table [] /\
    insert_usage_event event fs1 db_path = (fs2, None) /\
    fetch_recent_usage_events fs2 None None 100 db_path = Ok [event] /\
    (exists fs3, initialize_schema fs2 db_path = (fs3, None) /\
                 forall path, fs3 path = fs2 path).
Proof.
  intros Hno Hs. split.
  { unfold insert_usage_event, get_connection. cbv zeta. now rewrite Hno. }
  exists (commit fs db_path (Table [])),
         (commit (commit fs db_path (Table [])) db_path (Table [event])).
  split.
  { unfold initialize_schema, get_connection. now rewrite Hno. }
  split; [apply commit_same|].
  split.
  { unfold insert_usage_event, get_connection. cbv zeta.
    rewrite commit_same. now rewrite (execute_insert_storable _ _ Hs). }
  split.
  { unfold fetch_recent_usage_events, get_connection.
    rewrite commit_same. reflexivity. }
  eexists. split.
  { unfold initialize_schema, get_connection. rewrite commit_same.
    reflexivity. }
  intros path. destruct (String.eqb_spec path db_path) as [-> | Hp].
  - now rewrite !commit_same.
  - now rewrite (commit_other _ _ _ _ Hp).
Qed.

Lemma initialize_schema_then_insert_witness :
  exists fs2,
    fetch_recent_usage_events fs2 None None 100 "ai_cost_guard.db"
    = Ok [Examples.first_call].
Proof.
  destruct (initialize_schema_then_insert Examples.first_call
              (fun _ => NoTable) "ai_cost_guard.db")
    as (_ & fs1 & fs2 & _ & _ & _ & Hfetch & _).
  - reflexivity.
  - split; reflexivity.
  - now exists fs2.
Defined.

End StorageMore.

(** ** cli/main.py: the exit code of [simulate] *)

Section CliMore.
Import Simulation SimulationSpec MoreSpec Cli.


End CliMore.

(** ** sdk/openai_client.py: what [chat] records *)

Section SdkMore.
Import Repository Storage Sdk MoreSpec PricingSpec.

Lemma insert_usage_event_cases (event : LLMUsageEvent) (fs : files)
    (db_path : string) :
  (exists rows,
     fs db_path = Table rows /\ storable event /\
     insert_usage_event event fs db_path
     = (commit fs db_path (Table (rows ++ [event])), None)) \/
  (exists x, insert_usage_event event fs db_path = (fs, Some x)).
Proof.
  unfold insert_usage_event, get_connection. cbv zeta.
  destruct (fs db_path) as [rows| |].
  - destruct (binds event && not_null event) eqn:Hs.
    + apply storable_iff in Hs. left. exists rows.
      rewrite (execute_insert_storable _ _ Hs).
      split; [reflexivity | split; [exact Hs | reflexivity]].
    + destruct (execute_insert_not_storable rows event) as (x & Hx).
      { intros H. apply storable_iff in H. congruence. }
      rewrite Hx. right. now exists x.
  - right. eexists. reflexivity.
  - right. eexists. reflexivity.
Qed.

(** What [chat] does, by case: how far it gets and what it leaves. *)
Lemma chat_cases (self : GuardedOpenAI) (now : Z)
    (messages : list (string * string)) (temperature : option Q)
    (max_tokens : option Z) (fs : files) :
  (exists response usage cost rows,
     messages <> [] /\
     client self (model self) messages temperature max_tokens
       = inl response /\
     Sdk.usage response = Some usage /\
     Pricing.calculate_cost (model self)
       {| Pricing.prompt_tokens := prompt_tokens usage;
          Pricing.completion_tokens := completion_tokens usage |}
       = Ok cost /\
     fs (db_path self) = Table rows /\
     storable (recorded_event self now response usage cost) /\
     chat self now messages temperature max_tokens fs
     = (commit fs (db_path self)
          (Table (rows ++ [recorded_event self now response usage cost])),
        inl response)) \/
  (exists e, chat self now messages temperature max_tokens fs
             = (fs, inr e)).
Proof.
  unfold chat.
  destruct messages as [|msg messages']; [right; eexists; reflexivity|].
  destruct (client self (model self) (msg :: messages') temperature
              max_tokens) as [response|e] eqn:Hcall;
    [|right; eexists; reflexivity].
  destruct (Sdk.usage response) as [usage|] eqn:Husage;
    [|right; eexists; reflexivity].
  cbv zeta.
  destruct (Pricing.calculate_cost _ _) as [cost|e] eqn:Hcost;
    [|right; eexists; reflexivity].
  fold (recorded_event self now response usage cost).
  destruct (insert_usage_event_cases
              (recorded_event self now response usage cost) fs
              (db_path self))
    as [(rows & Hrows & Hs & Hins) | (x & Hins)]; rewrite Hins.
  - left. exists response, usage, cost, rows.
    repeat split; try assumption; try discriminate; apply Hs.
  - right. eexists. reflexivity.
Qed.

(** [chat] records a call exactly when it returns.  When it returns, the
    response is the one of the service, unchanged, and the ledger at the
    client's path has gained one row: the event of that response, with the
    client's feature and model, the cost [calculate_cost] gives for the
    usage and no retries; no other file is touched.  When it raises,
    nothing is written anywhere.  It returns whenever the service answers
    with a usage that fits, the model is priced and the ledger has its
    table; for a model that is not priced it raises [ValueError] after the
    service has answered. *)
Theorem chat_records_exactly_when_it_returns (self : GuardedOpenAI)
    (now : Z) (messages : list (string * string)) (temperature : option Q)
    (max_tokens : option Z) (fs : files) :
  (forall response,
     snd (chat self now messages temperature max_tokens fs) = inl response ->
     client self (model self) messages temperature max_tokens
       = inl response /\
     exists usage cost,
       Sdk.usage response = Some usage /\
       Pricing.calculate_cost (model self)
         {| Pricing.prompt_tokens := prompt_tokens usage;
            Pricing.completion_tokens := completion_tokens usage |}
         = Ok cost /\
       rows_at (fst (chat self now messages temperature max_tokens fs))
         (db_path self)
       = rows_at fs (db_path self)
         ++ [recorded_event self now response usage cost] /\
       forall path, path <> db_path self ->
         fst (chat self now messages temperature max_tokens fs) path
         = fs path) /\
  (forall e,
     snd (chat self now messages temperature max_tokens fs) = inr e ->
     forall path,
       fst (chat self now messages temperature max_tokens fs) path
       = fs path) /\
  (forall response usage pricing rows,
     messages <> [] ->
     client self (model self) messages temperature max_tokens
       = inl response ->
     Sdk.usage response = Some usage -> usage_fits usage ->
     in_table (model self) pricing ->
     fs (db_path self) = Table rows ->
     snd (chat self now messages temperature max_tokens fs)
     = inl response) /\
  (forall response usage,
     messages <> [] ->
     client self (model self) messages temperature max_tokens
       = inl response ->
     Sdk.usage response = Some usage ->
     not_in_table (model self) ->
     snd (chat self now messages temperature max_tokens fs)
     = inr (Core (ValueError [Lit "Unsupported model: ";
                              Str (model self)]))).
Proof.
  split; [|split; [|split]].
  - intros response Hret.
    destruct (chat_cases self now messages temperature max_tokens fs)
      as [(response' & usage & cost & rows & _ & Hcall & Husage & Hcost
           & Hrows & _ & Hchat) | (e & Hchat)];
      rewrite Hchat in *; cbn [fst snd] in *; [|discriminate].
    injection Hret as <-. split; [exact Hcall|].
    exists usage, cost. repeat split; try assumption.
    + unfold rows_at. now rewrite commit_same, Hrows.
    + intros path Hp. now apply commit_other.
  - intros e Hraise path.
    destruct (chat_cases self now messages temperature max_tokens fs)
      as [(response' & usage & cost & rows & _ & _ & _ & _ & _ & _ & Hchat)
         | (e' & Hchat)];
      rewrite Hchat in *; cbn [fst snd] in *; [discriminate | reflexivity].
  - intros response usage pricing rows Hne Hcall Husage (Hp & Hc & Ht)
      Hin Hrows.
    unfold chat.
    destruct messages as [|msg messages']; [congruence|].
    rewrite Hcall, Husage. cbv zeta.
    rewrite (calculate_cost_in_table _ _ _ Hin).
    unfold insert_usage_event, get_connection. cbv zeta.
    rewrite Hrows.
    rewrite execute_insert_storable; [reflexivity|].
    split.
    + unfold binds. cbn [Models.prompt_tokens Models.completion_tokens
                           Models.total_tokens Models.retry_count
                           optional_sqlite_integer].
      rewrite Hp, Hc, Ht. reflexivity.
    + reflexivity.
  - intros response usage Hne Hcall Husage Hnot.
    unfold chat.
    destruct messages as [|msg messages']; [congruence|].
    rewrite Hcall, Husage. cbv zeta.
    unfold Pricing.calculate_cost, Pricing.get_pricing.
    rewrite (lookup_not_in_table _ Hnot). reflexivity.
Qed.

Lemma chat_other_paths (self : GuardedOpenAI) (now : Z)
    (messages : list (string * string)) (temperature : option Q)
    (max_tokens : option Z) (fs : files) (path : string) :
  path <> db_path self ->
  fst (chat self now messages temperature max_tokens fs) path = fs path.
Proof.
  intros Hp.
  destruct (chat_cases self now messages temperature max_tokens fs)
    as [(response' & usage & cost & rows & _ & _ & _ & _ & _ & _ & Hchat)
       | (e' & Hchat)];
    rewrite Hchat; cbn [fst]; [now apply commit_other | reflexivity].
Qed.

(** A client built without [db_path] writes to [.ai-cost-guard.db], while
    the command line reads and initialises [ai_cost_guard.db].  So no call
    of [chat] of such a client changes what [simulate] reports; and where
    [.ai-cost-guard.db] has no table, [chat] returns no response even
    after [init]. *)
Theorem default_client_writes_beside_the_cli_ledger
    (strip : string -> string) (new_client : OpenAI + api_error)
    (model feature : string) (self : GuardedOpenAI) :
  new_GuardedOpenAI strip new_client model feature None = inl self ->
  db_path self = ".ai-cost-guard.db" /\
  default_db_path = "ai_cost_guard.db" /\
  (forall now messages temperature max_tokens fs,
     get_repository (fst (chat self now messages temperature max_tokens fs))
     = get_repository fs /\
     forall now' feature' max_cost budget enforced,
       Cli.simulate (fst (chat self now messages temperature max_tokens fs))
         now' feature' max_cost budget enforced
       = Cli.simulate fs now' feature' max_cost budget enforced) /\
  (forall fs, fs ".ai-cost-guard.db" = NoTable ->
     forall now messages temperature max_tokens response,
       snd (chat self now messages temperature max_tokens
              (fst (Cli.init fs))) <> inl response).
Proof.
  intros Hnew.
  assert (Hpath : db_path self = ".ai-cost-guard.db").
  { unfold new_GuardedOpenAI in Hnew.
    destruct (_ || _); [discriminate|].
    destruct (_ || _); [discriminate|].
    destruct new_client as [c|e]; [|discriminate].
    injection Hnew as <-. reflexivity. }
  split; [exact Hpath|]. split; [reflexivity|]. split.
  - intros now messages temperature max_tokens fs.
    assert (Hrepo : get_repository
                      (fst (chat self now messages temperature max_tokens
                              fs)) = get_repository fs).
    { unfold get_repository, get_connection. apply chat_other_paths.
      rewrite Hpath. discriminate. }
    split; [exact Hrepo|].
    intros now' feature' max_cost budget enforced.
    unfold Cli.simulate. cbv zeta. now rewrite Hrepo.
  - intros fs Hno now messages temperature max_tokens response Hret.
    assert (Hinit : fst (Cli.init fs) ".ai-cost-guard.db" = NoTable).
    { unfold Cli.init, initialize_schema, get_connection.
      destruct (fs default_db_path); cbn [fst]; try exact Hno;
        rewrite commit_other; try exact Hno; discriminate. }
    destruct (chat_cases self now messages temperature max_tokens
                (fst (Cli.init fs)))
      as [(response' & usage & cost & rows & _ & _ & _ & _ & Hrows & _ & _)
         | (e' & Hchat)].
    + rewrite Hpath, Hinit in Hrows. discriminate.
    + rewrite Hchat in Hret. discriminate.
Qed.

(** A client for gpt-4 and a service that is down. *)
Lemma default_client_writes_beside_the_cli_ledger_witness :
  exists self,
    new_GuardedOpenAI (fun s => s)
      (inl (fun _ _ _ _ => inr (APIError "unavailable")))
      "gpt-4" "summary" None = inl self /\
    db_path self = ".ai-cost-guard.db".
Proof.
  eexists. split; [reflexivity|].
  apply (default_client_writes_beside_the_cli_ledger (fun s => s)
           (inl (fun _ _ _ _ => inr (APIError "unavailable")))
           "gpt-4" "summary").
  reflexivity.
Defined.

End SdkMore.

(* ===================================================================== *)
(** * Part V: the computing functions in double precision                  *)
(* ===================================================================== *)

(** ** Anomaly detection *)

Section AnomalyFloatClaims.
Import Binary64 AnomalyFloat AnomalyFloatSpec.

Lemma fgt_irrefl (a b : Q) : (a == b)%Q -> fgt (Fin a) (Fin b) = false.
Proof.
  intros H. unfold fgt. apply Qgtb_false_iff. rewrite H. apply Qle_refl.
Qed.

Lemma int_gt_float_irrefl (z : Z) (b : Q) :
  (inject_Z z == b)%Q -> int_gt_float z (Fin b) = false.
Proof.
  intros H. unfold int_gt_float. apply Qgtb_false_iff. rewrite H.
  apply Qle_refl.
Qed.

Ltac float_not_fired :=
  let a := fresh "a" in
  let Hin := fresh "Hin" in
  let Hr := fresh "Hr" in
  solve [ intros (a & Hin & Hr); simpl in Hin;
          repeat (destruct Hin as [<- | Hin]; [discriminate Hr|]);
          destruct Hin ].

Ltac float_has_fired :=
  unfold fired; simpl;
  first [ eexists; split; [left; reflexivity | reflexivity]
        | eexists; split; [right; left; reflexivity | reflexivity]
        | eexists; split; [right; right; left; reflexivity | reflexivity] ].

Ltac float_each_anomaly :=
  let a := fresh "a" in
  let Hin := fresh "Hin" in
  let Hr := fresh "Hr" in
  solve [ intros a Hin Hr; simpl in Hin;
          repeat (destruct Hin as [<- | Hin];
                  [try discriminate Hr; simpl; repeat split; reflexivity|]);
          destruct Hin ].

(** C5 as stated fails on the code.  The thresholds are float products,
    rounded to the nearest double.  With a p90 cost of 0.1 and a cost of
    0.15000000000000002 the cost is above 1.5 times the p90 cost (the
    doubles are 3602879701896397/2^55 and 5404319552844596/2^55), yet the
    product rounds up to the cost itself and rule A does not fire. *)
Lemma detect_anomalies_threshold_is_rounded :
  exists l,
    detect_anomalies "f" "m" (warm_baseline (double (1 # 10)) 1000)
      (event_of (double (15000000000000002 # 100000000000000000)) 1000 0)
    = Returns l /\
    (double (1 # 10) * (15 # 10)
     < double (15000000000000002 # 100000000000000000))%Q /\
    l = [].
Proof.
  eexists. split; [vm_compute; reflexivity|].
  split; [vm_compute; reflexivity | reflexivity].
Qed.

(** C5, amended.  For a WARM baseline with metrics and a current event
    carrying cost, total tokens and retry count, whose median token count
    and retry count convert to floats: each rule fires exactly when the
    observed value is strictly above the threshold computed in double
    precision, that is the product rounded to the nearest double.  A iff
    cost > p90_cost * 1.5 (CRITICAL), B iff total_tokens >
    median_tokens * 1.7 (WARNING), C iff retry_count > 1 and
    cost * retry_count > p90_cost * 1.3 (WARNING), both products rounded;
    an observed value equal to the computed threshold does not fire; the
    anomaly of rule C records the rounded cost * retry_count, not the
    cost. *)
Theorem detect_anomalies_fires_above_computed_threshold
    (feature model : string) (baseline : BaselineResult)
    (current_event : LLMUsageEvent) (m : BaselineMetrics)
    (cost : Q) (tokens retries : Z) (mt rt : float) :
  state baseline = WARM ->
  metrics baseline = Some m ->
  estimated_cost current_event = Some cost ->
  total_tokens current_event = Some tokens ->
  retry_count current_event = Some retries ->
  float_of_int (median_tokens m) = Returns mt ->
  float_of_int retries = Returns rt ->
  exists l,
    detect_anomalies feature model baseline current_event = Returns l /\
    (fired "A" l <-> fgt (Fin cost) (threshold_A m) = true) /\
    (fired "B" l <-> int_gt_float tokens (threshold_B mt) = true) /\
    (fired "C" l <->
     1 < retries /\
     fgt (fmul (Fin cost) rt) (threshold_C m) = true) /\
    (forall t, threshold_A m = Fin t -> (cost == t)%Q -> ~ fired "A" l) /\
    (forall t, threshold_B mt = Fin t -> (inject_Z tokens == t)%Q ->
               ~ fired "B" l) /\
    (forall o t, fmul (Fin cost) rt = Fin o -> threshold_C m = Fin t ->
                 (o == t)%Q -> ~ fired "C" l) /\
    (forall a, In a l -> rule a = "A" ->
       severity a = Anomaly.CRITICAL /\
       observed_value a = Real (Fin cost) /\
       baseline_value a = Real (Fin (p90_cost m)) /\
       threshold a = threshold_A m) /\
    (forall a, In a l -> rule a = "B" ->
       severity a = Anomaly.WARNING /\
       observed_value a = Whole tokens /\
       baseline_value a = Whole (median_tokens m) /\
       threshold a = threshold_B mt) /\
    (forall a, In a l -> rule a = "C" ->
       severity a = Anomaly.WARNING /\
       observed_value a = Real (fmul (Fin cost) rt) /\
       baseline_value a = Real (Fin (p90_cost m)) /\
       threshold a = threshold_C m).
Proof.
  intros Hwarm Hm Hcost Htokens Hretries Hmt Hrt.
  unfold detect_anomalies.
  rewrite Hwarm, Hm, Hcost, Htokens, Hretries. cbv zeta.
  rewrite Hmt, Hrt.
  fold (threshold_A m). fold (threshold_B mt). fold (threshold_C m).
  set (total := fmul (Fin cost) rt).
  destruct (fgt (Fin cost) (threshold_A m)) eqn:EA;
    destruct (int_gt_float tokens (threshold_B mt)) eqn:EB;
    destruct (Z.ltb_spec 1 retries) as [Hr | Hr];
    try destruct (fgt total (threshold_C m)) eqn:EC;
    (eexists; split; [reflexivity|]);
    (split; [split; [first [intros _; reflexivity | float_not_fired]
                    | first [intros _; float_has_fired
                            | intros H; discriminate H]]|]);
    (split; [split; [first [intros _; reflexivity | float_not_fired]
                    | first [intros _; float_has_fired
                            | intros H; discriminate H]]|]);
    (split; [split; [first [intros _; split; [exact Hr | reflexivity]
                           | float_not_fired]
                    | first [intros _; float_has_fired
                            | intros [H1 H2]; exfalso;
                              first [lia | discriminate H2]]]|]);
    (split; [intros t Ht Heq;
             first [float_not_fired
                   | exfalso; rewrite Ht in EA;
                     rewrite (fgt_irrefl _ _ Heq) in EA;
                     discriminate EA]|]);
    (split; [intros t Ht Heq;
             first [float_not_fired
                   | exfalso; rewrite Ht in EB;
                     rewrite (int_gt_float_irrefl _ _ Heq) in EB;
                     discriminate EB]|]);
    (split; [intros o t Ho Ht Heq;
             first [float_not_fired
                   | exfalso; rewrite Ho, Ht in EC;
                     rewrite (fgt_irrefl _ _ Heq) in EC;
                     discriminate EC]|]);
    (split; [float_each_anomaly|]);
    (split; [float_each_anomaly|]);
    float_each_anomaly.
Qed.

(** Cost 8.0 with 2 retries against a p90 cost of 10.0: rule C fires on
    16.0 > 13.0, rule A does not (8.0 <= 15.0). *)
Lemma detect_anomalies_fires_above_computed_threshold_witness :
  exists l,
    detect_anomalies "f" "m" (warm_baseline 10 1000) (event_of 8 1000 2)
    = Returns l /\
    fired "C" l /\ ~ fired "A" l /\
    (forall a, In a l -> rule a = "C" -> observed_value a = Real (Fin 16)).
Proof.
  destruct (detect_anomalies_fires_above_computed_threshold "f" "m"
              (warm_baseline 10 1000) (event_of 8 1000 2)
              {| median_cost := 10; p90_cost := 10; median_tokens := 1000;
                 sample_count := 100 |} 8 1000 2 (Fin 1000) (Fin 2)
              eq_refl eq_refl eq_refl eq_refl eq_refl)
    as (l & Hl & HA & _ & HC & _ & _ & _ & _ & _ & HobsC).
  - vm_compute. reflexivity.
  - vm_compute. reflexivity.
  - exists l. split; [exact Hl|]. split; [|split].
    + apply HC. split; [lia | vm_compute; reflexivity].
    + intros Hf. apply HA in Hf. vm_compute in Hf. discriminate Hf.
    + intros a Hin Hr. destruct (HobsC a Hin Hr) as (_ & Hobs & _).
      rewrite Hobs. vm_compute. reflexivity.
Defined.

End AnomalyFloatClaims.

(** ** Rounding to a double *)

Section RoundingFacts.
Import Binary64.

Lemma rhe_le_int (y : Q) (D : Z) :
  (y <= inject_Z D)%Q -> round_half_even y <= D.
Proof.
  intros Hy. unfold round_half_even. cbv zeta.
  pose proof (Qfloor_le y) as Hf. pose proof (Qlt_floor y) as Hf'.
  assert (HfD : Qfloor y <= D).
  { rewrite <- (Qfloor_Z D). now apply Qfloor_resp_le. }
  destruct (Z.eq_dec (Qfloor y) D) as [Heq | Hne].
  - assert (Hz : (y - inject_Z (Qfloor y) <= 0)%Q) by (rewrite Heq; lra).
    destruct (y - inject_Z (Qfloor y) ?= 1 # 2)%Q eqn:E.
    + apply Qeq_alt in E. lra.
    + lia.
    + apply Qgt_alt in E. lra.
  - destruct (y - inject_Z (Qfloor y) ?= 1 # 2)%Q;
      try destruct (Z.even (Qfloor y)); lia.
Qed.

Lemma rhe_nonneg (y : Q) : (0 <= y)%Q -> 0 <= round_half_even y.
Proof.
  intros Hy. unfold round_half_even. cbv zeta.
  assert (Hf : 0 <= Qfloor y).
  { rewrite <- (Qfloor_Z 0). now apply Qfloor_resp_le. }
  destruct (y - inject_Z (Qfloor y) ?= 1 # 2)%Q;
    try destruct (Z.even (Qfloor y)); lia.
Qed.

Lemma rhe_int (y : Q) (z : Z) :
  (y == inject_Z z)%Q -> round_half_even y = z.
Proof.
  intros Hy. unfold round_half_even. cbv zeta.
  assert (Hf : Qfloor y = z) by (rewrite Hy; apply Qfloor_Z).
  rewrite Hf.
  destruct (y - inject_Z z ?= 1 # 2)%Q eqn:E.
  - apply Qeq_alt in E. lra.
  - reflexivity.
  - apply Qgt_alt in E. lra.
Qed.

End RoundingFacts.
